(** * QuillFuzz: the adaptive generate-validate-repair pipeline

    A shallow embedding of [src/gen_w_improve.py] and
    [src/circuit_assembler.py], and the properties of the candidate state
    machine, the training loop, the stats aggregator and the combination
    samplers.

    Conventions of the embedding.
    - Python [int] is [Z]; [str] is [string]; [Optional[x]] is [option];
      a [set] is a [gset]; [list(set(l))] is [elements (list_to_set l)],
      whose order is as unspecified as Python's.
    - Python [float] is a carrier [F] with the operations the code uses
      ([FloatOps]); the rationals are one instance.
    - The external collaborators (language model, compiler, runner, file
      system, assembler) are operations on an abstract world [W]
      ([Collaborators]); each may return or raise.
    - Effects are a state-and-exception monad over the machine state; every
      call to a side-effecting collaborator is also recorded, in order, in
      the machine's [trace].
    - [random] is a tape of raw draws; [random.sample] draws positions
      without replacement.
    - The worker pool runs its tasks one after the other, in the order
      submitted; a task's result or exception is what its future gives.
    - A [while] loop takes fuel, and is shown to end before the fuel does.
    - Log lines are structured values ([log_msg]), one constructor per
      logging site; elapsed-time stamps and number formatting are left out. *)

From Stdlib Require Import ZArith QArith Lia Ascii String.
From stdpp Require Import base gmap sets list strings pretty.

Open Scope string_scope.
Open Scope Z_scope.
Open Scope list_scope.

(** ** Python preliminaries *)

Module Py.

Definition nl : string := String (Ascii.ascii_of_nat 10) "".

(** [bool(s)] for a string. *)
Definition truthy (s : string) : bool :=
  match s with EmptyString => false | String _ _ => true end.

(** [bool(o)] for an optional string: [None] and the empty string are falsy. *)
Definition truthy_opt (o : option string) : bool :=
  match o with None => false | Some s => truthy s end.

(** The string of an optional string that has been tested truthy. *)
Definition the (o : option string) : string :=
  match o with None => "" | Some s => s end.

(** [f"{o}"] for an optional string. *)
Definition fmt_opt (o : option string) : string :=
  match o with None => "None" | Some s => s end.

(** ASCII whitespace as [str.strip()] sees it. *)
Definition is_space (c : Ascii.ascii) : bool :=
  let n := Ascii.nat_of_ascii c in
  (Nat.eqb n 32 || (Nat.leb 9 n && Nat.leb n 13) || (Nat.leb 28 n && Nat.leb n 31))%nat%bool.

(** [bool(s.strip())]: some character of [s] is not whitespace. *)
Fixpoint strip_truthy (s : string) : bool :=
  match s with
  | EmptyString => false
  | String c s' => (negb (is_space c) || strip_truthy s')%bool
  end.

Definition starts_with_sep (s : string) : bool :=
  match s with String "/"%char _ => true | _ => false end.

Fixpoint ends_with_sep (s : string) : bool :=
  match s with
  | EmptyString => false
  | String c EmptyString => Ascii.eqb c "/"%char
  | String _ s' => ends_with_sep s'
  end.

(** [os.path.isabs] and [os.path.join] of posixpath. *)
Definition os_path_isabs (p : string) : bool := starts_with_sep p.

Definition join2 (path b : string) : string :=
  if starts_with_sep b then b
  else if (negb (truthy path) || ends_with_sep path)%bool then path +:+ b
  else path +:+ "/" +:+ b.

Definition os_path_join (a : string) (ps : list string) : string :=
  fold_left join2 ps a.

(** [s.replace('/', '_')]. *)
Fixpoint replace_slash (s : string) : string :=
  match s with
  | EmptyString => EmptyString
  | String c s' => String (if Ascii.eqb c "/"%char then "_"%char else c) (replace_slash s')
  end.

(** [sep.join(l)]. *)
Definition str_join (sep : string) (l : list string) : string := String.concat sep l.

(** [list(set(l))]. *)
Definition list_set (l : list string) : list string :=
  elements (list_to_set l : gset string).

(** [range(n)] for an integer [n]: empty when [n <= 0]. *)
Definition range (n : Z) : list Z := map Z.of_nat (seq 0 (Z.to_nat n)).

(** [range(a, b)]. *)
Definition range2 (a b : Z) : list Z := map (fun i => a + Z.of_nat i) (seq 0 (Z.to_nat (b - a))).

(** [sum(l)] for integers. *)
Definition zsum (l : list Z) : Z := fold_left Z.add l 0.

(** Exceptions: [except Exception] catches [Exception] and lets
    [SystemExit] through. *)
Inductive exn :=
| Exception (msg : string)
| SystemExit (code : Z).

Inductive result (A : Type) :=
| Ok (a : A)
| Raised (e : exn).
Arguments Ok {A} a.
Arguments Raised {A} e.

End Py.
Export Py.

(** ** Floats *)

(** The float operations the two programs use. [truediv_int a b] is [a / b]
    on two integers, [of_int] the implicit conversion of an integer operand. *)
Class FloatOps (F : Type) := {
  fzero : F;
  fone : F;
  fadd : F -> F -> F;
  fsub : F -> F -> F;
  fdiv : F -> F -> F;
  of_int : Z -> F;
  truediv_int : Z -> Z -> F;
  fltb : F -> F -> bool
}.

(** Order laws of [<] on the floats that are not NaN, and the one fact about
    division that the training loop relies on: a part of a whole is at most
    [1.0]. *)
Class FloatOrder (F : Type) `{FloatOps F} := {
  fltb_irrefl : forall a, fltb a a = false;
  fltb_trans : forall a b c, fltb a b = true -> fltb b c = true -> fltb a c = true;
  fltb_cotrans : forall a b c, fltb a b = true -> fltb a c = true \/ fltb c b = true;
  ratio_le_one : forall c n, 0 <= c <= n -> 0 < n -> fltb fone (truediv_int c n) = false
}.

(** [sum(l)]: left to right from [0]. *)
Definition fsum {F} `{FloatOps F} (l : list F) : F := fold_left fadd l (of_int 0).

(** Exact rationals as floats. *)
#[global] Instance Q_float : FloatOps Q := {|
  fzero := 0%Q;
  fone := 1%Q;
  fadd := fun a b => Qred (Qplus a b);
  fsub := fun a b => Qred (Qminus a b);
  fdiv := fun a b => Qred (Qdiv a b);
  of_int := fun z => inject_Z z;
  truediv_int := fun a b => Qred (Qdiv (inject_Z a) (inject_Z b));
  fltb := fun a b => match Qcompare a b with Lt => true | _ => false end
|}.

(** ** Data model of [gen_w_improve.py] *)

Section DataModel.
Context {F : Type} `{FloatOps F}.

(** A metrics mapping returned by the compile and run collaborators: the
    one key the code reads, and the rest. The key is absent ([None]) or
    holds a number: a mapping that has the key with the value [None], which
    [metrics.get('quality_score', 0.0)] would hand on as [None], is not
    among the mappings modelled. *)
Record metrics := {
  m_quality_score : option F;
  m_fields : list (string * string)
}.

Definition empty_metrics : metrics := {| m_quality_score := None; m_fields := [] |}.

(** The usage mapping returned with every model answer; an absent key is
    [None], and a key that is there holds a number. *)
Record usage := {
  u_cost : option F;
  u_prompt_tokens : option Z;
  u_completion_tokens : option Z;
  u_total_tokens : option Z;
  u_quality_score : option F
}.

Definition usage_is_empty (u : usage) : bool :=
  match u_cost u, u_prompt_tokens u, u_completion_tokens u, u_total_tokens u, u_quality_score u with
  | None, None, None, None, None => true
  | _, _, _, _, _ => false
  end.

Record GenerationStats := {
  cost : F;
  prompt_tokens : Z;
  completion_tokens : Z;
  total_tokens : Z;
  quality_score : option F;
  execution_quality_score : option F;
  metrics_compilation : metrics;
  metrics_execution : metrics
}.

Definition new_stats : GenerationStats := {|
  cost := fzero; prompt_tokens := 0; completion_tokens := 0; total_tokens := 0;
  quality_score := None; execution_quality_score := None;
  metrics_compilation := empty_metrics; metrics_execution := empty_metrics
|}.

(** [GenerationStats.update]. *)
Definition update (s : GenerationStats) (u : usage) : GenerationStats :=
  if usage_is_empty u then s
  else {|
    cost := fadd (cost s) (default fzero (u_cost u));
    prompt_tokens := prompt_tokens s + default 0 (u_prompt_tokens u);
    completion_tokens := completion_tokens s + default 0 (u_completion_tokens u);
    total_tokens := total_tokens s + default 0 (u_total_tokens u);
    quality_score :=
      match u_quality_score u with Some q => Some q | None => quality_score s end;
    execution_quality_score := execution_quality_score s;
    metrics_compilation := metrics_compilation s;
    metrics_execution := metrics_execution s
  |}.

Definition set_compilation (s : GenerationStats) (m : metrics) (q : F) : GenerationStats := {|
  cost := cost s; prompt_tokens := prompt_tokens s;
  completion_tokens := completion_tokens s; total_tokens := total_tokens s;
  quality_score := Some q;
  execution_quality_score := execution_quality_score s;
  metrics_compilation := m; metrics_execution := metrics_execution s
|}.

Definition set_execution (s : GenerationStats) (m : metrics) (q : F) : GenerationStats := {|
  cost := cost s; prompt_tokens := prompt_tokens s;
  completion_tokens := completion_tokens s; total_tokens := total_tokens s;
  quality_score := quality_score s;
  execution_quality_score := Some q;
  metrics_compilation := metrics_compilation s; metrics_execution := m
|}.

(** The argparse namespace, shared by every processor of a run. *)
Record Config := {
  language : string;
  prompt_dir : string;
  n_programs : Z;
  n_fixing_cycles : Z;
  max_workers : Z;
  n_assemble : Z;
  n_circuits_per_assembly : Z;
  verbose : bool;
  training_n : Z;
  training_threshold : F;
  improver_model : string;
  reasoning_effort : string;
  improve_prompt : bool;
  compile_only : bool
}.

Definition set_compile_only (c : Config) (b : bool) : Config := {|
  language := language c; prompt_dir := prompt_dir c; n_programs := n_programs c;
  n_fixing_cycles := n_fixing_cycles c; max_workers := max_workers c;
  n_assemble := n_assemble c; n_circuits_per_assembly := n_circuits_per_assembly c;
  verbose := verbose c; training_n := training_n c;
  training_threshold := training_threshold c; improver_model := improver_model c;
  reasoning_effort := reasoning_effort c; improve_prompt := improve_prompt c;
  compile_only := b
|}.

(** The production summary. *)
Record Summary := {
  s_model : string;
  s_total_cost : F;
  s_total_time : F;
  s_total_programs : Z;
  s_valid_programs : Z;
  s_avg_quality_score : F;
  s_total_prompt_tokens : Z;
  s_total_completion_tokens : Z;
  s_total_tokens : Z
}.

(** Log lines, by logging site. *)
Inductive log_msg :=
| LogPromptNotFound (prompt_path : string)
| LogGenerateFailed (filename : string) (err : option string)
| LogGenerationCost (filename : string) (u : usage)
| LogTesting (filename : string)
| LogCompilationFailed (filename error : string)
| LogCode (filename code : string)
| LogRunning (filename : string)
| LogMetrics (filename : string) (compilation execution : metrics)
| LogRuntimeError (filename error : string)
| LogRanSuccessfully (filename : string)
| LogFixingPromptMissing (prompt_path : string)
| LogFixingCycleFailed (cycle : Z) (filename : string) (err : option string)
| LogFixingCost (filename : string) (cycle : Z) (u : usage)
| LogFixedCompilationFailed (filename : string) (cycle : Z)
| LogFixedCompiled (filename : string) (cycle : Z)
| LogOriginalPromptMissing (prompt_path : string)
| LogImprovedPrompt (content : string)
| LogRequestingImprovement (improver_model : string)
| LogImprovedSaved (output_path : string)
| LogImproveFailed (err : option string)
| LogTraceback
| LogRoundStart (round_idx : Z) (model prompt_filename : string)
| LogReasoningEffort (effort : string)
| LogTrainingError (e : string)
| LogRoundResult (round_idx count_needed_fix n : Z) (fix_ratio : F)
| LogTrainingSuccess (prompt_filename : string)
| LogImproving
| LogImproveError (e : string)
| LogMaxRoundsOrDisabled
| LogProductionHeader (n : Z)
| LogPrompt (prompt_filename : string)
| LogPromptContent (content : string)
| LogPromptUnreadable (e : string)
| LogError (e : string)
| LogSummary (s : Summary)
| LogAssemblerStart (input_dir output_dir : string) (n : Z) (language : string)
| LogNoInputFiles (input_dir : string)
| LogMinFilesTooLarge (min_files n_files : Z)
| LogCapping (requested max_possible target : Z)
| LogFound (n_files : Z)
| LogAssembleFailed (selected_files : list string) (exc : string)
| LogStoppedEarly (generated : Z)
| LogComplete (generated failed requested : Z).

(** What the machine did, in order. The three kinds of request to the
    language model are told apart by the call site. *)
Inductive event :=
| EvLog (logfile : string) (m : log_msg)
| EvPrint (m : log_msg)
| EvGenerationRequest (model prompt : string)
| EvFixingRequest (cycle : Z) (model prompt : string)
| EvImprovementRequest (model prompt : string)
| EvCompileCheck (code : string)
| EvRunCheck (code : string)
| EvSaveText (text path : string)
| EvWriteFile (path content : string)
| EvMakedirs (path : string)
| EvAssemble (files : list string) (output_file : string) (index : Z)
| EvRound (round_idx : Z) (prompt_filename : string) (count_needed_fix : Z).

End DataModel.

Arguments metrics F : clear implicits.
Arguments usage F : clear implicits.
Arguments GenerationStats F : clear implicits.
Arguments Config F : clear implicits.
Arguments Summary F : clear implicits.
Arguments log_msg F : clear implicits.
Arguments event F : clear implicits.

(** ** The collaborators *)

Class Collaborators (W F : Type) := {
  os_path_exists : string -> W -> bool;
  get_dynamic_prompt : string -> list (string * string) -> W -> result string * W;
  ask_any_model : string -> string -> string -> W ->
                  result (option string * usage F * option string) * W;
  compile_generated_program : string -> string -> W ->
                              result (option string * metrics F * string) * W;
  run_generated_program : string -> string -> W -> result (string * metrics F * string) * W;
  save_text_to_file : string -> string -> W -> result unit * W;
  read_text : string -> W -> result string * W;
  write_text : string -> string -> W -> result unit * W;
  os_makedirs : string -> W -> result unit * W;
  time_time : W -> F * W;
  assemble : list string -> string -> Z -> string -> W -> result unit * W;
  glob_py_sorted : string -> W -> list string
}.

(** ** The machine: state, exceptions and the trace *)

Section Machine.
Context {F : Type} `{FloatOps F} {W : Type} `{!Collaborators W F}.

(** The module-global generator of [random]: an endless tape of raw
    draws and the position of the next one. *)
Record Rng := {
  tape : nat -> nat;
  cursor : nat
}.

(** The shared world, namespace and random generator, and the fields of
    the processor that is running ([self.stats],
    [self.encountered_errors]). *)
Record State := {
  world : W;
  config : Config F;
  random : Rng;
  trace : list (event F);
  stats : GenerationStats F;
  encountered_errors : list string
}.

Definition M (A : Type) : Type := State -> result A * State.

Definition ret {A} (a : A) : M A := fun st => (Ok a, st).

Definition bind {A B} (m : M A) (k : A -> M B) : M B :=
  fun st =>
    match m st with
    | (Ok a, st') => k a st'
    | (Raised e, st') => (Raised e, st')
    end.

#[global] Instance M_ret : MRet M := fun A a => ret a.
#[global] Instance M_bind : MBind M := fun A B k m => bind m k.

Definition raise {A} (e : exn) : M A := fun st => (Raised e, st).

(** [try: m except Exception as e: h e]. *)
Definition try_except {A} (m : M A) (h : string -> M A) : M A :=
  fun st =>
    match m st with
    | (Raised (Exception msg), st') => h msg st'
    | r => r
    end.

Definition with_world (st : State) (w : W) : State :=
  {| world := w; config := config st; random := random st; trace := trace st;
     stats := stats st; encountered_errors := encountered_errors st |}.

Definition with_config (st : State) (c : Config F) : State :=
  {| world := world st; config := c; random := random st; trace := trace st;
     stats := stats st; encountered_errors := encountered_errors st |}.

Definition with_random (st : State) (r : Rng) : State :=
  {| world := world st; config := config st; random := r; trace := trace st;
     stats := stats st; encountered_errors := encountered_errors st |}.

Definition with_trace (st : State) (t : list (event F)) : State :=
  {| world := world st; config := config st; random := random st; trace := t;
     stats := stats st; encountered_errors := encountered_errors st |}.

Definition with_stats (st : State) (s : GenerationStats F) : State :=
  {| world := world st; config := config st; random := random st; trace := trace st;
     stats := s; encountered_errors := encountered_errors st |}.

Definition with_errors (st : State) (l : list string) : State :=
  {| world := world st; config := config st; random := random st; trace := trace st;
     stats := stats st; encountered_errors := l |}.

(** A call to a collaborator. *)
Definition call {A} (c : W -> result A * W) : M A :=
  fun st => let '(r, w) := c (world st) in (r, with_world st w).

Definition read {A} (c : W -> A) : M A := fun st => (Ok (c (world st)), st).

Definition emit (e : event F) : M unit :=
  fun st => (Ok tt, with_trace st (trace st ++ [e])).

Definition get_config : M (Config F) := fun st => (Ok (config st), st).
Definition put_config (c : Config F) : M unit := fun st => (Ok tt, with_config st c).
Definition get_stats : M (GenerationStats F) := fun st => (Ok (stats st), st).
Definition put_stats (s : GenerationStats F) : M unit := fun st => (Ok tt, with_stats st s).
Definition get_errors : M (list string) := fun st => (Ok (encountered_errors st), st).
Definition append_error (e : string) : M unit :=
  fun st => (Ok tt, with_errors st (encountered_errors st ++ [e])).

(** [Logger.log]: nothing without a log file, else one more line. *)
Definition log (logfile_path : string) (m : log_msg F) : M unit :=
  if truthy logfile_path then emit (EvLog logfile_path m) else ret tt.

(** [len(l)]. *)
Definition len {A} (l : list A) : Z := Z.of_nat (length l).

(** The next raw draw below [n]. *)
Definition randbelow (n : nat) : M nat :=
  fun st =>
    let r := random st in
    (Ok (tape r (cursor r) `mod` n)%nat,
     with_random st {| tape := tape r; cursor := S (cursor r) |}).

(** [random.randint(a, b)]: uniform in [a..b], [ValueError] on an empty
    range. *)
Definition randint (a b : Z) : M Z :=
  if b <? a then raise (Exception "empty range for randrange()")
  else j ← randbelow (Z.to_nat (b - a + 1)); ret (a + Z.of_nat j).

(** [k] draws from [pool] without replacement, in the order drawn. *)
Fixpoint draw {A} (pool : list A) (k : nat) : M (list A) :=
  match k with
  | O => ret []
  | S k' =>
      j ← randbelow (length pool);
      match pool !! j with
      | None => ret []
      | Some x => rest ← draw (delete j pool) k'; ret (x :: rest)
      end
  end.

(** [random.sample(population, k)]: [ValueError] unless
    [0 <= k <= len(population)]. *)
Definition sample {A} (population : list A) (k : Z) : M (list A) :=
  if (k <? 0) || (len population <? k) then
    raise (Exception "Sample larger than population or is negative")
  else draw population (Z.to_nat k).

End Machine.

Arguments State F W : clear implicits.
Arguments M F W A : clear implicits.

(** ** [ProgramProcessor] *)

Module ProgramProcessor.
Section ProgramProcessor.
Context {F : Type} `{FloatOps F} {W : Type} `{!Collaborators W F}.

(** The fields set once by [__init__]. *)
Record Processor := {
  index : Z;
  model : string;
  logger : string
}.

Definition filename (self : Processor) : string :=
  replace_slash (model self) +:+ "output" +:+ pretty (index self + 1) +:+ ".py".

Definition generate (self : Processor) (prompt_filename : string) : M F W (option string) :=
  cfg ← get_config;
  let prompt_path :=
    if os_path_isabs prompt_filename then prompt_filename
    else os_path_join (prompt_dir cfg) [prompt_filename] in
  found ← read (os_path_exists prompt_path);
  if negb found then
    log (logger self) (LogPromptNotFound prompt_path);;
    ret None
  else
    prompt ← call (get_dynamic_prompt prompt_path []);
    emit (EvGenerationRequest (model self) prompt);;
    '(code, u, err) ← call (ask_any_model (model self) prompt (reasoning_effort cfg));
    match code with
    | None =>
        log (logger self) (LogGenerateFailed (filename self) err);;
        append_error ("Generation API Error: " +:+ fmt_opt err);;
        ret None
    | Some c =>
        s ← get_stats;
        put_stats (update s u);;
        log (logger self) (LogGenerationCost (filename self) u);;
        ret (Some c)
    end.

Definition compile_check (self : Processor) (code : string) : M F W (bool * string) :=
  log (logger self) (LogTesting (filename self));;
  cfg ← get_config;
  emit (EvCompileCheck code);;
  '(error, m, wrapped_code) ← call (compile_generated_program code (language cfg));
  s ← get_stats;
  if truthy_opt error then
    let error := the error in
    put_stats (set_compilation s m fzero);;
    log (logger self) (LogCompilationFailed (filename self) error);;
    append_error ("Compilation Error:" +:+ nl +:+ error);;
    (if verbose cfg then log (logger self) (LogCode (filename self) wrapped_code) else ret tt);;
    ret (false, error)
  else
    put_stats (set_compilation s m (default fzero (m_quality_score m)));;
    ret (true, "").

Definition run_check (self : Processor) (code : string) : M F W (bool * string) :=
  log (logger self) (LogRunning (filename self));;
  cfg ← get_config;
  emit (EvRunCheck code);;
  '(error, m, runtime_code) ← call (run_generated_program code (language cfg));
  s ← get_stats;
  put_stats (set_execution s m (default fzero (m_quality_score m)));;
  s ← get_stats;
  log (logger self) (LogMetrics (filename self) (metrics_compilation s) (metrics_execution s));;
  if strip_truthy error then
    log (logger self) (LogRuntimeError (filename self) error);;
    append_error ("Runtime Error:" +:+ nl +:+ error);;
    (if verbose cfg then log (logger self) (LogCode (filename self) runtime_code) else ret tt);;
    ret (false, error)
  else
    log (logger self) (LogRanSuccessfully (filename self));;
    ret (true, "").

(** The body of [fix_loop]'s [for cycle in range(n_fixing_cycles)], over the
    cycles still to run; [break] and the end of the range both fall through
    to [return None]. *)
Fixpoint fix_cycles (self : Processor) (cycles : list Z)
    (current_code current_error : string) : M F W (option string) :=
  match cycles with
  | [] => ret None
  | cycle :: rest =>
      cfg ← get_config;
      let prompt_path := os_path_join (prompt_dir cfg) ["fixing_prompt_template.txt"] in
      found ← read (os_path_exists prompt_path);
      if negb found then
        log (logger self) (LogFixingPromptMissing prompt_path);;
        ret None
      else
        prompt ← call (get_dynamic_prompt prompt_path
                         [("faulty_code", current_code); ("error_message", current_error)]);
        emit (EvFixingRequest (cycle + 1) (model self) prompt);;
        '(fixed_code, u, err) ← call (ask_any_model (model self) prompt (reasoning_effort cfg));
        if negb (truthy_opt fixed_code) then
          log (logger self) (LogFixingCycleFailed (cycle + 1) (filename self) err);;
          ret None
        else
          let fixed_code := the fixed_code in
          s ← get_stats;
          put_stats (update s u);;
          log (logger self) (LogFixingCost (filename self) (cycle + 1) u);;
          '(compile_ok, compile_err) ← compile_check self fixed_code;
          if negb compile_ok then
            log (logger self) (LogFixedCompilationFailed (filename self) (cycle + 1));;
            fix_cycles self rest fixed_code compile_err
          else
            log (logger self) (LogFixedCompiled (filename self) (cycle + 1));;
            cfg ← get_config;
            if negb (compile_only cfg) then
              '(run_ok, run_err) ← run_check self fixed_code;
              if (run_ok : bool) then ret (Some fixed_code) else ret (Some fixed_code)
            else ret (Some fixed_code)
  end.

Definition fix_loop (self : Processor) (code initial_error : string) : M F W (option string) :=
  cfg ← get_config;
  fix_cycles self (range (n_fixing_cycles cfg)) code initial_error.

(** One pass of the body of that loop, from the look-up of the fixing
    prompt to the log line that follows the compile check of the fixer's
    code: [None] where the loop is left with nothing (no fixing prompt, no
    code from the fixer), else the fixer's code with [compile_ok] and
    [compile_err]. *)
Definition fix_attempt (self : Processor) (cycle : Z) (current_code current_error : string)
    : M F W (option (string * bool * string)) :=
  cfg ← get_config;
  let prompt_path := os_path_join (prompt_dir cfg) ["fixing_prompt_template.txt"] in
  found ← read (os_path_exists prompt_path);
  if negb found then
    log (logger self) (LogFixingPromptMissing prompt_path);;
    ret None
  else
    prompt ← call (get_dynamic_prompt prompt_path
                     [("faulty_code", current_code); ("error_message", current_error)]);
    emit (EvFixingRequest (cycle + 1) (model self) prompt);;
    '(fixed_code, u, err) ← call (ask_any_model (model self) prompt (reasoning_effort cfg));
    if negb (truthy_opt fixed_code) then
      log (logger self) (LogFixingCycleFailed (cycle + 1) (filename self) err);;
      ret None
    else
      let fixed_code := the fixed_code in
      s ← get_stats;
      put_stats (update s u);;
      log (logger self) (LogFixingCost (filename self) (cycle + 1) u);;
      '(compile_ok, compile_err) ← compile_check self fixed_code;
      (if negb compile_ok then
         log (logger self) (LogFixedCompilationFailed (filename self) (cycle + 1))
       else log (logger self) (LogFixedCompiled (filename self) (cycle + 1)));;
      ret (Some (fixed_code, compile_ok, compile_err)).

(** The loop up to the first fix that compiles, the execution check of
    that fix left out: the passes follow one another, each on the code and
    the error of the one before, until one compiles or the loop is left. *)
Fixpoint fix_search (self : Processor) (cycles : list Z)
    (current_code current_error : string) : M F W (option string) :=
  match cycles with
  | [] => ret None
  | cycle :: rest =>
      r ← fix_attempt self cycle current_code current_error;
      match r with
      | None => ret None
      | Some (fixed_code, compile_ok, compile_err) =>
          if negb compile_ok then fix_search self rest fixed_code compile_err
          else ret (Some fixed_code)
      end
  end.

(** The tuple [process] returns: the saved path, the stats, the errors and
    [was_fixed]. *)
Definition Outcome : Type := option string * GenerationStats F * list string * bool.

Definition process (self : Processor) (generated_dir failed_dir prompt_filename : string)
    (compile_only : bool) : M F W Outcome :=
  cfg ← get_config;
  put_config (set_compile_only cfg compile_only);;
  code ← generate self prompt_filename;
  if negb (truthy_opt code) then
    s ← get_stats;
    errs ← get_errors;
    ret (None, s, errs, false)
  else
    let code := the code in
    '(compile_ok, compile_err) ← compile_check self code;
    if (compile_ok : bool) then
      (if negb compile_only then run_check self code ;; ret tt else ret tt);;
      let save_path := os_path_join generated_dir [filename self] in
      emit (EvSaveText code save_path);;
      call (save_text_to_file code save_path);;
      s ← get_stats;
      errs ← get_errors;
      ret (Some save_path, s, list_set errs, false)
    else
      fixed_code ← fix_loop self code compile_err;
      if truthy_opt fixed_code then
        let fixed_code := the fixed_code in
        let save_path := os_path_join generated_dir [filename self] in
        emit (EvSaveText fixed_code save_path);;
        call (save_text_to_file fixed_code save_path);;
        s ← get_stats;
        errs ← get_errors;
        ret (Some save_path, s, list_set errs, true)
      else
        let save_path := os_path_join failed_dir [filename self] in
        emit (EvSaveText code save_path);;
        call (save_text_to_file code save_path);;
        s ← get_stats;
        errs ← get_errors;
        ret (None, s, list_set errs, true).

End ProgramProcessor.
End ProgramProcessor.

(** ** The batch runner, the training loop and the production phase *)

Module Pipeline.
Import ProgramProcessor.
Section Pipeline.
Context {F : Type} `{FloatOps F} {W : Type} `{!Collaborators W F}.

(** One task of the pool: a new [ProgramProcessor] and its [process]. What
    the task returns or raises is what [future.result()] gives. *)
Definition submit (i : Z) (model logger generated_dir failed_dir prompt_filename : string)
    (compile_only : bool) : M F W (result (Outcome (F:=F))) :=
  fun st =>
    let self := {| index := i; model := model; logger := logger |} in
    let '(r, st') := process self generated_dir failed_dir prompt_filename compile_only
                       (with_errors (with_stats st new_stats) []) in
    (Ok r, st').

(** The pool, one task after the other in the order submitted. The tasks
    share the world, the namespace and the log only. *)
Fixpoint run_pool (tasks : list Z) (model logger generated_dir failed_dir prompt_filename : string)
    (compile_only : bool) : M F W (list (result (Outcome (F:=F)))) :=
  match tasks with
  | [] => ret []
  | i :: rest =>
      r ← submit i model logger generated_dir failed_dir prompt_filename compile_only;
      rs ← run_pool rest model logger generated_dir failed_dir prompt_filename compile_only;
      ret (r :: rs)
  end.

(** The collection loop of a training round. *)
Fixpoint collect_training (logger : string) (futures : list (result (Outcome (F:=F))))
    (training_errors : list string) (count_needed_fix : Z) : M F W (list string * Z) :=
  match futures with
  | [] => ret (training_errors, count_needed_fix)
  | Ok (_, _, errors, was_fixed) :: rest =>
      collect_training logger rest (training_errors ++ errors)
        (if (was_fixed : bool) then count_needed_fix + 1 else count_needed_fix)
  | Raised (Exception e) :: rest =>
      log logger (LogTrainingError e);;
      collect_training logger rest training_errors count_needed_fix
  | Raised (SystemExit c) :: _ => raise (SystemExit c)
  end.

Definition improve_prompt_logic (improver_model prompt_path common_prompt_dir output_path : string)
    (error_logs : list string) (language : string) (logger : string)
    (reasoning_effort : string) : M F W string :=
  found ← read (os_path_exists prompt_path);
  if negb found then
    log logger (LogOriginalPromptMissing prompt_path);;
    emit (EvPrint (LogOriginalPromptMissing prompt_path));;
    raise (SystemExit 1)
  else
    original_content ← call (read_text prompt_path);
    let unique_errors := take 10 (list_set error_logs) in
    let errors_text := str_join (nl +:+ "---" +:+ nl) unique_errors in
    let template_path := os_path_join common_prompt_dir ["prompt_improvement_template.txt"] in
    found ← read (os_path_exists template_path);
    if negb found then
      raise (Exception ("Prompt improvement template missing at " +:+ template_path))
    else
      meta_prompt ← call (get_dynamic_prompt template_path
                            [("language", language); ("original_content", original_content);
                             ("errors_text", errors_text)]);
      emit (EvPrint (LogRequestingImprovement improver_model));;
      emit (EvImprovementRequest improver_model meta_prompt);;
      '(improved_content, _, err) ← call (ask_any_model improver_model meta_prompt reasoning_effort);
      if truthy_opt improved_content then
        emit (EvWriteFile output_path (the improved_content));;
        call (write_text output_path (the improved_content));;
        log logger (LogImprovedPrompt (the improved_content));;
        emit (EvPrint (LogImprovedSaved output_path));;
        ret output_path
      else
        emit (EvPrint (LogImproveFailed err));;
        ret prompt_path.

Definition max_rounds : Z := 3.

(** The body of [run_training_phase]'s loop, over the rounds still to run.
    [EvRound] records each completed round: its index, the prompt its batch
    ran on, the count of fixed candidates and the ratio. *)
Fixpoint training_rounds (rounds : list Z) (model common_run_dir script_dir : string)
    (prompt_filename best_prompt : string) (best_fix_ratio : F) : M F W string :=
  match rounds with
  | [] => ret best_prompt
  | round_idx :: rest =>
      args ← get_config;
      let round_dir := os_path_join common_run_dir
                         ["training_phase"; replace_slash model; "round_" +:+ pretty round_idx] in
      let t_gen_dir := os_path_join round_dir ["generated"] in
      let t_fail_dir := os_path_join round_dir ["failed"] in
      emit (EvMakedirs t_gen_dir);;
      call (os_makedirs t_gen_dir);;
      emit (EvMakedirs t_fail_dir);;
      call (os_makedirs t_fail_dir);;
      let logger := os_path_join round_dir ["round_" +:+ pretty round_idx +:+ "_execution.log"] in
      log logger (LogRoundStart round_idx model prompt_filename);;
      log logger (LogReasoningEffort (reasoning_effort args));;
      futures ← run_pool (range (training_n args)) model logger t_gen_dir t_fail_dir
                  prompt_filename true;
      '(training_errors, count_needed_fix) ← collect_training logger futures [] 0;
      let fix_ratio := truediv_int count_needed_fix (training_n args) in
      emit (EvRound round_idx prompt_filename count_needed_fix);;
      log logger (LogRoundResult round_idx count_needed_fix (training_n args) fix_ratio);;
      let '(best_fix_ratio, best_prompt) :=
        if fltb fix_ratio best_fix_ratio then (fix_ratio, prompt_filename)
        else (best_fix_ratio, best_prompt) in
      if fltb fix_ratio (training_threshold args) then
        log logger (LogTrainingSuccess prompt_filename);;
        ret prompt_filename
      else if improve_prompt args && (round_idx <? max_rounds) then
        log logger LogImproving;;
        let current_prompt_path :=
          if os_path_isabs prompt_filename then prompt_filename
          else os_path_join (prompt_dir args) [prompt_filename] in
        let new_prompt_path := os_path_join round_dir ["improved_prompt.txt"] in
        prompt_filename ←
          try_except
            (improve_prompt_logic (improver_model args) current_prompt_path
               (os_path_join script_dir ["Common_prompt_templates"]) new_prompt_path
               training_errors (language args) logger (reasoning_effort args))
            (fun e => log logger (LogImproveError e);; log logger LogTraceback;;
                      ret prompt_filename);
        training_rounds rest model common_run_dir script_dir prompt_filename
          best_prompt best_fix_ratio
      else
        log logger LogMaxRoundsOrDisabled;;
        training_rounds rest model common_run_dir script_dir prompt_filename
          best_prompt best_fix_ratio
  end.

Definition generation_prompt : string := "generation_prompt.txt".

Definition run_training_phase (model common_run_dir script_dir : string) : M F W string :=
  args ← get_config;
  let prompt_filename := generation_prompt in
  if training_n args <=? 0 then ret prompt_filename
  else
    training_rounds (range (max_rounds + 1)) model common_run_dir script_dir
      prompt_filename prompt_filename fone.

(** The collection loop of the production phase. A [GenerationStats] is
    always truthy, so every returned candidate is kept. *)
Fixpoint collect_production (logger : string) (futures : list (result (Outcome (F:=F))))
    (successful_files : list string) (stats_list : list (GenerationStats F))
    : M F W (list string * list (GenerationStats F)) :=
  match futures with
  | [] => ret (successful_files, stats_list)
  | Ok (save_path, s, _, _) :: rest =>
      collect_production logger rest
        (if truthy_opt save_path then successful_files ++ [the save_path] else successful_files)
        (stats_list ++ [s])
  | Raised (Exception e) :: rest =>
      log logger (LogError e);;
      collect_production logger rest successful_files stats_list
  | Raised (SystemExit c) :: _ => raise (SystemExit c)
  end.

(** [quality_scores]: the scores that are not [None]. *)
Definition quality_scores (stats_list : list (GenerationStats F)) : list F :=
  omap quality_score stats_list.

(** [avg_quality]. *)
Definition avg_quality (stats_list : list (GenerationStats F)) : F :=
  let qs := quality_scores stats_list in
  match qs with
  | [] => of_int 0
  | _ => fdiv (fsum qs) (of_int (len qs))
  end.

(** The aggregation of [run_production_phase]. *)
Definition aggregate (model : string) (n_programs : Z) (total_time : F)
    (successful_files : list string) (stats_list : list (GenerationStats F)) : Summary F :=
  let total_cost := fsum (map cost stats_list) in
  {| s_model := model;
     s_total_cost := total_cost;
     s_total_time := total_time;
     s_total_programs := n_programs;
     s_valid_programs := len successful_files;
     s_avg_quality_score := avg_quality stats_list;
     s_total_prompt_tokens := zsum (map prompt_tokens stats_list);
     s_total_completion_tokens := zsum (map completion_tokens stats_list);
     s_total_tokens := zsum (map total_tokens stats_list) |}.

Definition run_production_phase (model prompt_filename common_run_dir logfile_path : string)
    : M F W (list string * Summary F * list (string * metrics F * metrics F)) :=
  args ← get_config;
  let logger := logfile_path in
  start_time ← call (fun w => let '(t, w') := time_time w in (Ok t, w'));
  let gen_dir := os_path_join common_run_dir ["generated"] in
  let fail_dir := os_path_join common_run_dir ["failed_programs"] in
  emit (EvMakedirs gen_dir);;
  call (os_makedirs gen_dir);;
  emit (EvMakedirs fail_dir);;
  call (os_makedirs fail_dir);;
  log logger (LogProductionHeader (n_programs args));;
  log logger (LogPrompt prompt_filename);;
  log logger (LogReasoningEffort (reasoning_effort args));;
  let prompt_path :=
    if os_path_isabs prompt_filename then prompt_filename
    else os_path_join (prompt_dir args) [prompt_filename] in
  try_except
    (prompt_content ← call (read_text prompt_path);
     log logger (LogPromptContent prompt_content))
    (fun e => log logger (LogPromptUnreadable e));;
  futures ← run_pool (range (n_programs args)) model logger gen_dir fail_dir prompt_filename false;
  '(successful_files, stats_list) ← collect_production logger futures [] [];
  now ← call (fun w => let '(t, w') := time_time w in (Ok t, w'));
  let total_time := fsub now start_time in
  let summary := aggregate model (n_programs args) total_time successful_files stats_list in
  log logger (LogSummary summary);;
  let metrics := map (fun s => (model, metrics_compilation s, metrics_execution s)) stats_list in
  ret (successful_files, summary, metrics).

(** The variables of [assemble_circuits]'s loop. *)
Record AssembleState := {
  seen : gset (list string);
  count : Z;
  attempts : Z
}.

(** One iteration of the loop of [assemble_circuits]; [None] is [break]. *)
Definition assemble_body (model : string) (files : list string) (out_dir : string)
    (s : AssembleState) : M F W (option AssembleState) :=
  args ← get_config;
  if negb (bool_decide (files <> [])) then ret None
  else
    let max_k := Z.min (n_circuits_per_assembly args) (len files) in
    let max_k := if max_k <? 1 then 1 else max_k in
    k ← randint 1 max_k;
    selection ← sample files k;
    if bool_decide (selection ∈ seen s) then
      ret (Some {| seen := seen s; count := count s; attempts := attempts s + 1 |})
    else
      let s := {| seen := {[selection]} ∪ seen s; count := count s; attempts := 0 |} in
      try_except
        (let output_file :=
           os_path_join out_dir [replace_slash model +:+ "_" +:+ pretty (count s) +:+ ".py"] in
         emit (EvAssemble selection output_file (count s));;
         call (assemble selection output_file (count s) (language args));;
         ret (Some {| seen := seen s; count := count s + 1; attempts := attempts s |}))
        (fun _ => ret (Some s)).

(** The [while] of [assemble_circuits]; [None] when the fuel runs out
    before the loop ends. *)
Fixpoint assemble_loop (fuel : nat) (model : string) (files : list string) (out_dir : string)
    (s : AssembleState) : M F W (option AssembleState) :=
  args ← get_config;
  if (count s <? n_assemble args) && (attempts s <? 1000) then
    match fuel with
    | O => ret None
    | S fuel' =>
        r ← assemble_body model files out_dir s;
        match r with
        | None => ret (Some s)
        | Some s' => assemble_loop fuel' model files out_dir s'
        end
    end
  else ret (Some s).

Definition assemble_circuits (fuel : nat) (model : string) (files : list string)
    (base_dir : string) : M F W (option AssembleState) :=
  let out_dir := os_path_join base_dir ["assembled"] in
  emit (EvMakedirs out_dir);;
  call (os_makedirs out_dir);;
  assemble_loop fuel model files out_dir {| seen := ∅; count := 0; attempts := 0 |}.

End Pipeline.
End Pipeline.

(** ** [circuit_assembler.py] *)

Module CircuitAssembler.
Section CircuitAssembler.
Context {F : Type} `{FloatOps F} {W : Type} `{!Collaborators W F}.

Record Args := {
  input_dir : string;
  output_dir : string;
  n_generations : Z;
  min_files : Z;
  max_files : Z;
  language : string
}.

(** [math.perm(n, k)] on arguments that are not negative: [n! / (n - k)!],
    and zero when [k > n]. *)
Definition math_perm (n k : Z) : Z :=
  if n <? k then 0
  else Z.of_nat (fact (Z.to_nat n)) / Z.of_nat (fact (Z.to_nat (n - k))).

(** Every supported interpreter has [math.perm]; the fallback of the source
    is the same quotient. *)
Definition permutation_count (n_items k_items : Z) : Z := math_perm n_items k_items.

Definition max_unique_combinations (n_files min_files max_files : Z) : Z :=
  zsum (map (permutation_count n_files) (range2 min_files (max_files + 1))).

(** The variables of [main]'s loop. *)
Record LoopState := {
  seen_combinations : gset (list string);
  generated_count : Z;
  failed_count : Z;
  attempts_without_progress : Z
}.

Definition logfile_path (args : Args) : string :=
  os_path_join (output_dir args) ["assembler.log"].

(** [logging.info], [logging.warning], [logging.error]. *)
Definition logging (args : Args) (m : log_msg F) : M F W unit :=
  emit (EvLog (logfile_path args) m).

(** One iteration of [main]'s [while]. *)
Definition loop_body (args : Args) (input_files : list string) (effective_max_files : Z)
    (s : LoopState) : M F W LoopState :=
  k ← randint (min_files args) effective_max_files;
  selected_files ← sample input_files k;
  let combo_key := selected_files in
  if bool_decide (combo_key ∈ seen_combinations s) then
    ret {| seen_combinations := seen_combinations s;
           generated_count := generated_count s;
           failed_count := failed_count s;
           attempts_without_progress := attempts_without_progress s + 1 |}
  else
    let seen' := {[combo_key]} ∪ seen_combinations s in
    let output_file :=
      os_path_join (output_dir args)
        ["assembled_circuit_" +:+ pretty (generated_count s) +:+ ".py"] in
    try_except
      (emit (EvAssemble selected_files output_file (generated_count s));;
       call (assemble selected_files output_file (generated_count s) (language args));;
       ret {| seen_combinations := seen';
              generated_count := generated_count s + 1;
              failed_count := failed_count s;
              attempts_without_progress := 0 |})
      (fun exc =>
         logging args (LogAssembleFailed selected_files exc);;
         ret {| seen_combinations := seen';
                generated_count := generated_count s;
                failed_count := failed_count s + 1;
                attempts_without_progress := attempts_without_progress s + 1 |}).

Definition loop_cond (target_generations max_attempts_without_progress : Z) (s : LoopState) : bool :=
  (generated_count s <? target_generations)
  && (attempts_without_progress s <? max_attempts_without_progress).

(** [main]'s [while]; [None] when the fuel runs out before the loop ends. *)
Fixpoint sampling_loop (fuel : nat) (args : Args) (input_files : list string)
    (effective_max_files target_generations max_attempts_without_progress : Z)
    (s : LoopState) : M F W (option LoopState) :=
  if loop_cond target_generations max_attempts_without_progress s then
    match fuel with
    | O => ret None
    | S fuel' =>
        s' ← loop_body args input_files effective_max_files s;
        sampling_loop fuel' args input_files effective_max_files target_generations
          max_attempts_without_progress s'
    end
  else ret (Some s).

Definition initial_loop_state : LoopState :=
  {| seen_combinations := ∅; generated_count := 0; failed_count := 0;
     attempts_without_progress := 0 |}.

(** The part of [main] that follows the listing of the input files: the
    exit status, or [None] when the fuel runs out inside the loop. *)
Definition main_with_files (fuel : nat) (args : Args) (input_files : list string)
    : M F W (option Z) :=
  let effective_max_files := Z.min (max_files args) (len input_files) in
  if len input_files <? min_files args then
    logging args (LogMinFilesTooLarge (min_files args) (len input_files));;
    emit (EvPrint (LogMinFilesTooLarge (min_files args) (len input_files)));;
    ret (Some 1)
  else
    let max_possible :=
      max_unique_combinations (len input_files) (min_files args) effective_max_files in
    let target_generations := Z.min (n_generations args) max_possible in
    (if target_generations <? n_generations args then
       logging args (LogCapping (n_generations args) max_possible target_generations)
     else ret tt);;
    logging args (LogFound (len input_files));;
    emit (EvPrint (LogFound (len input_files)));;
    let max_attempts_without_progress := Z.max 1000 (target_generations * 25) in
    r ← sampling_loop fuel args input_files effective_max_files target_generations
          max_attempts_without_progress initial_loop_state;
    match r with
    | None => ret None
    | Some s =>
        (if generated_count s <? target_generations then
           logging args (LogStoppedEarly (generated_count s))
         else ret tt);;
        logging args (LogComplete (generated_count s) (failed_count s) (n_generations args));;
        ret (Some (if 0 <? generated_count s then 0 else 1))
    end.

(** [main]. *)
Definition main (fuel : nat) (args : Args) : M F W (option Z) :=
  if n_generations args <? 1 then
    emit (EvPrint (LogError "--n-generations must be >= 1"));; ret (Some 1)
  else if min_files args <? 1 then
    emit (EvPrint (LogError "--min-files must be >= 1"));; ret (Some 1)
  else if max_files args <? min_files args then
    emit (EvPrint (LogError "--max-files must be >= --min-files"));; ret (Some 1)
  else
    emit (EvMakedirs (output_dir args));;
    call (os_makedirs (output_dir args));;
    logging args (LogAssemblerStart (input_dir args) (output_dir args)
                    (n_generations args) (language args));;
    input_files ← read (glob_py_sorted (input_dir args));
    if negb (bool_decide (input_files <> [])) then
      logging args (LogNoInputFiles (input_dir args));;
      emit (EvPrint (LogNoInputFiles (input_dir args)));;
      ret (Some 1)
    else main_with_files fuel args input_files.

End CircuitAssembler.
End CircuitAssembler.

(** ** A scripted world

    A world whose collaborators answer from scripts: the language model,
    the compiler and the runner each consume one scripted answer per call.
    It runs the embedding on concrete candidates. *)

Module Script.

Record World := {
  answers : list (option string * usage Q * option string);
  compile_errors : list (option string);
  run_errors : list string;
  missing_paths : list string;
  assemble_fails : bool;
  py_files : list string
}.

Definition no_usage : usage Q :=
  {| u_cost := None; u_prompt_tokens := None; u_completion_tokens := None;
     u_total_tokens := None; u_quality_score := None |}.

Definition some_usage : usage Q :=
  {| u_cost := Some (1 # 100)%Q; u_prompt_tokens := Some 10; u_completion_tokens := Some 20;
     u_total_tokens := Some 30; u_quality_score := None |}.

Definition scored (q : Q) : metrics Q := {| m_quality_score := Some q; m_fields := [] |}.

Definition ask (model prompt effort : string) (w : World)
    : result (option string * usage Q * option string) * World :=
  match answers w with
  | [] => (Ok (None, no_usage, Some "no answer"), w)
  | a :: rest =>
      (Ok a, {| answers := rest; compile_errors := compile_errors w; run_errors := run_errors w;
                missing_paths := missing_paths w; assemble_fails := assemble_fails w;
                py_files := py_files w |})
  end.

Definition compile (code lang : string) (w : World)
    : result (option string * metrics Q * string) * World :=
  match compile_errors w with
  | [] => (Ok (None, scored (8 # 10), code), w)
  | e :: rest =>
      (Ok (e, scored (8 # 10), code),
       {| answers := answers w; compile_errors := rest; run_errors := run_errors w;
          missing_paths := missing_paths w; assemble_fails := assemble_fails w;
          py_files := py_files w |})
  end.

Definition run (code lang : string) (w : World) : result (string * metrics Q * string) * World :=
  match run_errors w with
  | [] => (Ok ("", scored (5 # 10), code), w)
  | e :: rest =>
      (Ok (e, scored (5 # 10), code),
       {| answers := answers w; compile_errors := compile_errors w; run_errors := rest;
          missing_paths := missing_paths w; assemble_fails := assemble_fails w;
          py_files := py_files w |})
  end.

#[global] Instance collaborators : Collaborators World Q := {|
  os_path_exists := fun p w => negb (bool_decide (p ∈ missing_paths w));
  get_dynamic_prompt := fun path subs w =>
    (Ok (path +:+ ":" +:+ String.concat "|" (map snd subs)), w);
  ask_any_model := ask;
  compile_generated_program := compile;
  run_generated_program := run;
  save_text_to_file := fun _ _ w => (Ok tt, w);
  read_text := fun path w => (Ok ("contents of " +:+ path), w);
  write_text := fun _ _ w => (Ok tt, w);
  os_makedirs := fun _ w => (Ok tt, w);
  time_time := fun w => (0%Q, w);
  assemble := fun _ _ _ _ w =>
    if assemble_fails w then (Raised (Exception "incompatible circuits"), w) else (Ok tt, w);
  glob_py_sorted := fun _ w => py_files w
|}.

Definition args_for (n : Z) (threshold : Q) (improve : bool) : Config Q := {|
  language := "guppy"; prompt_dir := "/prompts"; n_programs := 3; n_fixing_cycles := 2;
  max_workers := 10; n_assemble := 100; n_circuits_per_assembly := 2; verbose := false;
  training_n := n; training_threshold := threshold; improver_model := "improver";
  reasoning_effort := "high"; improve_prompt := improve; compile_only := false
|}.

Definition args : Config Q := args_for 2 (1 # 2)%Q false.

Definition scripted (a : list (option string * usage Q * option string))
    (c : list (option string)) (r : list string) : World :=
  {| answers := a; compile_errors := c; run_errors := r; missing_paths := [];
     assemble_fails := false; py_files := [] |}.

Definition start (w : World) (cfg : Config Q) (t : nat -> nat) : State Q World :=
  {| world := w; config := cfg; random := {| tape := t; cursor := 0 |};
     trace := []; stats := new_stats; encountered_errors := [] |}.

Definition candidate : ProgramProcessor.Processor :=
  {| ProgramProcessor.index := 0; ProgramProcessor.model := "deepseek/deepseek-chat";
     ProgramProcessor.logger := "/run/execution.log" |}.

Definition code (s : string) : option string * usage Q * option string :=
  (Some s, some_usage, None).

(** Generation fails to compile, the first fix fails to compile, the second
    fix compiles and then fails to run. *)
Definition boundary_world : World :=
  scripted [code "c0"; code "c1"; code "c2"] [Some "E0"; Some "E1"; None] ["boom"].

(** Generation fails to compile and so does every fix. *)
Definition hopeless_world : World :=
  scripted [code "c0"; code "c1"; code "c2"] [Some "E0"; Some "E1"; Some "E2"] [].

(** Generation compiles at once. *)
Definition easy_world : World := scripted [code "c0"] [None] [""].

(** The language model gives nothing. *)
Definition silent_world : World := scripted [] [] [].

(** A world whose assembler always raises. *)
Definition failing_assembler : World :=
  {| answers := []; compile_errors := []; run_errors := []; missing_paths := [];
     assemble_fails := true; py_files := [] |}.

(** The stats of a candidate with the quality score [q]. *)
Definition stat (q : option Q) : GenerationStats Q := {|
  cost := 0%Q; prompt_tokens := 0; completion_tokens := 0; total_tokens := 0;
  quality_score := q; execution_quality_score := None;
  metrics_compilation := empty_metrics; metrics_execution := empty_metrics
|}.

Definition zero_tape : nat -> nat := fun _ => O.

(** What a computation returned, or [d] when it raised. *)
Definition value {A} (d : A) (r : result A) : A :=
  match r with Ok a => a | Raised _ => d end.

Definition no_outcome : ProgramProcessor.Outcome (F:=Q) := (None, new_stats, [], false).

(** The candidate, from a fresh processor, with compile-only mode [co]. *)
Definition initial (w : World) : State Q World := start w args zero_tape.

Definition run_candidate (w : World) (co : bool)
    : result (ProgramProcessor.Outcome (F:=Q)) * State Q World :=
  ProgramProcessor.process candidate "/run/generated" "/run/failed"
    "generation_prompt.txt" co (initial w).

(** The state in which the candidate's generation starts. *)
Definition configured (w : World) (co : bool) : State Q World :=
  with_config (initial w) (set_compile_only (config (initial w)) co).

Definition generated (w : World) (co : bool) : result (option string) * State Q World :=
  ProgramProcessor.generate candidate "generation_prompt.txt" (configured w co).

Definition compiled (w : World) (co : bool) : result (bool * string) * State Q World :=
  ProgramProcessor.compile_check candidate "c0" (generated w co).2.

Definition fixed (w : World) (co : bool) : result (option string) * State Q World :=
  ProgramProcessor.fix_loop candidate "c0" "E0" (compiled w co).2.

(** The search for a fix that compiles, after that first compile check. *)
Definition searched (w : World) (co : bool) : result (option string) * State Q World :=
  ProgramProcessor.fix_search candidate (range (n_fixing_cycles (config (compiled w co).2)))
    "c0" "E0" (compiled w co).2.

(** The execution check of the fix [code] that the search found. *)
Definition checked (w : World) (co : bool) (code : string)
    : result (bool * string) * State Q World :=
  ProgramProcessor.run_check candidate code (searched w co).2.

(** A training run on [n] candidates a round. *)
Definition training (n : Z) (threshold : Q) (improve : bool) : result string * State Q World :=
  Pipeline.run_training_phase "deepseek/deepseek-chat" "/run" "/src"
    (start silent_world (args_for n threshold improve) zero_tape).

Definition sampler_args : CircuitAssembler.Args := {|
  CircuitAssembler.input_dir := "/in"; CircuitAssembler.output_dir := "/out";
  CircuitAssembler.n_generations := 500; CircuitAssembler.min_files := 1;
  CircuitAssembler.max_files := 2; CircuitAssembler.language := "guppy"
|}.

Definition three_files : list string := ["a.py"; "b.py"; "c.py"].

(** A run of the sampler of [circuit_assembler.py] on three files. *)
Definition sampling : result (option Z) * State Q World :=
  CircuitAssembler.main_with_files 2000 sampler_args three_files (initial silent_world).


End Script.

(** * Properties *)

(** ** The monad and the trace *)

Inductive kind :=
| KLog | KPrint | KGen | KFix | KImprove | KCompile | KRun | KSave | KWrite | KMkdir
| KAssemble | KRound.

#[global] Instance kind_eq_dec : EqDecision kind.
Proof. solve_decision. Defined.

Definition kind_of {F} (e : event F) : kind :=
  match e with
  | EvLog _ _ => KLog
  | EvPrint _ => KPrint
  | EvGenerationRequest _ _ => KGen
  | EvFixingRequest _ _ _ => KFix
  | EvImprovementRequest _ _ => KImprove
  | EvCompileCheck _ => KCompile
  | EvRunCheck _ => KRun
  | EvSaveText _ _ => KSave
  | EvWriteFile _ _ => KWrite
  | EvMakedirs _ => KMkdir
  | EvAssemble _ _ _ => KAssemble
  | EvRound _ _ _ => KRound
  end.

(** The events of a trace are of the kinds [ks] only. *)
Definition only {F} (ks : list kind) (t : list (event F)) : Prop :=
  Forall (fun e => kind_of e ∈ ks) t.

Section MachineFacts.
Context {F : Type} `{FloatOps F} {W : Type} `{!Collaborators W F}.

Lemma bind_eq {A B} (m : M F W A) (k : A -> M F W B) (st : State F W) :
  (m ≫= k) st =
  match m st with
  | (Ok a, st') => k a st'
  | (Raised e, st') => (Raised e, st')
  end.
Proof. reflexivity. Qed.

Lemma bind_ok_inv {A B} (m : M F W A) (k : A -> M F W B) st b st' :
  (m ≫= k) st = (Ok b, st') ->
  exists a st1, m st = (Ok a, st1) /\ k a st1 = (Ok b, st').
Proof.
  rewrite bind_eq. destruct (m st) as [[a|e] st1]; [eauto | discriminate].
Qed.

(** [m] leaves the namespace alone and adds only events of the kinds [ks]
    to the trace. *)
Definition footprint {A} (ks : list kind) (m : M F W A) : Prop :=
  forall st r st', m st = (r, st') ->
    config st' = config st /\ exists t, trace st' = trace st ++ t /\ only ks t.

Lemma only_nil ks : only (F:=F) ks [].
Proof. constructor. Qed.

Lemma only_app ks (t1 t2 : list (event F)) : only ks t1 -> only ks t2 -> only ks (t1 ++ t2).
Proof. unfold only. rewrite Forall_app. auto. Qed.

Lemma only_mono ks ks' (t : list (event F)) : ks ⊆ ks' -> only ks t -> only ks' t.
Proof.
  intros Hs Ho. unfold only in *. eapply Forall_impl; [exact Ho|].
  intros e He. apply Hs, He.
Qed.

Lemma footprint_mono {A} ks ks' (m : M F W A) : ks ⊆ ks' -> footprint ks m -> footprint ks' m.
Proof.
  intros Hs Hm st r st' E. destruct (Hm _ _ _ E) as (Hc & t & Ht & Ho).
  split; [done|]. exists t. split; [done|]. eapply only_mono; eauto.
Qed.

Lemma footprint_ret {A} ks (a : A) : footprint ks (ret a : M F W A).
Proof.
  intros st r st' E. inversion E; subst. split; [done|].
  exists []. rewrite app_nil_r. split; [done | apply only_nil].
Qed.

Lemma footprint_raise {A} ks e : footprint ks (raise e : M F W A).
Proof.
  intros st r st' E. inversion E; subst. split; [done|].
  exists []. rewrite app_nil_r. split; [done | apply only_nil].
Qed.

Lemma footprint_bind {A B} ks (m : M F W A) (k : A -> M F W B) :
  footprint ks m -> (forall a, footprint ks (k a)) -> footprint ks (m ≫= k).
Proof.
  intros Hm Hk st r st' E. rewrite bind_eq in E.
  destruct (m st) as [[a|e] st1] eqn:Em.
  - destruct (Hm _ _ _ Em) as (Hc1 & t1 & Ht1 & Ho1).
    destruct (Hk a _ _ _ E) as (Hc2 & t2 & Ht2 & Ho2).
    split; [congruence|]. exists (t1 ++ t2).
    rewrite Ht2, Ht1, app_assoc. split; [done | by apply only_app].
  - inversion E; subst. eauto.
Qed.

Lemma footprint_try_except {A} ks (m : M F W A) (h : string -> M F W A) :
  footprint ks m -> (forall e, footprint ks (h e)) -> footprint ks (try_except m h).
Proof.
  intros Hm Hh st r st' E. unfold try_except in E.
  destruct (m st) as [[a|[msg|c]] st1] eqn:Em.
  - inversion E; subst. eauto.
  - destruct (Hm _ _ _ Em) as (Hc1 & t1 & Ht1 & Ho1).
    destruct (Hh msg _ _ _ E) as (Hc2 & t2 & Ht2 & Ho2).
    split; [congruence|]. exists (t1 ++ t2).
    rewrite Ht2, Ht1, app_assoc. split; [done | by apply only_app].
  - inversion E; subst. eauto.
Qed.

Lemma footprint_call {A} ks (c : W -> result A * W) : footprint ks (call c).
Proof.
  intros st r st' E. unfold call in E. destruct (c (world st)) as [r0 w].
  inversion E; subst. split; [done|].
  exists []. rewrite app_nil_r. split; [done | apply only_nil].
Qed.

Lemma footprint_read {A} ks (c : W -> A) : footprint ks (read c).
Proof.
  intros st r st' E. inversion E; subst. split; [done|].
  exists []. rewrite app_nil_r. split; [done | apply only_nil].
Qed.

Lemma footprint_emit ks (e : event F) : kind_of e ∈ ks -> footprint ks (emit e).
Proof.
  intros He st r st' E. inversion E; subst. split; [done|].
  exists [e]. split; [done|]. by constructor.
Qed.

Lemma footprint_log ks l (m : log_msg F) : KLog ∈ ks -> footprint ks (log l m).
Proof.
  intros He. unfold log. destruct (truthy l).
  - by apply footprint_emit.
  - apply footprint_ret.
Qed.

Lemma footprint_get_config ks : footprint ks (get_config (W:=W)).
Proof.
  intros st r st' E. inversion E; subst. split; [done|].
  exists []. rewrite app_nil_r. split; [done | apply only_nil].
Qed.

Lemma footprint_get_stats ks : footprint ks (get_stats (W:=W)).
Proof.
  intros st r st' E. inversion E; subst. split; [done|].
  exists []. rewrite app_nil_r. split; [done | apply only_nil].
Qed.

Lemma footprint_put_stats ks s : footprint ks (put_stats (W:=W) s).
Proof.
  intros st r st' E. inversion E; subst. split; [done|].
  exists []. rewrite app_nil_r. split; [done | apply only_nil].
Qed.

Lemma footprint_get_errors ks : footprint ks (get_errors (W:=W) (F:=F)).
Proof.
  intros st r st' E. inversion E; subst. split; [done|].
  exists []. rewrite app_nil_r. split; [done | apply only_nil].
Qed.

Lemma footprint_append_error ks e : footprint ks (append_error (W:=W) (F:=F) e).
Proof.
  intros st r st' E. inversion E; subst. split; [done|].
  exists []. rewrite app_nil_r. split; [done | apply only_nil].
Qed.

Lemma footprint_randbelow ks n : footprint ks (randbelow (W:=W) (F:=F) n).
Proof.
  intros st r st' E. inversion E; subst. split; [done|].
  exists []. rewrite app_nil_r. split; [done | apply only_nil].
Qed.

End MachineFacts.

(** Membership of a kind in a list of kinds that is written out, and
    inclusion of one such list in another. *)
Ltac kind_in :=
  solve [repeat first [apply list_elem_of_here | apply list_elem_of_further]].

Ltac kinds_incl :=
  let k := fresh "k" in
  let Hk := fresh "Hk" in
  intros k Hk;
  repeat (apply elem_of_cons in Hk as [->|Hk]; [kind_in|]);
  apply elem_of_nil in Hk; destruct Hk.

(** One step of a footprint proof: split a bind, close a primitive, or take
    a conditional apart. *)
Ltac footprint_step :=
  match goal with
  | |- footprint _ (_ ≫= _) => apply footprint_bind; [| intros ?]
  | |- footprint _ (ret _) => apply footprint_ret
  | |- footprint _ (mret _) => apply footprint_ret
  | |- footprint _ (raise _) => apply footprint_raise
  | |- footprint _ (call _) => apply footprint_call
  | |- footprint _ (read _) => apply footprint_read
  | |- footprint _ (emit _) => apply footprint_emit; kind_in
  | |- footprint _ (log _ _) => apply footprint_log; kind_in
  | |- footprint _ get_config => apply footprint_get_config
  | |- footprint _ get_stats => apply footprint_get_stats
  | |- footprint _ (put_stats _) => apply footprint_put_stats
  | |- footprint _ get_errors => apply footprint_get_errors
  | |- footprint _ (append_error _) => apply footprint_append_error
  | |- footprint _ (randbelow _) => apply footprint_randbelow
  | |- footprint _ (try_except _ _) => apply footprint_try_except; [| intros ?]
  | |- footprint _ (if ?b then _ else _) => destruct b
  | |- footprint _ (match ?x with _ => _ end) => destruct x
  | |- footprint _ (let '_ := ?x in _) => destruct x
  end.

Section ProcessorFacts.
Context {F : Type} `{FloatOps F} {W : Type} `{!Collaborators W F}.
Import ProgramProcessor.

Lemma generate_footprint self p : footprint [KLog; KGen] (generate self p).
Proof. unfold generate. repeat footprint_step. Qed.

Lemma compile_check_footprint self code : footprint [KLog; KCompile] (compile_check self code).
Proof. unfold compile_check. repeat footprint_step. Qed.

Lemma run_check_footprint self code : footprint [KLog; KRun] (run_check self code).
Proof. unfold run_check. repeat footprint_step. Qed.

End ProcessorFacts.

Section ProcessorRuns.
Context {F : Type} `{FloatOps F} {W : Type} `{!Collaborators W F}.
Import ProgramProcessor.

Lemma fix_cycles_footprint self cycles code err :
  footprint [KLog; KFix; KCompile; KRun] (fix_cycles self cycles code err).
Proof.
  revert code err. induction cycles as [|cycle rest IH]; intros code err; simpl.
  - apply footprint_ret.
  - repeat first
      [ apply IH
      | footprint_step
      | (eapply footprint_mono; [| apply compile_check_footprint]; kinds_incl)
      | (eapply footprint_mono; [| apply run_check_footprint]; kinds_incl) ].
Qed.

Lemma fix_loop_footprint self code err :
  footprint [KLog; KFix; KCompile; KRun] (fix_loop self code err).
Proof.
  unfold fix_loop. apply footprint_bind; [apply footprint_get_config | intros cfg].
  apply fix_cycles_footprint.
Qed.

(** What [process] does once the code is generated and its first compile
    check has passed. *)
Lemma process_compiled self g f p co st code st1 e st2 :
  generate self p (with_config st (set_compile_only (config st) co)) = (Ok code, st1) ->
  truthy_opt code = true ->
  compile_check self (the code) st1 = (Ok (true, e), st2) ->
  process self g f p co st =
  ((if negb co then run_check self (the code);; ret tt else ret tt);;
   emit (EvSaveText (the code) (os_path_join g [filename self]));;
   call (save_text_to_file (the code) (os_path_join g [filename self]));;
   s ← get_stats;
   errs ← get_errors;
   ret (Some (os_path_join g [filename self]), s, list_set errs, false)) st2.
Proof.
  intros Hg Ht Hc. unfold process.
  rewrite bind_eq. cbn [get_config].
  rewrite bind_eq. cbn [put_config].
  rewrite bind_eq, Hg, Ht. cbn [negb].
  rewrite bind_eq, Hc. reflexivity.
Qed.

(** What [process] does once the code is generated and its first compile
    check has failed. *)
Lemma process_not_compiled self g f p co st code st1 err st2 :
  generate self p (with_config st (set_compile_only (config st) co)) = (Ok code, st1) ->
  truthy_opt code = true ->
  compile_check self (the code) st1 = (Ok (false, err), st2) ->
  process self g f p co st =
  (fixed_code ← fix_loop self (the code) err;
   if truthy_opt fixed_code then
     emit (EvSaveText (the fixed_code) (os_path_join g [filename self]));;
     call (save_text_to_file (the fixed_code) (os_path_join g [filename self]));;
     s ← get_stats;
     errs ← get_errors;
     ret (Some (os_path_join g [filename self]), s, list_set errs, true)
   else
     emit (EvSaveText (the code) (os_path_join f [filename self]));;
     call (save_text_to_file (the code) (os_path_join f [filename self]));;
     s ← get_stats;
     errs ← get_errors;
     ret (None, s, list_set errs, true)) st2.
Proof.
  intros Hg Ht Hc. unfold process.
  rewrite bind_eq. cbn [get_config].
  rewrite bind_eq. cbn [put_config].
  rewrite bind_eq, Hg, Ht. cbn [negb].
  rewrite bind_eq, Hc. reflexivity.
Qed.

(** What [process] does when generation gives no code. *)
Lemma process_no_code self g f p co st code st1 :
  generate self p (with_config st (set_compile_only (config st) co)) = (Ok code, st1) ->
  truthy_opt code = false ->
  process self g f p co st = (Ok (None, stats st1, encountered_errors st1, false), st1).
Proof.
  intros Hg Ht. unfold process.
  rewrite bind_eq. cbn [get_config].
  rewrite bind_eq. cbn [put_config].
  rewrite bind_eq, Hg, Ht. reflexivity.
Qed.

(** Saving: one [EvSaveText], then the outcome. *)
Lemma save_and_return text path (res : option string) (was_fixed : bool)
    (st st' : State F W) o :
  (emit (EvSaveText text path);;
   call (save_text_to_file text path);;
   s ← get_stats;
   errs ← get_errors;
   ret (res, s, list_set errs, was_fixed)) st = (Ok o, st') ->
  o = (res, stats st', list_set (encountered_errors st'), was_fixed) /\
  config st' = config st /\
  trace st' = trace st ++ [EvSaveText text path].
Proof.
  intros E. rewrite bind_eq in E. cbn [emit] in E.
  rewrite bind_eq in E. unfold call in E. cbn [world with_trace] in E.
  destruct (save_text_to_file text path (world st)) as [[[]|e] w]; [|discriminate].
  inversion E; subst. auto.
Qed.


Lemma run_check_trace self code (st st' : State F W) res :
  run_check self code st = (Ok res, st') ->
  config st' = config st /\
  exists t, trace st' = trace st ++ t /\ only [KLog; KRun] t /\ EvRunCheck code ∈ t.
Proof.
  intros E. split; [eapply run_check_footprint; eauto|].
  unfold run_check in E.
  apply bind_ok_inv in E as (? & st1 & E1 & E).
  apply bind_ok_inv in E as (cfg & st2 & E2 & E).
  apply bind_ok_inv in E as (? & st3 & E3 & E).
  assert (Hk : footprint (F:=F) (W:=W) [KLog; KRun] (log (logger self) (LogRunning (filename self))))
    by repeat footprint_step.
  destruct (Hk _ _ _ E1) as (_ & t1 & Ht1 & Ho1).
  inversion E2; subst cfg st2. inversion E3; subst st3. clear E2 E3.
  match type of E with ?k _ = _ =>
    assert (Hrest : footprint [KLog; KRun] k) by repeat footprint_step end.
  destruct (Hrest _ _ _ E) as (_ & t2 & Ht2 & Ho2).
  exists (t1 ++ [EvRunCheck code] ++ t2). cbn [trace with_trace] in Ht2.
  rewrite Ht2, Ht1, <- !app_assoc. split; [done|]. split.
  - apply only_app; [done|]. apply only_app; [|done]. constructor; [kind_in | constructor].
  - rewrite !elem_of_app, list_elem_of_singleton. auto.
Qed.

(** A fix loop that returns code has seen that code compile; and, when
    compile-only mode is off, its last step was the execution check of
    that code. *)
Lemma fix_cycles_some self cycles code err (st st' : State F W) fixed :
  fix_cycles self cycles code err st = (Ok (Some fixed), st') ->
  truthy fixed = true /\
  (exists st_c e st_c', compile_check self fixed st_c = (Ok (true, e), st_c')) /\
  (compile_only (config st) = false ->
   exists st_r res, run_check self fixed st_r = (Ok res, st') /\
     exists t, trace st_r = trace st ++ t /\ only [KLog; KFix; KCompile; KRun] t).
Proof.
  revert code err st. induction cycles as [|cycle rest IH]; intros code err st E;
    cbn [fix_cycles] in E.
  - inversion E.
  - apply bind_ok_inv in E as (cfg & st1 & E1 & E). inversion E1; subst cfg st1; clear E1.
    apply bind_ok_inv in E as (found & st2 & E2 & E). inversion E2; subst found st2; clear E2.
    destruct (os_path_exists _ _); cbn [negb] in E.
    2:{ apply bind_ok_inv in E as (? & ? & _ & E). inversion E. }
    apply bind_ok_inv in E as (prompt & st3 & E3 & E).
    apply bind_ok_inv in E as (? & st4 & E4 & E).
    apply bind_ok_inv in E as ([[fc u] er] & st5 & E5 & E).
    destruct (truthy_opt fc) eqn:Hfc; cbn [negb] in E.
    2:{ apply bind_ok_inv in E as (? & ? & _ & E). inversion E. }
    apply bind_ok_inv in E as (s & st6 & E6 & E).
    apply bind_ok_inv in E as (? & st7 & E7 & E).
    apply bind_ok_inv in E as (? & st8 & E8 & E).
    apply bind_ok_inv in E as ([ok cerr] & st9 & E9 & E).
    assert (Hpre : config st9 = config st /\
                   exists t, trace st9 = trace st ++ t /\ only [KLog; KFix; KCompile; KRun] t).
    { assert (Hk : footprint (F:=F) (W:=W) [KLog; KFix; KCompile; KRun]
                (prompt ← call (get_dynamic_prompt
                    (os_path_join (prompt_dir (config st)) ["fixing_prompt_template.txt"])
                    [("faulty_code", code); ("error_message", err)]);
                 emit (EvFixingRequest (cycle + 1) (model self) prompt);;
                 r ← call (ask_any_model (model self) prompt (reasoning_effort (config st)));
                 s ← get_stats;
                 put_stats (update s r.1.2);;
                 log (logger self) (LogFixingCost (filename self) (cycle + 1) r.1.2);;
                 compile_check self (the r.1.1))).
      { repeat first [ footprint_step
                     | (eapply footprint_mono; [| apply compile_check_footprint]; kinds_incl) ]. }
      eapply (Hk st (Ok (ok, cerr))).
      rewrite bind_eq, E3, bind_eq, E4, bind_eq, E5. cbn [fst snd].
      rewrite bind_eq, E6, bind_eq, E7, bind_eq, E8. exact E9. }
    destruct Hpre as (Hcfg & t0 & Ht0 & Ho0).
    destruct ok; cbn [negb] in E.
    + apply bind_ok_inv in E as (? & st10 & E10 & E).
      apply bind_ok_inv in E as (cfg' & st11 & E11 & E). inversion E11; subst cfg' st11; clear E11.
      rename st10 into st11.
      assert (Hlog : config st11 = config st9 /\ exists t, trace st11 = trace st9 ++ t /\
                       only [KLog; KFix; KCompile; KRun] t).
      { assert (Hk : footprint (F:=F) (W:=W) [KLog; KFix; KCompile; KRun]
                  (log (logger self) (LogFixedCompiled (filename self) (cycle + 1))))
          by repeat footprint_step.
        eapply Hk; eauto. }
      destruct Hlog as (Hcfg' & t1 & Ht1 & Ho1).
      assert (Hfixed : fixed = the fc /\
                (compile_only (config st11) = false ->
                 exists res, run_check self (the fc) st11 = (Ok res, st'))).
      { destruct (compile_only (config st11)); cbn [negb] in E.
        - inversion E; subst. split; [done | discriminate].
        - apply bind_ok_inv in E as ([run_ok run_err] & st12 & E12 & E).
          destruct run_ok; inversion E; subst; eauto. }
      destruct Hfixed as [-> Hrun].
      split; [destruct fc as [[|]|]; done|]. split; [eauto|].
      intros Hco. destruct Hrun as [res Hres]; [congruence|].
      exists st11, res. split; [done|]. exists (t0 ++ t1).
      rewrite Ht1, Ht0, app_assoc. split; [done | by apply only_app].
    + apply bind_ok_inv in E as (? & st10 & E10 & E).
      assert (Hlog : config st10 = config st9 /\ exists t, trace st10 = trace st9 ++ t /\
                       only [KLog; KFix; KCompile; KRun] t).
      { assert (Hk : footprint (F:=F) (W:=W) [KLog; KFix; KCompile; KRun]
                  (log (logger self) (LogFixedCompilationFailed (filename self) (cycle + 1))))
          by repeat footprint_step.
        eapply Hk; eauto. }
      destruct Hlog as (Hcfg' & t1 & Ht1 & Ho1).
      destruct (IH _ _ _ E) as (Htr & Hc & Hr).
      split; [done|]. split; [done|].
      intros Hco. destruct Hr as (st_r & res & Hres & t2 & Ht2 & Ho2); [congruence|].
      exists st_r, res. split; [done|]. exists (t0 ++ t1 ++ t2).
      rewrite Ht2, Ht1, Ht0, <- !app_assoc. split; [done|].
      apply only_app; [done|]. by apply only_app.
Qed.

Lemma fix_attempt_footprint self cycle code err :
  footprint [KLog; KFix; KCompile] (fix_attempt self cycle code err).
Proof.
  unfold fix_attempt.
  repeat first
    [ footprint_step
    | (eapply footprint_mono; [| apply compile_check_footprint]; kinds_incl) ].
Qed.

Lemma fix_search_footprint self cycles code err :
  footprint [KLog; KFix; KCompile] (fix_search self cycles code err).
Proof.
  revert code err. induction cycles as [|cycle rest IH]; intros code err; cbn [fix_search].
  - apply footprint_ret.
  - apply footprint_bind; [apply fix_attempt_footprint|].
    intros [[[fc ok] cerr]|]; [|apply footprint_ret].
    destruct ok; cbn [negb]; [apply footprint_ret | apply IH].
Qed.

(** The code a search returns is the last answer of the fixer, which was
    not empty. *)
Lemma fix_search_truthy self cycles code err (st st' : State F W) fixed :
  fix_search self cycles code err st = (Ok (Some fixed), st') -> truthy fixed = true.
Proof.
  revert code err st. induction cycles as [|cycle rest IH]; intros code err st E;
    cbn [fix_search] in E; [inversion E|].
  apply bind_ok_inv in E as ([[[fc ok] cerr]|] & st1 & E1 & E); [|inversion E].
  destruct ok; cbn [negb] in E; [|by eapply IH].
  inversion E; subst fc st1; clear E.
  unfold fix_attempt in E1.
  apply bind_ok_inv in E1 as (cfg & ? & _ & E1).
  apply bind_ok_inv in E1 as (found & ? & _ & E1).
  destruct (negb found).
  { apply bind_ok_inv in E1 as (? & ? & _ & E1). inversion E1. }
  apply bind_ok_inv in E1 as (prompt & ? & _ & E1).
  apply bind_ok_inv in E1 as (? & ? & _ & E1).
  apply bind_ok_inv in E1 as ([[fc u] er] & ? & _ & E1).
  destruct (truthy_opt fc) eqn:Hfc; cbn [negb] in E1.
  2:{ apply bind_ok_inv in E1 as (? & ? & _ & E1). inversion E1. }
  apply bind_ok_inv in E1 as (? & ? & _ & E1).
  apply bind_ok_inv in E1 as (? & ? & _ & E1).
  apply bind_ok_inv in E1 as (? & ? & _ & E1).
  apply bind_ok_inv in E1 as ([ok cerr'] & ? & _ & E1).
  apply bind_ok_inv in E1 as (? & ? & _ & E1).
  inversion E1; subst. by destruct fc as [[|]|].
Qed.

(** [fix_loop]'s loop is the search for a fix that compiles, followed, in
    full mode, by the execution check of the fix found; the code found is
    returned in both branches of that check. *)
Lemma fix_cycles_search self cycles code err (st : State F W) :
  fix_cycles self cycles code err st =
  (fixed ← fix_search self cycles code err;
   match fixed with
   | None => ret None
   | Some fixed_code =>
       cfg ← get_config;
       if negb (compile_only cfg) then
         '(run_ok, run_err) ← run_check self fixed_code;
         if (run_ok : bool) then ret (Some fixed_code) else ret (Some fixed_code)
       else ret (Some fixed_code)
   end) st.
Proof.
  revert code err st. induction cycles as [|cycle rest IH]; intros code err st;
    cbn [fix_cycles fix_search]; [reflexivity|].
  unfold fix_attempt.
  rewrite !bind_eq. cbn [get_config]. rewrite !bind_eq. cbn [read].
  destruct (negb (os_path_exists _ (world st))).
  { rewrite !bind_eq.
    destruct (log (logger self) _ st) as [[[]|e] st1]; reflexivity. }
  rewrite !bind_eq. destruct (call (get_dynamic_prompt _ _) st) as [[prompt|e] st1]; [|reflexivity].
  rewrite !bind_eq. cbn [emit]. rewrite !bind_eq.
  destruct (call (ask_any_model _ _ _) _) as [[[[fc u] er]|e] st2]; [|reflexivity].
  destruct (negb (truthy_opt fc)).
  { rewrite !bind_eq.
    destruct (log (logger self) _ st2) as [[[]|e] st3]; reflexivity. }
  rewrite !bind_eq. cbn [get_stats]. rewrite !bind_eq. cbn [put_stats]. rewrite !bind_eq.
  destruct (log (logger self) _ _) as [[[]|e] st3]; [|reflexivity].
  rewrite !bind_eq.
  destruct (compile_check self (the fc) st3) as [[[ok cerr]|e] st4]; [|reflexivity].
  destruct ok; cbn [negb]; rewrite !bind_eq;
    (destruct (log (logger self) _ st4) as [[[]|e] st5]; [|reflexivity]).
  - reflexivity.
  - apply IH.
Qed.

End ProcessorRuns.

(** ** The candidate state machine *)

Lemma list_set_NoDup (l : list string) : NoDup (list_set l).
Proof. unfold list_set. apply NoDup_elements. Qed.

Section CandidateClaims.
Context {F : Type} `{FloatOps F} {W : Type} `{!Collaborators W F}.
Import ProgramProcessor.

(** C6. A candidate whose first compile check succeeds issues no fixing
    request: its trace holds the generation request, the compile check, in
    full mode the execution check, log lines, and then the one save of the
    generated code to the generated location; [was_fixed] is false. *)
Theorem first_compile_success_skips_fixer
    self g f p co (st st1 st2 st' : State F W) code e o :
  generate self p (with_config st (set_compile_only (config st) co)) = (Ok code, st1) ->
  truthy_opt code = true ->
  compile_check self (the code) st1 = (Ok (true, e), st2) ->
  process self g f p co st = (Ok o, st') ->
  o = (Some (os_path_join g [filename self]), stats st',
       list_set (encountered_errors st'), false) /\
  exists t,
    trace st' = trace st ++ t ++ [EvSaveText (the code) (os_path_join g [filename self])] /\
    only [KLog; KGen; KCompile; KRun] t.
Proof.
  intros Hg Ht Hc E.
  rewrite (process_compiled _ _ _ _ _ _ _ _ _ _ Hg Ht Hc) in E.
  apply bind_ok_inv in E as (? & st3 & E3 & E).
  apply save_and_return in E as (-> & _ & Htr). split; [done|].
  destruct (generate_footprint _ _ _ _ _ Hg) as (_ & tg & Htg & Hog).
  destruct (compile_check_footprint _ _ _ _ _ Hc) as (_ & tc & Htc & Hoc).
  assert (Hrun : exists tr, trace st3 = trace st2 ++ tr /\ only [KLog; KRun] tr).
  { assert (Hk : footprint (F:=F) (W:=W) [KLog; KRun]
              (if negb co then run_check self (the code);; ret tt else ret tt)).
    { repeat first [ footprint_step | apply run_check_footprint ]. }
    eapply Hk; eauto. }
  destruct Hrun as (tr & Htr3 & Hor).
  exists (tg ++ tc ++ tr). cbn [trace with_config] in Htg.
  rewrite Htr, Htr3, Htc, Htg, <- !app_assoc. split; [done|].
  apply only_app; [eapply only_mono; [|exact Hog]; kinds_incl|].
  apply only_app; [eapply only_mono; [|exact Hoc]; kinds_incl|].
  eapply only_mono; [|exact Hor]; kinds_incl.
Qed.

(** C1. In full mode, take a candidate whose first compile check fails and
    whose fix loop finds, within its cycles, code [fixed] that compiles
    ([fix_search]). The execution check of [fixed] is then made, and
    whatever it returns, [run_ok] true or false, [process] returns the
    generated location as saved path with [was_fixed] true, once [fixed] is
    written there. After the search, the trace holds the execution check
    of [fixed], log lines and that one save: no fixing request follows an
    execution failure. *)
Theorem execution_failure_keeps_fixed_code
    self g f p (st st1 st2 st3 st4 : State F W) code err fixed
    (run_ok : bool) (run_err : string) w5 :
  generate self p (with_config st (set_compile_only (config st) false)) = (Ok code, st1) ->
  truthy_opt code = true ->
  compile_check self (the code) st1 = (Ok (false, err), st2) ->
  fix_search self (range (n_fixing_cycles (config st2))) (the code) err st2
    = (Ok (Some fixed), st3) ->
  run_check self fixed st3 = (Ok (run_ok, run_err), st4) ->
  save_text_to_file fixed (os_path_join g [filename self]) (world st4) = (Ok tt, w5) ->
  process self g f p false st =
    (Ok (Some (os_path_join g [filename self]), stats st4,
         list_set (encountered_errors st4), true),
     with_world
       (with_trace st4 (trace st4 ++ [EvSaveText fixed (os_path_join g [filename self])])) w5) /\
  exists t_r,
    trace st4 = trace st3 ++ t_r /\ EvRunCheck fixed ∈ t_r /\ only [KLog; KRun] t_r.
Proof.
  intros Hg Ht Hc Hs Hr Hw.
  assert (Hcfg : compile_only (config st3) = false).
  { destruct (generate_footprint _ _ _ _ _ Hg) as (Hc1 & _).
    destruct (compile_check_footprint _ _ _ _ _ Hc) as (Hc2 & _).
    destruct (fix_search_footprint _ _ _ _ _ _ _ Hs) as (Hc3 & _).
    rewrite Hc3, Hc2, Hc1. reflexivity. }
  split.
  - rewrite (process_not_compiled _ _ _ _ _ _ _ _ _ _ Hg Ht Hc).
    rewrite bind_eq. unfold fix_loop at 1. rewrite bind_eq. cbn [get_config].
    rewrite fix_cycles_search, bind_eq, Hs, bind_eq. cbn [get_config].
    rewrite Hcfg. cbn [negb]. rewrite bind_eq, Hr.
    assert (Hret : (if run_ok then ret (Some fixed) else ret (Some fixed)) st4
                   = (Ok (Some fixed), st4)) by (destruct run_ok; reflexivity).
    rewrite Hret. cbn [truthy_opt the].
    rewrite (fix_search_truthy _ _ _ _ _ _ _ Hs).
    rewrite bind_eq. cbn [emit]. rewrite bind_eq. unfold call.
    cbn [world with_trace]. rewrite Hw. reflexivity.
  - destruct (run_check_trace _ _ _ _ _ Hr) as (_ & t_r & Htr & Hor & Hin).
    exists t_r. auto.
Qed.

(** C7. A candidate whose first compile check fails and whose fix loop
    returns nothing yields no saved path, has [was_fixed] true, and the one
    text saved is the code as generated, in the failed location. *)
Theorem failed_fix_saves_original_code
    self g f p co (st st1 st2 st3 st' : State F W) code err o :
  generate self p (with_config st (set_compile_only (config st) co)) = (Ok code, st1) ->
  truthy_opt code = true ->
  compile_check self (the code) st1 = (Ok (false, err), st2) ->
  fix_loop self (the code) err st2 = (Ok None, st3) ->
  process self g f p co st = (Ok o, st') ->
  o = (None, stats st', list_set (encountered_errors st'), true) /\
  exists t,
    trace st' = trace st ++ t ++ [EvSaveText (the code) (os_path_join f [filename self])] /\
    only [KLog; KGen; KFix; KCompile; KRun] t.
Proof.
  intros Hg Ht Hc Hf E.
  rewrite (process_not_compiled _ _ _ _ _ _ _ _ _ _ Hg Ht Hc) in E.
  rewrite bind_eq, Hf in E. cbn [truthy_opt] in E.
  apply save_and_return in E as (-> & _ & Htr). split; [done|].
  destruct (generate_footprint _ _ _ _ _ Hg) as (_ & tg & Htg & Hog).
  destruct (compile_check_footprint _ _ _ _ _ Hc) as (_ & tc & Htc & Hoc).
  destruct (fix_loop_footprint _ _ _ _ _ _ Hf) as (_ & tf & Htf & Hof).
  exists (tg ++ tc ++ tf). cbn [trace with_config] in Htg.
  rewrite Htr, Htf, Htc, Htg, <- !app_assoc. split; [done|].
  apply only_app; [eapply only_mono; [|exact Hog]; kinds_incl|].
  apply only_app; [eapply only_mono; [|exact Hoc]; kinds_incl|].
  eapply only_mono; [|exact Hof]; kinds_incl.
Qed.


(** A fix loop returns nothing unless some fixed code compiled: running
    out of cycles and a fixer that gives no code both end in [None]. *)
Corollary fix_loop_none_without_compile self code err (st st' : State F W) r :
  fix_loop self code err st = (Ok r, st') ->
  (forall fixed st_c e st_c', compile_check self fixed st_c <> (Ok (true, e), st_c')) ->
  r = None.
Proof.
  intros E Hno. destruct r as [fixed|]; [|done].
  unfold fix_loop in E. apply bind_ok_inv in E as (cfg & st1 & _ & E).
  destruct (fix_cycles_some _ _ _ _ _ _ _ E) as (_ & (st_c & e & st_c' & Hc) & _).
  destruct (Hno _ _ _ _ Hc).
Qed.

Lemma fix_cycles_exhausted self code err (st : State F W) :
  fix_cycles self [] code err st = (Ok None, st).
Proof. reflexivity. Qed.

Lemma fixer_failure_aborts self cycle rest code err (st : State F W) prompt w1 fc u er w2 :
  os_path_exists (os_path_join (prompt_dir (config st)) ["fixing_prompt_template.txt"])
    (world st) = true ->
  get_dynamic_prompt (os_path_join (prompt_dir (config st)) ["fixing_prompt_template.txt"])
    [("faulty_code", code); ("error_message", err)] (world st) = (Ok prompt, w1) ->
  ask_any_model (model self) prompt (reasoning_effort (config st)) w1 = (Ok (fc, u, er), w2) ->
  truthy_opt fc = false ->
  exists st', fix_cycles self (cycle :: rest) code err st = (Ok None, st').
Proof.
  intros Hex Hp Ha Hfc. cbn [fix_cycles].
  rewrite bind_eq. cbn [get_config]. rewrite bind_eq. cbn [read]. rewrite Hex. cbn [negb].
  rewrite bind_eq. unfold call at 1. rewrite Hp.
  rewrite bind_eq. cbn [emit]. rewrite bind_eq. unfold call at 1.
  cbn [world with_world with_trace]. rewrite Ha, Hfc. cbn [negb].
  rewrite bind_eq. unfold log. destruct (truthy (logger self)); cbn; eauto.
Qed.

(** Generation that gives no code records at most one error. *)
Lemma generate_no_code_errors self p (st st1 : State F W) code :
  generate self p st = (Ok code, st1) ->
  truthy_opt code = false ->
  encountered_errors st1 = encountered_errors st \/
  exists e, encountered_errors st1 = encountered_errors st ++ [e].
Proof.
  intros E Hc. unfold generate in E.
  apply bind_ok_inv in E as (cfg & st0 & E0 & E). inversion E0; subst cfg st0; clear E0.
  apply bind_ok_inv in E as (found & st0 & E0 & E). inversion E0; subst found st0; clear E0.
  destruct (os_path_exists _ _); cbn [negb] in E.
  - apply bind_ok_inv in E as (prompt & st2 & E2 & E).
    apply bind_ok_inv in E as (? & st3 & E3 & E).
    apply bind_ok_inv in E as ([[c u] er] & st4 & E4 & E).
    assert (Hsame : encountered_errors st4 = encountered_errors st).
    { unfold call in E2, E4. destruct (get_dynamic_prompt _ _ _) as [? ?].
      inversion E2; subst. inversion E3; subst.
      cbn [world with_world with_trace] in E4.
      destruct (ask_any_model _ _ _ _) as [? ?]. inversion E4; subst. reflexivity. }
    destruct c as [c|].
    + apply bind_ok_inv in E as (s & st5 & E5 & E). inversion E5; subst s st5; clear E5.
      apply bind_ok_inv in E as (? & st5 & E5 & E). inversion E5; subst st5; clear E5.
      apply bind_ok_inv in E as (? & st5 & E5 & E).
      inversion E; subst. left. rewrite <- Hsame.
      unfold log in E5. destruct (truthy (logger self)); inversion E5; reflexivity.
    + apply bind_ok_inv in E as (? & st5 & E5 & E).
      apply bind_ok_inv in E as (? & st6 & E6 & E).
      inversion E; subst. inversion E6; subst. right.
      eexists. cbn [encountered_errors with_errors]. f_equal. rewrite <- Hsame.
      unfold log in E5. destruct (truthy (logger self)); inversion E5; reflexivity.
  - apply bind_ok_inv in E as (? & st5 & E5 & E). inversion E; subst. left.
    unfold log in E5. destruct (truthy (logger self)); inversion E5; reflexivity.
Qed.

(** C9. Whatever way a fresh candidate ends, the errors it returns hold no
    message twice. *)
Theorem outcome_errors_no_duplicates
    self g f p co (st st' : State F W) save_path s errs was_fixed :
  encountered_errors st = [] ->
  process self g f p co st = (Ok (save_path, s, errs, was_fixed), st') ->
  NoDup errs.
Proof.
  intros Hfresh E.
  destruct (generate self p (with_config st (set_compile_only (config st) co)))
    as [[code|ex] st1] eqn:Hg.
  2:{ unfold process in E. rewrite bind_eq in E. cbn [get_config] in E.
      rewrite bind_eq in E. cbn [put_config] in E. rewrite bind_eq, Hg in E. discriminate. }
  destruct (truthy_opt code) eqn:Ht.
  2:{ rewrite (process_no_code _ _ _ _ _ _ _ _ Hg Ht) in E. inversion E; subst.
      destruct (generate_no_code_errors _ _ _ _ _ Hg Ht) as [Hs | [e0 Hs]];
        rewrite Hs; cbn [encountered_errors with_config]; rewrite Hfresh.
      - constructor.
      - apply NoDup_singleton. }
  destruct (compile_check self (the code) st1) as [[[ok err]|ex] st2] eqn:Hc.
  2:{ unfold process in E. rewrite bind_eq in E. cbn [get_config] in E.
      rewrite bind_eq in E. cbn [put_config] in E. rewrite bind_eq, Hg, Ht in E.
      cbn [negb] in E. rewrite bind_eq, Hc in E. discriminate. }
  destruct ok.
  - rewrite (process_compiled _ _ _ _ _ _ _ _ _ _ Hg Ht Hc) in E.
    apply bind_ok_inv in E as (? & st3 & _ & E).
    apply save_and_return in E as (E & _). inversion E; subst. apply list_set_NoDup.
  - rewrite (process_not_compiled _ _ _ _ _ _ _ _ _ _ Hg Ht Hc) in E.
    apply bind_ok_inv in E as (fixed & st3 & _ & E).
    destruct (truthy_opt fixed);
      apply save_and_return in E as (E & _); inversion E; subst; apply list_set_NoDup.
Qed.

End CandidateClaims.


(** ** The batch runner *)

Section BatchFacts.
Context {F : Type} `{FloatOps F} {W : Type} `{!Collaborators W F}.
Import ProgramProcessor Pipeline.

(** Two namespaces that differ in [compile_only] at most. *)
Definition same_args (c c' : Config F) : Prop :=
  set_compile_only c false = set_compile_only c' false.

Lemma same_args_refl c : same_args c c.
Proof. reflexivity. Qed.

Lemma same_args_trans c1 c2 c3 : same_args c1 c2 -> same_args c2 c3 -> same_args c1 c3.
Proof. unfold same_args. congruence. Qed.

Lemma same_args_set c b : same_args c (set_compile_only c b).
Proof. reflexivity. Qed.

Lemma same_args_training_n c c' : same_args c c' -> training_n c = training_n c'.
Proof. intros E. apply (f_equal training_n) in E. exact E. Qed.

Lemma same_args_threshold c c' : same_args c c' -> training_threshold c = training_threshold c'.
Proof. intros E. apply (f_equal training_threshold) in E. exact E. Qed.

(** [m] changes the namespace in [compile_only] at most and adds only
    events of the kinds [ks] to the trace. *)
Definition effects {A} (ks : list kind) (m : M F W A) : Prop :=
  forall st r st', m st = (r, st') ->
    same_args (config st) (config st') /\ exists t, trace st' = trace st ++ t /\ only ks t.

Lemma effects_of_footprint {A} ks (m : M F W A) : footprint ks m -> effects ks m.
Proof.
  intros Hm st r st' E. destruct (Hm _ _ _ E) as (Hc & Ht). split; [|done].
  rewrite Hc. apply same_args_refl.
Qed.

Lemma effects_bind {A B} ks (m : M F W A) (k : A -> M F W B) :
  effects ks m -> (forall a, effects ks (k a)) -> effects ks (m ≫= k).
Proof.
  intros Hm Hk st r st' E. rewrite bind_eq in E.
  destruct (m st) as [[a|e] st1] eqn:Em.
  - destruct (Hm _ _ _ Em) as (Hc1 & t1 & Ht1 & Ho1).
    destruct (Hk a _ _ _ E) as (Hc2 & t2 & Ht2 & Ho2).
    split; [eapply same_args_trans; eauto|]. exists (t1 ++ t2).
    rewrite Ht2, Ht1, app_assoc. split; [done | by apply only_app].
  - inversion E; subst. eauto.
Qed.

Lemma effects_mono {A} ks ks' (m : M F W A) : ks ⊆ ks' -> effects ks m -> effects ks' m.
Proof.
  intros Hs Hm st r st' E. destruct (Hm _ _ _ E) as (Hc & t & Ht & Ho).
  split; [done|]. exists t. split; [done|]. eapply only_mono; eauto.
Qed.

Definition candidate_kinds : list kind := [KLog; KGen; KFix; KCompile; KRun; KSave].

Lemma process_effects self g f p co : effects candidate_kinds (process self g f p co).
Proof.
  unfold candidate_kinds. intros st r st' E. unfold process in E.
  rewrite bind_eq in E. cbn [get_config] in E.
  rewrite bind_eq in E. cbn [put_config] in E.
  match type of E with ?k _ = _ =>
    assert (Hk : footprint [KLog; KGen; KFix; KCompile; KRun; KSave] k) end.
  { repeat first
      [ footprint_step
      | (eapply footprint_mono; [| apply generate_footprint]; kinds_incl)
      | (eapply footprint_mono; [| apply compile_check_footprint]; kinds_incl)
      | (eapply footprint_mono; [| apply run_check_footprint]; kinds_incl)
      | (eapply footprint_mono; [| apply fix_loop_footprint]; kinds_incl) ]. }
  destruct (Hk _ _ _ E) as (Hc & Ht). split; [|exact Ht].
  rewrite Hc. apply same_args_set.
Qed.

Lemma submit_effects i model logger g f p co :
  effects candidate_kinds (submit i model logger g f p co).
Proof.
  intros st r st' E. unfold submit in E.
  destruct (process _ _ _ _ _ _) as [r0 st0] eqn:Ep. inversion E; subst.
  apply (process_effects _ _ _ _ _ _ _ _ Ep).
Qed.

Lemma run_pool_effects tasks model logger g f p co :
  effects candidate_kinds (run_pool tasks model logger g f p co).
Proof.
  induction tasks as [|i rest IH]; cbn [run_pool].
  - apply effects_of_footprint, footprint_ret.
  - apply effects_bind; [apply submit_effects | intros r].
    apply effects_bind; [apply IH | intros rs].
    apply effects_of_footprint, footprint_ret.
Qed.

(** The pool returns one future per task. *)
Lemma run_pool_length tasks model logger g f p co (st st' : State F W) futures :
  run_pool tasks model logger g f p co st = (Ok futures, st') ->
  length futures = length tasks.
Proof.
  revert st futures. induction tasks as [|i rest IH]; intros st futures E; cbn [run_pool] in E.
  - inversion E. reflexivity.
  - apply bind_ok_inv in E as (r & st1 & _ & E).
    apply bind_ok_inv in E as (rs & st2 & E2 & E).
    inversion E; subst. cbn [length]. f_equal. eapply IH; eauto.
Qed.

Lemma collect_training_footprint logger (futures : list (result (Outcome (F:=F)))) errs c :
  footprint [KLog] (collect_training (W:=W) logger futures errs c).
Proof.
  revert errs c. induction futures as [|[[[[sp s] es] wf]|[msg|code]] rest IH]; intros errs c;
    cbn [collect_training].
  - apply footprint_ret.
  - apply IH.
  - apply footprint_bind; [apply footprint_log; kind_in | intros _; apply IH].
  - apply footprint_raise.
Qed.

(** The count of fixed candidates among the futures collected. *)
Fixpoint fixed_count (futures : list (result (Outcome (F:=F)))) : Z :=
  match futures with
  | [] => 0
  | Ok (_, _, _, true) :: rest => 1 + fixed_count rest
  | _ :: rest => fixed_count rest
  end.

Lemma collect_training_count logger futures errs c (st st' : State F W) errs' c' :
  collect_training logger futures errs c st = (Ok (errs', c'), st') ->
  c' = c + fixed_count futures.
Proof.
  revert errs c st.
  induction futures as [|[[[[sp s] es] wf]|[msg|code]] rest IH]; intros errs c st E;
    cbn [collect_training fixed_count] in *.
  - inversion E; subst. lia.
  - apply IH in E. rewrite E. destruct wf; lia.
  - apply bind_ok_inv in E as (? & st1 & _ & E). apply IH in E. rewrite E. lia.
  - discriminate.
Qed.

Lemma fixed_count_bounds futures : 0 <= fixed_count futures <= len futures.
Proof.
  unfold len. induction futures as [|[[[[sp s] es] [|]]|e] rest IH];
    cbn [fixed_count length]; lia.
Qed.

Lemma fixed_count_app l1 l2 : fixed_count (l1 ++ l2) = fixed_count l1 + fixed_count l2.
Proof.
  induction l1 as [|[[[[sp s] es] [|]]|e] rest IH]; cbn [fixed_count app]; lia.
Qed.

(** The candidates of a batch that returned without code having been
    generated: no saved path and [was_fixed] false. *)
Fixpoint no_code_count (futures : list (result (Outcome (F:=F)))) : Z :=
  match futures with
  | [] => 0
  | Ok (None, _, _, false) :: rest => 1 + no_code_count rest
  | _ :: rest => no_code_count rest
  end.

Lemma no_code_count_bounds futures :
  0 <= no_code_count futures /\ fixed_count futures + no_code_count futures <= len futures.
Proof.
  unfold len. induction futures as [|[[[[[sp|] s] es] [|]]|e] rest IH];
    cbn [fixed_count no_code_count length]; lia.
Qed.

(** Every task of the pool is one run of [process], on a processor of its
    own. *)
Lemma run_pool_processes tasks model logger g f p co (st st' : State F W) futures :
  run_pool tasks model logger g f p co st = (Ok futures, st') ->
  Forall2 (fun i fut => exists s s',
             process {| index := i; model := model; logger := logger |} g f p co s = (fut, s'))
    tasks futures.
Proof.
  revert st futures. induction tasks as [|i rest IH]; intros st futures E; cbn [run_pool] in E.
  - inversion E. constructor.
  - apply bind_ok_inv in E as (r & st1 & E1 & E).
    apply bind_ok_inv in E as (rs & st2 & E2 & E).
    inversion E; subst. constructor; [|by eapply IH].
    unfold submit in E1.
    destruct (process _ g f p co (with_errors (with_stats st new_stats) [])) as [r0 s0] eqn:Ep.
    inversion E1; subst. eauto.
Qed.

End BatchFacts.

(** ** The training loop *)

Section TrainingFacts.
Context {F : Type} `{FloatOps F} {W : Type} `{!Collaborators W F}.
Import ProgramProcessor Pipeline.

(** The rounds a trace records: index, prompt and count of fixed
    candidates of each completed round, in order. *)
Definition rounds_of (t : list (event F)) : list (Z * string * Z) :=
  omap (fun e => match e with EvRound i p c => Some (i, p, c) | _ => None end) t.

(** The prompt-improvement requests a trace records. *)
Definition improvement_requests (t : list (event F)) : list (string * string) :=
  omap (fun e => match e with EvImprovementRequest m p => Some (m, p) | _ => None end) t.

Lemma rounds_of_app t1 t2 : rounds_of (t1 ++ t2) = rounds_of t1 ++ rounds_of t2.
Proof. apply omap_app. Qed.

Lemma improvement_requests_app t1 t2 :
  improvement_requests (t1 ++ t2) = improvement_requests t1 ++ improvement_requests t2.
Proof. apply omap_app. Qed.

Lemma rounds_of_only ks t : KRound ∉ ks -> only ks t -> rounds_of t = [].
Proof.
  intros Hk Ho. induction Ho as [|e t He Ho IH]; [done|].
  cbn [rounds_of omap list_omap]. fold (rounds_of t). rewrite IH.
  destruct e; first [done | destruct (Hk He)].
Qed.

Lemma improvement_requests_only ks t : KImprove ∉ ks -> only ks t -> improvement_requests t = [].
Proof.
  intros Hk Ho. induction Ho as [|e t He Ho IH]; [done|].
  cbn [improvement_requests omap list_omap]. fold (improvement_requests t). rewrite IH.
  destruct e; first [done | destruct (Hk He)].
Qed.

(** The retained best after a round of ratio [f] on prompt [p]. *)
Definition best_after (f : F) (p : string) (best : F * string) : F * string :=
  if fltb f best.1 then (f, p) else best.

(** The rounds a run of the loop goes through and its result, from the
    rounds still to run, the current prompt and the retained best. [n] is
    [training_n] and [thr] is [training_threshold]. *)
Inductive shape (n : Z) (thr : F) :
    list Z -> string -> F * string -> list (Z * string * Z) -> result string -> Prop :=
| shape_done prompt best :
    shape n thr [] prompt best [] (Ok best.2)
| shape_abort idx rest prompt best e :
    shape n thr (idx :: rest) prompt best [] (Raised e)
| shape_accept idx rest prompt best c :
    0 <= c <= n ->
    fltb (truediv_int c n) thr = true ->
    shape n thr (idx :: rest) prompt best [(idx, prompt, c)] (Ok prompt)
| shape_exit idx rest prompt best c e :
    0 <= c <= n ->
    fltb (truediv_int c n) thr = false ->
    shape n thr (idx :: rest) prompt best [(idx, prompt, c)] (Raised e)
| shape_next idx rest prompt best c prompt' h r :
    0 <= c <= n ->
    fltb (truediv_int c n) thr = false ->
    shape n thr rest prompt' (best_after (truediv_int c n) prompt best) h r ->
    shape n thr (idx :: rest) prompt best ((idx, prompt, c) :: h) r.

Lemma bind_cases {A B} (m : M F W A) (k : A -> M F W B) st r st' :
  (m ≫= k) st = (r, st') ->
  (exists a st1, m st = (Ok a, st1) /\ k a st1 = (r, st')) \/
  (exists e, m st = (Raised e, st') /\ r = Raised e).
Proof.
  rewrite bind_eq. destruct (m st) as [[a|e] st1]; intros E.
  - left. eauto.
  - inversion E; subst. right. eauto.
Qed.

(** The state [st1] is reached from [st] through events of the kinds [ks]. *)
Definition reached (ks : list kind) (st st1 : State F W) : Prop :=
  same_args (config st) (config st1) /\ exists t, trace st1 = trace st ++ t /\ only ks t.

Lemma reached_refl ks st : reached ks st st.
Proof.
  split; [apply same_args_refl|]. exists []. rewrite app_nil_r. split; [done | apply only_nil].
Qed.

Lemma reached_step {A} ks (m : M F W A) st st1 r st2 :
  reached ks st st1 -> effects ks m -> m st1 = (r, st2) -> reached ks st st2.
Proof.
  intros (Hc & t & Ht & Ho) Hm E. destruct (Hm _ _ _ E) as (Hc' & t' & Ht' & Ho').
  split; [eapply same_args_trans; eauto|]. exists (t ++ t').
  rewrite Ht', Ht, app_assoc. split; [done | by apply only_app].
Qed.

(** One bind of a run: either its first part returns and the run goes on,
    or it raises and the run ends there. *)
Lemma bind_reached {A B} ks (m : M F W A) (k : A -> M F W B) st st1 r st' :
  reached ks st st1 -> effects ks m -> (m ≫= k) st1 = (r, st') ->
  (exists a st2, m st1 = (Ok a, st2) /\ reached ks st st2 /\ k a st2 = (r, st')) \/
  (exists e, r = Raised e /\ reached ks st st').
Proof.
  intros Hr Hm E. apply bind_cases in E as [(a & st2 & E1 & E) | (e & E1 & ->)].
  - left. exists a, st2. split; [done|]. split; [|done]. eapply reached_step; eauto.
  - right. exists e. split; [done|]. eapply reached_step; eauto.
Qed.

Lemma improve_prompt_logic_footprint im pp cd op errs lang logger effort :
  footprint [KLog; KPrint; KImprove; KWrite]
    (improve_prompt_logic (W:=W) (F:=F) im pp cd op errs lang logger effort).
Proof. unfold improve_prompt_logic. repeat footprint_step. Qed.

End TrainingFacts.

Section TrainingShape.
Context {F : Type} `{FloatOps F} {W : Type} `{!Collaborators W F}.
Import ProgramProcessor Pipeline.

Definition batch_kinds : list kind := [KMkdir; KLog; KGen; KFix; KCompile; KRun; KSave].

Lemma len_range n : 0 <= n -> len (range n) = n.
Proof. intros Hn. unfold len, range. rewrite length_map, length_seq. lia. Qed.

(** What a run of the loop records, and what it returns. *)
Definition training_run (model crd sd : string) (rounds : list Z) (prompt : string)
    (best : F * string) (st : State F W) (r : result string) (st' : State F W) : Prop :=
  same_args (config st) (config st') /\
  exists t, trace st' = trace st ++ t /\
    shape (training_n (config st)) (training_threshold (config st))
      rounds prompt best (rounds_of t) r /\
    (forall idx p c h, rounds_of t = (idx, p, c) :: h ->
       fltb (truediv_int c (training_n (config st))) (training_threshold (config st)) = true ->
       improvement_requests t = []).

Lemma log_run l (m : log_msg F) (st : State F W) :
  exists st1 t, log l m st = (Ok tt, st1) /\
    config st1 = config st /\ trace st1 = trace st ++ t /\ only [KLog] t.
Proof.
  unfold log. destruct (truthy l).
  - eexists _, [EvLog l m]. cbn [emit]. repeat split. constructor; [kind_in | constructor].
  - exists st, []. rewrite app_nil_r. repeat split. constructor.
Qed.

Lemma batch_no_rounds (t : list (event F)) : only batch_kinds t -> rounds_of t = [].
Proof.
  apply rounds_of_only. unfold batch_kinds. intros Hin.
  repeat (apply elem_of_cons in Hin as [?|Hin]; [discriminate|]).
  by apply elem_of_nil in Hin.
Qed.

Lemma batch_no_improvement (t : list (event F)) : only batch_kinds t -> improvement_requests t = [].
Proof.
  apply improvement_requests_only. unfold batch_kinds. intros Hin.
  repeat (apply elem_of_cons in Hin as [?|Hin]; [discriminate|]).
  by apply elem_of_nil in Hin.
Qed.

Lemma log_no_rounds (t : list (event F)) : only [KLog] t -> rounds_of t = [].
Proof.
  apply rounds_of_only. intros Hin.
  repeat (apply elem_of_cons in Hin as [?|Hin]; [discriminate|]).
  by apply elem_of_nil in Hin.
Qed.

Lemma log_no_improvement (t : list (event F)) : only [KLog] t -> improvement_requests t = [].
Proof.
  apply improvement_requests_only. intros Hin.
  repeat (apply elem_of_cons in Hin as [?|Hin]; [discriminate|]).
  by apply elem_of_nil in Hin.
Qed.

Lemma improve_no_rounds (t : list (event F)) : only [KLog; KPrint; KImprove; KWrite] t -> rounds_of t = [].
Proof.
  apply rounds_of_only. intros Hin.
  repeat (apply elem_of_cons in Hin as [?|Hin]; [discriminate|]).
  by apply elem_of_nil in Hin.
Qed.

(** A round that meets the threshold ends the run. *)
Lemma run_accept model crd sd idx rest prompt best (st st' : State F W) c tb tl :
  same_args (config st) (config st') ->
  trace st' = trace st ++ tb ++ [EvRound idx prompt c] ++ tl ->
  only batch_kinds tb -> only [KLog] tl ->
  0 <= c <= training_n (config st) ->
  fltb (truediv_int c (training_n (config st))) (training_threshold (config st)) = true ->
  training_run model crd sd (idx :: rest) prompt best st (Ok prompt) st'.
Proof.
  intros Hc Ht Hb Hl Hcn Hthr. split; [done|].
  exists (tb ++ [EvRound idx prompt c] ++ tl). split; [done|].
  rewrite !rounds_of_app, !improvement_requests_app.
  rewrite (batch_no_rounds _ Hb), (log_no_rounds _ Hl).
  rewrite (batch_no_improvement _ Hb), (log_no_improvement _ Hl).
  split; [by apply shape_accept | done].
Qed.

(** A round below the threshold after which the run raises. *)
Lemma run_exit model crd sd idx rest prompt best (st st' : State F W) c tb ti e :
  same_args (config st) (config st') ->
  trace st' = trace st ++ tb ++ [EvRound idx prompt c] ++ ti ->
  only batch_kinds tb -> rounds_of ti = [] ->
  0 <= c <= training_n (config st) ->
  fltb (truediv_int c (training_n (config st))) (training_threshold (config st)) = false ->
  training_run model crd sd (idx :: rest) prompt best st (Raised e) st'.
Proof.
  intros Hc Ht Hb Hi Hcn Hthr. split; [done|].
  exists (tb ++ [EvRound idx prompt c] ++ ti). split; [done|].
  rewrite !rounds_of_app, (batch_no_rounds _ Hb), Hi.
  split; [by apply shape_exit|].
  intros ? ? ? ? Heq Hlt. inversion Heq; subst. congruence.
Qed.

(** A round below the threshold after which the run goes on. *)
Lemma run_next model crd sd idx rest prompt prompt' best (st st1 st' : State F W) c tb ti r :
  same_args (config st) (config st1) ->
  trace st1 = trace st ++ tb ++ [EvRound idx prompt c] ++ ti ->
  only batch_kinds tb -> rounds_of ti = [] ->
  0 <= c <= training_n (config st) ->
  fltb (truediv_int c (training_n (config st))) (training_threshold (config st)) = false ->
  training_run model crd sd rest prompt'
    (best_after (truediv_int c (training_n (config st))) prompt best) st1 r st' ->
  training_run model crd sd (idx :: rest) prompt best st r st'.
Proof.
  intros Hc Ht Hb Hi Hcn Hthr (Hc' & t2 & Ht2 & Hs & _).
  rewrite <- (same_args_training_n _ _ Hc), <- (same_args_threshold _ _ Hc) in Hs.
  split; [eapply same_args_trans; eauto|].
  exists ((tb ++ [EvRound idx prompt c] ++ ti) ++ t2).
  split; [by rewrite Ht2, Ht, <- !app_assoc|].
  rewrite !rounds_of_app, (batch_no_rounds _ Hb), Hi.
  split; [by apply shape_next with (prompt' := prompt')|].
  intros ? ? ? ? Heq Hlt. inversion Heq; subst. congruence.
Qed.

Lemma training_rounds_run model crd sd rounds prompt bp br (st st' : State F W) r :
  0 < training_n (config st) ->
  training_rounds rounds model crd sd prompt bp br st = (r, st') ->
  training_run model crd sd rounds prompt (br, bp) st r st'.
Proof.
  revert prompt bp br st.
  induction rounds as [|idx rest IH]; intros prompt bp br st Hn E; cbn [training_rounds] in E.
  { inversion E; subst. split; [apply same_args_refl|]. exists []. rewrite app_nil_r.
    split; [done|]. split; [apply (shape_done _ _ prompt (br, bp)) | discriminate]. }
  assert (Habort : forall e st1, reached batch_kinds st st1 ->
            training_run model crd sd (idx :: rest) prompt (br, bp) st (Raised e) st1).
  { intros e st1 (Hc & t & Ht & Ho). split; [done|]. exists t. split; [done|].
    rewrite (batch_no_rounds _ Ho). split; [apply shape_abort | discriminate]. }
  pose proof (reached_refl batch_kinds st) as Hr.
  rewrite bind_eq in E. cbn [get_config] in E.
  eapply bind_reached in E;
    [| exact Hr | apply effects_of_footprint; unfold batch_kinds; repeat footprint_step].
  destruct E as [(? & st1 & _ & Hr1 & E) | (e & -> & Hr1)]; [| by apply Habort].
  eapply bind_reached in E;
    [| exact Hr1 | apply effects_of_footprint; unfold batch_kinds; repeat footprint_step].
  destruct E as [(? & st2 & _ & Hr2 & E) | (e & -> & Hr2)]; [| by apply Habort].
  eapply bind_reached in E;
    [| exact Hr2 | apply effects_of_footprint; unfold batch_kinds; repeat footprint_step].
  destruct E as [(? & st3 & _ & Hr3 & E) | (e & -> & Hr3)]; [| by apply Habort].
  eapply bind_reached in E;
    [| exact Hr3 | apply effects_of_footprint; unfold batch_kinds; repeat footprint_step].
  destruct E as [(? & st4 & _ & Hr4 & E) | (e & -> & Hr4)]; [| by apply Habort].
  eapply bind_reached in E;
    [| exact Hr4 | apply effects_of_footprint; unfold batch_kinds; repeat footprint_step].
  destruct E as [(? & st5 & _ & Hr5 & E) | (e & -> & Hr5)]; [| by apply Habort].
  eapply bind_reached in E;
    [| exact Hr5 | apply effects_of_footprint; unfold batch_kinds; repeat footprint_step].
  destruct E as [(? & st6 & _ & Hr6 & E) | (e & -> & Hr6)]; [| by apply Habort].
  eapply bind_reached in E;
    [| exact Hr6 | eapply effects_mono; [| apply run_pool_effects];
                   unfold candidate_kinds, batch_kinds; kinds_incl].
  destruct E as [(futures & st7 & Epool & Hr7 & E) | (e & -> & Hr7)]; [| by apply Habort].
  eapply bind_reached in E;
    [| exact Hr7 | apply effects_of_footprint; eapply footprint_mono;
                   [| apply collect_training_footprint]; unfold batch_kinds; kinds_incl].
  destruct E as [([te c] & st8 & Ecol & Hr8 & E) | (e & -> & Hr8)]; [| by apply Habort].
  (* the count of the round *)
  assert (Hcn : 0 <= c <= training_n (config st)).
  { apply collect_training_count in Ecol. apply run_pool_length in Epool.
    pose proof (fixed_count_bounds futures) as Hb. unfold len in Hb.
    rewrite Epool in Hb. fold (len (range (training_n (config st)))) in Hb.
    rewrite len_range in Hb by lia. lia. }
  destruct Hr8 as (Hc8 & tb & Ht8 & Hob).
  rewrite bind_eq in E. cbn [emit] in E.
  rewrite bind_eq in E.
  match type of E with context [log ?l ?m ?s] =>
    destruct (log_run l m s) as (st9 & tl1 & El1 & Hc9 & Ht9 & Hol1) end.
  rewrite El1 in E. cbn [config trace with_trace] in Hc9, Ht9.
  set (f := truediv_int c (training_n (config st))) in *.
  assert (Hb : (if fltb f br then (f, prompt) else (br, bp))
               = ((best_after f prompt (br, bp)).1, (best_after f prompt (br, bp)).2)).
  { unfold best_after. cbn [fst snd]. by destruct (fltb f br). }
  rewrite Hb in E. clear Hb.
  destruct (fltb f (training_threshold (config st))) eqn:Hthr.
  - (* accepted *)
    rewrite bind_eq in E.
    match type of E with context [log ?l ?m ?s] =>
      destruct (log_run l m s) as (st10 & tl2 & El2 & Hc10 & Ht10 & Hol2) end.
    rewrite El2 in E. inversion E; subst r st'.
    eapply run_accept with (c := c) (tb := tb) (tl := tl1 ++ tl2); try done.
    + rewrite Hc10, Hc9. exact Hc8.
    + rewrite Ht10, Ht9, Ht8, <- !app_assoc. reflexivity.
    + by apply only_app.
  - destruct (improve_prompt (config st) && (idx <? max_rounds)).
    + (* improvement *)
      rewrite bind_eq in E.
      match type of E with context [log ?l ?m ?s] =>
        destruct (log_run l m s) as (st10 & tl2 & El2 & Hc10 & Ht10 & Hol2) end.
      rewrite El2 in E.
      apply bind_cases in E as [(prompt' & st11 & Eimp & E) | (e & Eimp & ->)].
      * assert (Hfp : config st11 = config st10 /\
                  exists t, trace st11 = trace st10 ++ t /\
                    only [KLog; KPrint; KImprove; KWrite] t).
        { eapply footprint_try_except; [apply improve_prompt_logic_footprint | | exact Eimp].
          intros e0. cbv beta. repeat footprint_step. }
        destruct Hfp as (Hc11 & ti & Ht11 & Hoi).
        assert (Hsame : same_args (config st) (config st11)).
        { rewrite Hc11, Hc10, Hc9. exact Hc8. }
        eapply run_next with (c := c) (tb := tb) (ti := tl1 ++ tl2 ++ ti) (st1 := st11);
          try done.
        -- rewrite Ht11, Ht10, Ht9, Ht8, <- !app_assoc. reflexivity.
        -- rewrite !rounds_of_app, (log_no_rounds _ Hol1), (log_no_rounds _ Hol2),
             (improve_no_rounds _ Hoi). reflexivity.
        -- fold f. destruct (best_after f prompt (br, bp)) as [br' bp'] eqn:Hbest.
           apply IH; [|exact E]. rewrite <- (same_args_training_n _ _ Hsame). exact Hn.
      * assert (Hfp : config st' = config st10 /\
                  exists t, trace st' = trace st10 ++ t /\
                    only [KLog; KPrint; KImprove; KWrite] t).
        { eapply footprint_try_except; [apply improve_prompt_logic_footprint | | exact Eimp].
          intros e0. cbv beta. repeat footprint_step. }
        destruct Hfp as (Hc11 & ti & Ht11 & Hoi).
        eapply run_exit with (c := c) (tb := tb) (ti := tl1 ++ tl2 ++ ti); try done.
        -- rewrite Hc11, Hc10, Hc9. exact Hc8.
        -- rewrite Ht11, Ht10, Ht9, Ht8, <- !app_assoc. reflexivity.
        -- rewrite !rounds_of_app, (log_no_rounds _ Hol1), (log_no_rounds _ Hol2),
             (improve_no_rounds _ Hoi). reflexivity.
    + (* no improvement *)
      rewrite bind_eq in E.
      match type of E with context [log ?l ?m ?s] =>
        destruct (log_run l m s) as (st10 & tl2 & El2 & Hc10 & Ht10 & Hol2) end.
      rewrite El2 in E.
      assert (Hsame : same_args (config st) (config st10)).
      { rewrite Hc10, Hc9. exact Hc8. }
      eapply run_next with (c := c) (tb := tb) (ti := tl1 ++ tl2) (st1 := st10); try done.
      * rewrite Ht10, Ht9, Ht8, <- !app_assoc. reflexivity.
      * rewrite !rounds_of_app, (log_no_rounds _ Hol1), (log_no_rounds _ Hol2). reflexivity.
      * fold f. destruct (best_after f prompt (br, bp)) as [br' bp'] eqn:Hbest.
        apply IH; [|exact E]. rewrite <- (same_args_training_n _ _ Hsame). exact Hn.
Qed.

End TrainingShape.

Section TrainingClaims.
Context {F : Type} `{FloatOps F} {W : Type} `{!Collaborators W F}.
Import ProgramProcessor Pipeline.

Lemma shape_accepts n thr rounds prompt best h r :
  shape (F:=F) n thr rounds prompt best h r ->
  forall h1 idx p c h2,
    h = h1 ++ (idx, p, c) :: h2 -> fltb (truediv_int c n) thr = true ->
    r = Ok p /\ h2 = [].
Proof.
  induction 1 as [prompt best | idx rest prompt best e | idx rest prompt best c Hc Hlt
                 | idx rest prompt best c e Hc Hge
                 | idx rest prompt best c prompt' h r Hc Hge Hs IH];
    intros h1 idx' p c' h2 Heq Hlt'.
  - by destruct h1.
  - by destruct h1.
  - destruct h1 as [|? [|? ?]]; inversion Heq; subst. done.
  - destruct h1 as [|? [|? ?]]; inversion Heq; subst. congruence.
  - destruct h1 as [|x h1]; inversion Heq; subst; [congruence|]. eapply IH; eauto.
Qed.

Lemma shape_first n thr idx0 rest prompt best idx p c h r :
  shape (F:=F) n thr (idx0 :: rest) prompt best ((idx, p, c) :: h) r ->
  idx = idx0 /\ p = prompt.
Proof. inversion 1; subst; done. Qed.

Lemma range_4 : range (max_rounds + 1) = [0; 1; 2; 3].
Proof. reflexivity. Qed.

(** C4. A round whose ratio is below the threshold is the last round of
    the run, and the run returns that round's prompt. The first round is
    round 0 on the starting prompt; when it is below the threshold, the run
    returns the starting prompt after that one round and without any
    improvement request. Nothing here depends on [improve_prompt]. *)
Theorem threshold_round_is_accepted model crd sd (st st' : State F W) r :
  run_training_phase model crd sd st = (r, st') ->
  exists t, trace st' = trace st ++ t /\
    (forall h1 idx p c h2,
       rounds_of t = h1 ++ (idx, p, c) :: h2 ->
       fltb (truediv_int c (training_n (config st))) (training_threshold (config st)) = true ->
       r = Ok p /\ h2 = []) /\
    (forall idx p c h,
       rounds_of t = (idx, p, c) :: h ->
       idx = 0 /\ p = generation_prompt /\
       (fltb (truediv_int c (training_n (config st))) (training_threshold (config st)) = true ->
        r = Ok generation_prompt /\ h = [] /\ improvement_requests t = [])).
Proof.
  intros E. unfold run_training_phase in E. rewrite bind_eq in E. cbn [get_config] in E.
  destruct (training_n (config st) <=? 0) eqn:Hn.
  - inversion E; subst. exists []. rewrite app_nil_r. split; [done|].
    split; [intros [|? ?]; discriminate | discriminate].
  - apply Z.leb_gt in Hn. rewrite range_4 in E.
    apply training_rounds_run in E as (_ & t & Ht & Hs & Himp); [|done].
    exists t. split; [done|]. split.
    + intros h1 idx p c h2 Heq Hlt. eapply shape_accepts; eauto.
    + intros idx p c h Heq. rewrite Heq in Hs.
      destruct (shape_first _ _ _ _ _ _ _ _ _ _ _ Hs) as [-> ->].
      split; [done|]. split; [done|]. intros Hlt.
      destruct (shape_accepts _ _ _ _ _ _ _ Hs [] 0 generation_prompt c h eq_refl Hlt)
        as [-> ->].
      split; [done|]. split; [done|]. eapply Himp; eauto.
Qed.

(** The directory of a training round, its log file and its candidates. *)
Definition round_dir (crd model : string) (idx : Z) : string :=
  os_path_join crd ["training_phase"; replace_slash model; "round_" +:+ pretty idx].

Definition round_candidate (crd model : string) (idx k : Z) : Processor :=
  {| index := k; model := model;
     logger := os_path_join (round_dir crd model idx)
                 ["round_" +:+ pretty idx +:+ "_execution.log"] |}.

(** C10. Take a run of the training loop whose first round is completed,
    with the count [c] of fixed candidates recorded. The round has one
    future for each of its [training_n] candidates, the result of
    [process] on that candidate; a candidate whose generation gives no
    code returns no saved path and [was_fixed] false. The count [c] is the
    number of futures with [was_fixed] true, so with the candidates
    without code it stays within [training_n]: each of them takes one from
    what [c] can be, while the ratio compared with the threshold is still
    [c / training_n]; and when that ratio is below the threshold the run
    returns the prompt of the round. *)
Theorem generation_failure_not_counted_as_fixed
    model crd sd idx rest prompt bp br (st st' : State F W) r t i q c h :
  0 < training_n (config st) ->
  training_rounds (idx :: rest) model crd sd prompt bp br st = (r, st') ->
  trace st' = trace st ++ t ->
  rounds_of t = (i, q, c) :: h ->
  exists futures,
    Forall2 (fun k fut => exists s s',
        process (round_candidate crd model idx k)
          (os_path_join (round_dir crd model idx) ["generated"])
          (os_path_join (round_dir crd model idx) ["failed"]) prompt true s = (fut, s') /\
        forall code s1,
          generate (round_candidate crd model idx k) prompt
            (with_config s (set_compile_only (config s) true)) = (Ok code, s1) ->
          truthy_opt code = false ->
          fut = Ok (None, stats s1, encountered_errors s1, false))
      (range (training_n (config st))) futures /\
    len futures = training_n (config st) /\
    (i, q) = (idx, prompt) /\
    c = fixed_count futures /\
    0 <= no_code_count futures /\
    c + no_code_count futures <= training_n (config st) /\
    (fltb (truediv_int c (training_n (config st))) (training_threshold (config st)) = true ->
     r = Ok prompt).
Proof.
  intros Hn E Htr Hround. cbn [training_rounds] in E.
  assert (Habort : reached batch_kinds st st' -> False).
  { intros (_ & t0 & Ht0 & Ho). rewrite Htr in Ht0. apply app_inv_head in Ht0. subst t0.
    by rewrite (batch_no_rounds _ Ho) in Hround. }
  pose proof (reached_refl batch_kinds st) as Hr.
  rewrite bind_eq in E. cbn [get_config] in E.
  eapply bind_reached in E;
    [| exact Hr | apply effects_of_footprint; unfold batch_kinds; repeat footprint_step].
  destruct E as [(? & st1 & _ & Hr1 & E) | (e & -> & Hr1)]; [| by destruct Habort].
  eapply bind_reached in E;
    [| exact Hr1 | apply effects_of_footprint; unfold batch_kinds; repeat footprint_step].
  destruct E as [(? & st2 & _ & Hr2 & E) | (e & -> & Hr2)]; [| by destruct Habort].
  eapply bind_reached in E;
    [| exact Hr2 | apply effects_of_footprint; unfold batch_kinds; repeat footprint_step].
  destruct E as [(? & st3 & _ & Hr3 & E) | (e & -> & Hr3)]; [| by destruct Habort].
  eapply bind_reached in E;
    [| exact Hr3 | apply effects_of_footprint; unfold batch_kinds; repeat footprint_step].
  destruct E as [(? & st4 & _ & Hr4 & E) | (e & -> & Hr4)]; [| by destruct Habort].
  eapply bind_reached in E;
    [| exact Hr4 | apply effects_of_footprint; unfold batch_kinds; repeat footprint_step].
  destruct E as [(? & st5 & _ & Hr5 & E) | (e & -> & Hr5)]; [| by destruct Habort].
  eapply bind_reached in E;
    [| exact Hr5 | apply effects_of_footprint; unfold batch_kinds; repeat footprint_step].
  destruct E as [(? & st6 & _ & Hr6 & E) | (e & -> & Hr6)]; [| by destruct Habort].
  eapply bind_reached in E;
    [| exact Hr6 | eapply effects_mono; [| apply run_pool_effects];
                   unfold candidate_kinds, batch_kinds; kinds_incl].
  destruct E as [(futures & st7 & Epool & Hr7 & E) | (e & -> & Hr7)]; [| by destruct Habort].
  eapply bind_reached in E;
    [| exact Hr7 | apply effects_of_footprint; eapply footprint_mono;
                   [| apply collect_training_footprint]; unfold batch_kinds; kinds_incl].
  destruct E as [([te c0] & st8 & Ecol & Hr8 & E) | (e & -> & Hr8)]; [| by destruct Habort].
  destruct Hr8 as (Hc8 & tb & Ht8 & Hob).
  (* the rest of the round, from the record of its count on *)
  assert (Htail : exists tl, trace st' = trace st8 ++ [EvRound idx prompt c0] ++ tl /\
            (fltb (truediv_int c0 (training_n (config st))) (training_threshold (config st)) = true ->
             r = Ok prompt)).
  { rewrite bind_eq in E. cbn [emit] in E.
    rewrite bind_eq in E.
    match type of E with context [log ?l ?m ?s] =>
      destruct (log_run l m s) as (st9 & tl1 & El1 & Hc9 & Ht9 & Hol1) end.
    rewrite El1 in E. cbn [config trace with_trace] in Hc9, Ht9.
    set (f := truediv_int c0 (training_n (config st))) in *.
    assert (Hb : (if fltb f br then (f, prompt) else (br, bp))
                 = ((best_after f prompt (br, bp)).1, (best_after f prompt (br, bp)).2)).
    { unfold best_after. cbn [fst snd]. by destruct (fltb f br). }
    rewrite Hb in E. clear Hb.
    destruct (fltb f (training_threshold (config st))) eqn:Hthr.
    - rewrite bind_eq in E.
      match type of E with context [log ?l ?m ?s] =>
        destruct (log_run l m s) as (st10 & tl2 & El2 & Hc10 & Ht10 & Hol2) end.
      rewrite El2 in E. inversion E; subst r st'.
      exists (tl1 ++ tl2). rewrite Ht10, Ht9, <- !app_assoc. done.
    - destruct (improve_prompt (config st) && (idx <? max_rounds)).
      + rewrite bind_eq in E.
        match type of E with context [log ?l ?m ?s] =>
          destruct (log_run l m s) as (st10 & tl2 & El2 & Hc10 & Ht10 & Hol2) end.
        rewrite El2 in E.
        apply bind_cases in E as [(prompt' & st11 & Eimp & E) | (e & Eimp & ->)].
        * assert (Hfp : config st11 = config st10 /\
                    exists t, trace st11 = trace st10 ++ t /\
                      only [KLog; KPrint; KImprove; KWrite] t).
          { eapply footprint_try_except; [apply improve_prompt_logic_footprint | | exact Eimp].
            intros e0. cbv beta. repeat footprint_step. }
          destruct Hfp as (Hc11 & ti & Ht11 & Hoi).
          assert (Hsame : same_args (config st) (config st11)).
          { rewrite Hc11, Hc10, Hc9. exact Hc8. }
          destruct (best_after f prompt (br, bp)) as [br' bp'] eqn:Hbest. cbn [fst snd] in E.
          apply training_rounds_run in E as (_ & t2 & Ht2 & _);
            [| by rewrite <- (same_args_training_n _ _ Hsame)].
          exists (tl1 ++ tl2 ++ ti ++ t2).
          rewrite Ht2, Ht11, Ht10, Ht9, <- !app_assoc. done.
        * assert (Hfp : config st' = config st10 /\
                    exists t, trace st' = trace st10 ++ t /\
                      only [KLog; KPrint; KImprove; KWrite] t).
          { eapply footprint_try_except; [apply improve_prompt_logic_footprint | | exact Eimp].
            intros e0. cbv beta. repeat footprint_step. }
          destruct Hfp as (Hc11 & ti & Ht11 & Hoi).
          exists (tl1 ++ tl2 ++ ti). rewrite Ht11, Ht10, Ht9, <- !app_assoc. done.
      + rewrite bind_eq in E.
        match type of E with context [log ?l ?m ?s] =>
          destruct (log_run l m s) as (st10 & tl2 & El2 & Hc10 & Ht10 & Hol2) end.
        rewrite El2 in E.
        assert (Hsame : same_args (config st) (config st10)).
        { rewrite Hc10, Hc9. exact Hc8. }
        destruct (best_after f prompt (br, bp)) as [br' bp'] eqn:Hbest. cbn [fst snd] in E.
        apply training_rounds_run in E as (_ & t2 & Ht2 & _);
          [| by rewrite <- (same_args_training_n _ _ Hsame)].
        exists (tl1 ++ tl2 ++ t2). rewrite Ht2, Ht10, Ht9, <- !app_assoc. done. }
  destruct Htail as (tl & Htl & Hacc).
  (* the round recorded is this one *)
  assert (Hc0 : (i, q, c) = (idx, prompt, c0)).
  { rewrite Htl, Ht8, <- !app_assoc in Htr. apply app_inv_head in Htr. subst t.
    rewrite !rounds_of_app, (batch_no_rounds _ Hob) in Hround.
    cbn in Hround. by inversion Hround. }
  inversion Hc0; subst i q c. clear Hc0.
  exists futures.
  pose proof (collect_training_count _ _ _ _ _ _ _ _ Ecol) as Hcount.
  pose proof (run_pool_length _ _ _ _ _ _ _ _ _ _ Epool) as Hlen.
  pose proof (no_code_count_bounds futures) as [Hk0 Hk].
  assert (Hl : len futures = training_n (config st)).
  { unfold len. rewrite Hlen. fold (len (range (training_n (config st)))).
    apply len_range. lia. }
  split.
  { eapply Forall2_impl; [exact (run_pool_processes _ _ _ _ _ _ _ _ _ _ Epool)|].
    intros k fut (s & s' & Ep). exists s, s'. split; [exact Ep|].
    intros code s1 Hg Hno.
    rewrite (process_no_code _ _ _ _ _ _ _ _ Hg Hno) in Ep. by inversion Ep. }
  split; [done|]. split; [done|]. split; [lia|]. split; [done|]. split; [lia | done].
Qed.

End TrainingClaims.

Section BestPrompt.
Context {F : Type} `{FloatOrder F} {W : Type} `{!Collaborators W F}.
Import ProgramProcessor Pipeline.

Variable n : Z.
Variable thr : F.
Hypothesis n_pos : 0 < n.

Definition ratio (c : Z) : F := truediv_int c n.

(** In the history [hs], the retained [best] is the prompt of the first
    round of the lowest ratio, and its ratio. *)
Definition first_lowest (hs : list (Z * string * Z)) (best : F * string) : Prop :=
  exists h1 idx c h2,
    hs = h1 ++ (idx, best.2, c) :: h2 /\
    fltb best.1 (ratio c) = false /\ fltb (ratio c) best.1 = false /\
    (forall i q d, (i, q, d) ∈ h1 -> fltb (ratio c) (ratio d) = true) /\
    (forall i q d, (i, q, d) ∈ h2 -> fltb (ratio d) (ratio c) = false).

Lemma fltb_lt_equiv a b b' :
  fltb a b = true -> fltb b b' = false -> fltb b' b = false -> fltb a b' = true.
Proof.
  intros Hab Hbb' Hb'b. destruct (fltb_cotrans a b b' Hab) as [Hlt|Hlt]; [done | congruence].
Qed.

Lemma first_lowest_after hs best idx prompt c :
  0 <= c <= n ->
  (hs = [] /\ best = (fone, prompt)) \/ first_lowest hs best ->
  first_lowest (hs ++ [(idx, prompt, c)]) (best_after (ratio c) prompt best).
Proof.
  intros Hc [[-> ->] | (h1 & idx0 & c0 & h2 & -> & Hb1 & Hb2 & Hh1 & Hh2)];
    unfold best_after; cbn [fst snd].
  - exists [], idx, c, []. destruct (fltb (ratio c) fone) eqn:Hlt; cbn [fst snd].
    + rewrite fltb_irrefl. split; [done|]. split; [done|]. split; [done|].
      split; intros ? ? ? Hin; by apply elem_of_nil in Hin.
    + rewrite Hlt. unfold ratio at 1. rewrite (ratio_le_one c n Hc n_pos).
      split; [done|]. split; [done|]. split; [done|].
      split; intros ? ? ? Hin; by apply elem_of_nil in Hin.
  - destruct (fltb (ratio c) best.1) eqn:Hlt; cbn [fst snd].
    + assert (Hlt0 : fltb (ratio c) (ratio c0) = true) by (eapply fltb_lt_equiv; eauto).
      exists (h1 ++ (idx0, best.2, c0) :: h2), idx, c, []. cbn [fst snd].
      rewrite fltb_irrefl. split; [done|]. split; [done|]. split; [done|]. split.
      * intros i q d Hin. apply elem_of_app in Hin as [Hin|Hin].
        { eapply fltb_trans; eauto. }
        apply elem_of_cons in Hin as [Heq|Hin].
        { inversion Heq; subst. exact Hlt0. }
        destruct (fltb_cotrans _ _ (ratio d) Hlt0) as [Hd|Hd]; [done|].
        rewrite (Hh2 _ _ _ Hin) in Hd. discriminate.
      * intros ? ? ? Hin. by apply elem_of_nil in Hin.
    + exists h1, idx0, c0, (h2 ++ [(idx, prompt, c)]).
      split; [by rewrite <- app_assoc|]. split; [done|]. split; [done|]. split; [done|].
      intros i q d Hin. apply elem_of_app in Hin as [Hin|Hin]; [eauto|].
      apply list_elem_of_singleton in Hin. inversion Hin; subst.
      destruct (fltb (ratio c) (ratio c0)) eqn:Hc0; [|done].
      destruct (fltb_cotrans _ _ best.1 Hc0) as [Hd|Hd]; congruence.
Qed.

(** A run in which no round meets the threshold returns the prompt of the
    first round of the lowest ratio. *)
Lemma shape_fallback rounds prompt best h p :
  shape n thr rounds prompt best h (Ok p) ->
  (forall idx q c, (idx, q, c) ∈ h -> fltb (ratio c) thr = false) ->
  forall hs,
    (hs = [] /\ rounds <> [] /\ best = (fone, prompt)) \/ first_lowest hs best ->
    exists bf, first_lowest (hs ++ h) (bf, p).
Proof.
  intros Hs. remember (Ok p) as r eqn:Hr. revert p Hr.
  induction Hs as [prompt best | idx rest prompt best e | idx rest prompt best c Hc Hlt
                  | idx rest prompt best c e Hc Hge
                  | idx rest prompt best c prompt' h r Hc Hge Hs IH];
    intros p Hr Hno hs HJ; try discriminate.
  - inversion Hr; subst. destruct HJ as [(_ & Hne & _) | HJ]; [done|].
    exists best.1. rewrite app_nil_r. by destruct best.
  - inversion Hr; subst. specialize (Hno idx p c). unfold ratio in Hno.
    rewrite Hno in Hlt; [discriminate|]. apply list_elem_of_here.
  - subst r. specialize (IH p eq_refl).
    replace (hs ++ (idx, prompt, c) :: h) with ((hs ++ [(idx, prompt, c)]) ++ h)
      by (by rewrite <- app_assoc).
    apply IH.
    + intros i q d Hin. eapply Hno. apply list_elem_of_further, Hin.
    + right. apply first_lowest_after; [done|].
      destruct HJ as [(-> & _ & ->) | HJ]; auto.
Qed.

(** The prompt a run returns is the prompt of one of its rounds. *)
Lemma shape_evaluated rounds prompt best h p :
  shape n thr rounds prompt best h (Ok p) ->
  forall hs,
    (hs = [] /\ rounds <> [] /\ best.2 = prompt) \/ (exists idx c, (idx, best.2, c) ∈ hs) ->
    exists idx c, (idx, p, c) ∈ hs ++ h.
Proof.
  intros Hs. remember (Ok p) as r eqn:Hr. revert p Hr.
  induction Hs as [prompt best | idx rest prompt best e | idx rest prompt best c Hc Hlt
                  | idx rest prompt best c e Hc Hge
                  | idx rest prompt best c prompt' h r Hc Hge Hs IH];
    intros p Hr hs HJ; try discriminate.
  - inversion Hr; subst. destruct HJ as [(_ & Hne & _) | HJ]; [done|].
    by rewrite app_nil_r.
  - inversion Hr; subst. exists idx, c. apply elem_of_app. right. apply list_elem_of_here.
  - subst r. specialize (IH p eq_refl).
    replace (hs ++ (idx, prompt, c) :: h) with ((hs ++ [(idx, prompt, c)]) ++ h)
      by (by rewrite <- app_assoc).
    apply IH. right. unfold best_after.
    destruct (fltb (truediv_int c n) best.1); cbn [fst snd].
    + exists idx, c. apply elem_of_app. right. apply list_elem_of_here.
    + destruct HJ as [(-> & _ & ->) | (i & d & Hin)].
      * exists idx, c. apply list_elem_of_here.
      * exists i, d. apply elem_of_app. by left.
Qed.

(** A run in which no round is below [1.0] or meets the threshold returns
    the prompt retained at the start. *)
Lemma shape_default rounds prompt best h p :
  shape n thr rounds prompt best h (Ok p) ->
  best.1 = fone ->
  (forall idx q c, (idx, q, c) ∈ h -> fltb (ratio c) thr = false) ->
  (forall idx q c, (idx, q, c) ∈ h -> fltb (ratio c) fone = false) ->
  p = best.2.
Proof.
  intros Hs. remember (Ok p) as r eqn:Hr. revert p Hr.
  induction Hs as [prompt best | idx rest prompt best e | idx rest prompt best c Hc Hlt
                  | idx rest prompt best c e Hc Hge
                  | idx rest prompt best c prompt' h r Hc Hge Hs IH];
    intros p Hr Hb Hno Hone; try discriminate.
  - by inversion Hr.
  - inversion Hr; subst. specialize (Hno idx p c). unfold ratio in Hno.
    rewrite Hno in Hlt; [discriminate|]. apply list_elem_of_here.
  - subst r. specialize (IH p eq_refl).
    assert (Hsame : best_after (truediv_int c n) prompt best = best).
    { unfold best_after. rewrite Hb. fold (ratio c).
      by rewrite (Hone idx prompt c (list_elem_of_here _ _)). }
    rewrite Hsame in IH. apply IH; [done| |].
    + intros i q d Hin. eapply Hno. apply list_elem_of_further, Hin.
    + intros i q d Hin. eapply Hone. apply list_elem_of_further, Hin.
Qed.

End BestPrompt.

Lemma Q_fltb_lt (a b : Q) : fltb a b = true <-> (a < b)%Q.
Proof.
  cbn [fltb Q_float]. rewrite Qlt_alt. destruct (a ?= b)%Q; split; congruence.
Qed.

Lemma Q_fltb_ge (a b : Q) : fltb a b = false <-> (b <= a)%Q.
Proof.
  split.
  - intros E. apply Qnot_lt_le. intros Hlt. apply Q_fltb_lt in Hlt. congruence.
  - intros Hle. destruct (fltb a b) eqn:E; [|done].
    apply Q_fltb_lt in E. apply Qlt_not_le in E. contradiction.
Qed.

(** The rationals satisfy the order laws. *)
#[global] Instance Q_float_order : FloatOrder Q.
Proof.
  split.
  - intros a. apply Q_fltb_ge. apply Qle_refl.
  - intros a b c Hab Hbc. apply Q_fltb_lt in Hab, Hbc. apply Q_fltb_lt.
    eapply Qlt_trans; eauto.
  - intros a b c Hab. apply Q_fltb_lt in Hab.
    destruct (Qlt_le_dec a c) as [Hac|Hca].
    + left. by apply Q_fltb_lt.
    + right. apply Q_fltb_lt. eapply Qle_lt_trans; eauto.
  - intros c n Hc Hn. apply Q_fltb_ge. cbn [truediv_int Q_float fone].
    rewrite Qred_correct. apply Qle_shift_div_r.
    + change 0%Q with (inject_Z 0). rewrite <- Zlt_Qlt. lia.
    + rewrite Qmult_1_l. rewrite <- Zle_Qle. lia.
Qed.

Section BestPromptClaim.
Context {F : Type} `{FloatOrder F} {W : Type} `{!Collaborators W F}.
Import ProgramProcessor Pipeline.

(** C5, amended. When [training_n] is positive and the run returns a
    prompt, that prompt is the prompt of one of the rounds that ran. The
    retained best goes from round to round by [best_after]: replaced only
    by a round of a strictly lower ratio. When no round meets the threshold,
    the prompt returned is that of the first round of the lowest ratio,
    with every earlier round strictly higher and no later round lower; and
    it is the starting prompt when no round is below [1.0]. *)
Theorem best_prompt_is_first_lowest_round model crd sd (st st' : State F W) p :
  0 < training_n (config st) ->
  run_training_phase model crd sd st = (Ok p, st') ->
  let n := training_n (config st) in
  let thr := training_threshold (config st) in
  exists t, trace st' = trace st ++ t /\
    (exists idx c, (idx, p, c) ∈ rounds_of t) /\
    shape n thr [0; 1; 2; 3] generation_prompt (fone, generation_prompt) (rounds_of t) (Ok p) /\
    ((forall idx q c, (idx, q, c) ∈ rounds_of t -> fltb (ratio n c) thr = false) ->
     (exists bf, first_lowest n (rounds_of t) (bf, p)) /\
     ((forall idx q c, (idx, q, c) ∈ rounds_of t -> fltb (ratio n c) fone = false) ->
      p = generation_prompt)).
Proof.
  intros Hn E n thr. unfold run_training_phase in E.
  rewrite bind_eq in E. cbn [get_config] in E.
  destruct (training_n (config st) <=? 0) eqn:Hle; [apply Z.leb_le in Hle; lia|].
  rewrite range_4 in E.
  apply training_rounds_run in E as (_ & t & Ht & Hs & _); [|done].
  fold n thr in Hs. exists t. split; [done|]. split; [|split; [done|]].
  - apply (shape_evaluated n thr _ _ _ _ _ Hs []). left. done.
  - intros Hno. split.
    + apply (shape_fallback n thr Hn _ _ _ _ _ Hs Hno []). left. done.
    + intros Hone. apply (shape_default n thr _ _ _ _ _ Hs eq_refl Hno Hone).
Qed.

End BestPromptClaim.

(** C5 as stated fails when [training_n] is zero: the run returns the
    starting prompt and no round has run. *)
Lemma prompt_returned_without_any_round :
  ~ (forall (st st' : State Q Script.World) model crd sd p,
       Pipeline.run_training_phase model crd sd st = (Ok p, st') ->
       exists t, trace st' = trace st ++ t /\ exists idx c, (idx, p, c) ∈ rounds_of t).
Proof.
  intros Hall.
  pose (st := Script.start (Script.scripted [] [] []) (Script.args_for 0 (1 # 2)%Q true)
                (fun _ => O)).
  destruct (Hall st st "deepseek/deepseek-chat" "/run" "/src" Pipeline.generation_prompt eq_refl)
    as (t & Ht & idx & c & Hin).
  cbn [trace st Script.start] in Ht. cbn [app] in Ht. subst t.
  cbn in Hin. by apply elem_of_nil in Hin.
Qed.

(** ** Ordered selections *)

(** The ordered selections of [k] items at distinct positions of [l]. *)
Fixpoint kperms {A} (k : nat) (l : list A) : list (list A) :=
  match k with
  | O => [[]]
  | S k' =>
      flat_map (fun j => match l !! j with
                         | Some x => map (cons x) (kperms k' (delete j l))
                         | None => []
                         end)
               (seq 0 (length l))
  end.

(** The falling factorial [n (n-1) ... (n-k+1)]. *)
Fixpoint ffact (n k : nat) : nat :=
  match k with
  | O => 1
  | S k' => n * ffact (n - 1) k'
  end.

Section Selections.
Context {A : Type}.

Lemma flat_map_const_length {B C} (f : B -> list C) (xs : list B) (c : nat) :
  (forall x, In x xs -> length (f x) = c) -> length (flat_map f xs) = (length xs * c)%nat.
Proof.
  induction xs as [|x xs IH]; intros Hf; cbn [flat_map length]; [done|].
  rewrite length_app, IH, Hf; [lia | by left | intros y Hy; apply Hf; by right].
Qed.

Lemma kperms_length k (l : list A) : length (kperms k l) = ffact (length l) k.
Proof.
  revert l. induction k as [|k IH]; intros l; cbn [kperms ffact]; [done|].
  rewrite (flat_map_const_length _ _ (ffact (length l - 1) k)).
  - by rewrite length_seq.
  - intros j Hj. apply in_seq in Hj.
    destruct (lookup_lt_is_Some_2 l j) as [x Hx]; [lia|].
    rewrite Hx, length_map, IH, length_delete by eauto. reflexivity.
Qed.

Lemma ffact_fact n k : (k <= n)%nat -> fact n = (ffact n k * fact (n - k))%nat.
Proof.
  revert n. induction k as [|k IH]; intros n Hk; cbn [ffact].
  - rewrite Nat.sub_0_r. lia.
  - destruct n as [|n]; [lia|]. cbn [fact]. replace (S n - 1)%nat with n by lia.
    rewrite (IH n) by lia. replace (S n - S k)%nat with (n - k)%nat by lia.
    change (S n * (ffact n k * fact (n - k)))%nat with
      ((ffact n k * fact (n - k)) + n * (ffact n k * fact (n - k)))%nat. lia.
Qed.

Lemma ffact_gt n k : (n < k)%nat -> ffact n k = 0%nat.
Proof.
  revert n. induction k as [|k IH]; intros n Hk; cbn [ffact]; [lia|].
  destruct n as [|n]; [lia|]. rewrite IH; lia.
Qed.

End Selections.

Section DrawFacts.
Context {F : Type} `{FloatOps F} {W : Type} `{!Collaborators W F}.

(** Drawing touches the generator only, and gives an ordered selection. *)
Lemma draw_selection {A} (pool : list A) k (st : State F W) :
  (k <= length pool)%nat ->
  exists sel st', draw pool k st = (Ok sel, st') /\
    sel ∈ kperms k pool /\
    config st' = config st /\ trace st' = trace st /\ world st' = world st.
Proof.
  revert pool st. induction k as [|k IH]; intros pool st Hk; cbn [draw kperms].
  - exists [], st. split; [done|]. split; [apply list_elem_of_here | done].
  - rewrite bind_eq. cbn [randbelow].
    set (j := (tape (random st) (cursor (random st)) `mod` length pool)%nat).
    assert (Hj : (j < length pool)%nat) by (apply Nat.mod_upper_bound; lia).
    destruct (lookup_lt_is_Some_2 pool j Hj) as [x Hx]. rewrite Hx.
    rewrite bind_eq.
    match goal with |- context [draw _ k ?s] =>
      destruct (IH (delete j pool) s) as (rest & st' & Er & Hin & Hc & Ht & Hw) end.
    { rewrite length_delete by eauto. lia. }
    rewrite Er. exists (x :: rest), st'. split; [done|].
    split; [|done].
    apply list_elem_of_In, in_flat_map. exists j. split; [apply in_seq; lia|].
    rewrite Hx. apply in_map, list_elem_of_In, Hin.
Qed.

End DrawFacts.

(** ** The sampler of [circuit_assembler.py] *)

Section SamplerFacts.
Context {F : Type} `{FloatOps F} {W : Type} `{!Collaborators W F}.
Import CircuitAssembler.

(** The selections handed to the assembler, in order. *)
Definition attempted (t : list (event F)) : list (list string) :=
  omap (fun e => match e with EvAssemble files _ _ => Some files | _ => None end) t.

(** Every ordered selection of [lo] to [hi] of the files. *)
Definition possible (files : list string) (lo hi : Z) : list (list string) :=
  flat_map (fun k => kperms (Z.to_nat k) files) (range2 lo (hi + 1)).

Lemma attempted_app t1 t2 : attempted (t1 ++ t2) = attempted t1 ++ attempted t2.
Proof. apply omap_app. Qed.

Lemma zsum_acc l a : fold_left Z.add l a = a + zsum l.
Proof.
  unfold zsum. revert a. induction l as [|x l IH]; intros a; cbn [fold_left]; [lia|].
  rewrite (IH (a + x)), (IH (0 + x)). lia.
Qed.

Lemma zsum_cons x l : zsum (x :: l) = x + zsum l.
Proof. unfold zsum at 1. cbn [fold_left]. rewrite zsum_acc. lia. Qed.

Lemma len_flat_map {B C} (f : B -> list C) (xs : list B) :
  len (flat_map f xs) = zsum (map (fun x => len (f x)) xs).
Proof.
  unfold len. induction xs as [|x xs IH]; cbn [flat_map map]; [done|].
  rewrite length_app, zsum_cons, <- IH. lia.
Qed.

Lemma math_perm_ffact n k :
  0 <= n -> 0 <= k -> math_perm n k = Z.of_nat (ffact (Z.to_nat n) (Z.to_nat k)).
Proof.
  intros Hn Hk. unfold math_perm. destruct (n <? k) eqn:Hlt.
  - apply Z.ltb_lt in Hlt. rewrite ffact_gt by lia. reflexivity.
  - apply Z.ltb_ge in Hlt.
    rewrite (ffact_fact (Z.to_nat n) (Z.to_nat k)) by lia.
    replace (Z.to_nat (n - k)) with (Z.to_nat n - Z.to_nat k)%nat by lia.
    rewrite Nat2Z.inj_mul, Z.div_mul; [done|].
    pose proof (lt_O_fact (Z.to_nat n - Z.to_nat k)). lia.
Qed.

(** The count of the possible selections is the bound of the source. *)
Lemma possible_count (files : list string) lo hi :
  0 <= lo -> len (possible files lo hi) = max_unique_combinations (len files) lo hi.
Proof.
  intros Hlo. unfold possible, max_unique_combinations, permutation_count.
  rewrite len_flat_map. f_equal. apply map_ext_in. intros k Hk.
  unfold range2 in Hk. apply in_map_iff in Hk as (i & <- & _).
  unfold len at 1. rewrite kperms_length, math_perm_ffact; unfold len; try lia.
  by rewrite Nat2Z.id.
Qed.

Lemma randint_run lo hi (st : State F W) :
  lo <= hi ->
  exists k st1, randint lo hi st = (Ok k, st1) /\ lo <= k <= hi /\
    config st1 = config st /\ trace st1 = trace st /\ world st1 = world st.
Proof.
  intros Hle. unfold randint. destruct (hi <? lo) eqn:Hlt; [apply Z.ltb_lt in Hlt; lia|].
  rewrite bind_eq. cbn [randbelow].
  eexists _, _. split; [reflexivity|]. split; [|done].
  pose proof (Nat.mod_upper_bound (tape (random st) (cursor (random st)))
                (Z.to_nat (hi - lo + 1))). lia.
Qed.

Lemma sample_run (files : list string) k (st : State F W) :
  0 <= k <= len files ->
  exists sel st1, sample files k st = (Ok sel, st1) /\ sel ∈ kperms (Z.to_nat k) files /\
    config st1 = config st /\ trace st1 = trace st /\ world st1 = world st.
Proof.
  intros Hk. unfold sample.
  destruct (k <? 0) eqn:H1; [apply Z.ltb_lt in H1; lia|].
  destruct (len files <? k) eqn:H2; [apply Z.ltb_lt in H2; lia|].
  cbn [orb]. apply draw_selection. unfold len in Hk. lia.
Qed.

Lemma kperms_possible (files : list string) lo hi k sel :
  lo <= k <= hi -> sel ∈ kperms (Z.to_nat k) files -> sel ∈ possible files lo hi.
Proof.
  intros Hk Hin. unfold possible. apply list_elem_of_In, in_flat_map. exists k.
  split; [|by apply list_elem_of_In].
  unfold range2. apply in_map_iff. exists (Z.to_nat (k - lo)).
  split; [lia|]. apply in_seq. lia.
Qed.

End SamplerFacts.

Section SamplerLoop.
Context {F : Type} `{FloatOps F} {W : Type} `{!Collaborators W F}.
Import CircuitAssembler.

Variable args : Args.
Variable files : list string.
Variable eff : Z.
Hypothesis bounds : 1 <= min_files args <= eff /\ eff <= len files.

(** What one iteration does to the loop variables, and the events it adds:
    a duplicate draw, a successful assembly, or a failed one. *)
Inductive body_step (s : LoopState) : list (event F) -> LoopState -> Prop :=
| step_duplicate sel :
    sel ∈ seen_combinations s ->
    body_step s []
      {| seen_combinations := seen_combinations s;
         generated_count := generated_count s;
         failed_count := failed_count s;
         attempts_without_progress := attempts_without_progress s + 1 |}
| step_success sel out :
    sel ∉ seen_combinations s -> sel ∈ possible files (min_files args) eff ->
    body_step s [EvAssemble sel out (generated_count s)]
      {| seen_combinations := {[sel]} ∪ seen_combinations s;
         generated_count := generated_count s + 1;
         failed_count := failed_count s;
         attempts_without_progress := 0 |}
| step_failure sel out exc :
    sel ∉ seen_combinations s -> sel ∈ possible files (min_files args) eff ->
    body_step s [EvAssemble sel out (generated_count s);
                 EvLog (logfile_path args) (LogAssembleFailed sel exc)]
      {| seen_combinations := {[sel]} ∪ seen_combinations s;
         generated_count := generated_count s;
         failed_count := failed_count s + 1;
         attempts_without_progress := attempts_without_progress s + 1 |}.

(** An iteration returns by one of the three steps; it raises only when the
    assembler raises something that is not an [Exception]. *)
Lemma loop_body_run s (st st' : State F W) r :
  loop_body args files eff s st = (r, st') ->
  exists t1, trace st' = trace st ++ t1 /\ config st' = config st /\
    match r with
    | Ok s' => body_step s t1 s'
    | Raised e =>
        exists sel out c, t1 = [EvAssemble sel out (generated_count s)] /\
          (sel ∉ seen_combinations s) /\ (sel ∈ possible files (min_files args) eff) /\
          e = SystemExit c
    end.
Proof.
  intros E. unfold loop_body in E. rewrite bind_eq in E.
  destruct (randint_run (min_files args) eff st) as (k & st1 & Ek & Hk & Hc1 & Ht1 & _);
    [lia|].
  rewrite Ek in E. rewrite bind_eq in E.
  destruct (sample_run files k st1) as (sel & st2 & Es & Hsel & Hc2 & Ht2 & _); [lia|].
  rewrite Es in E.
  assert (Hposs : sel ∈ possible files (min_files args) eff)
    by (eapply kperms_possible; eauto).
  destruct (bool_decide (sel ∈ seen_combinations s)) eqn:Hd.
  - apply bool_decide_eq_true in Hd. inversion E; subst. exists [].
    rewrite app_nil_r. split; [congruence|]. split; [congruence|].
    by apply step_duplicate with (sel := sel).
  - apply bool_decide_eq_false in Hd. unfold try_except in E.
    rewrite bind_eq in E. cbn [emit] in E. rewrite bind_eq in E. unfold call in E.
    cbn [world with_trace] in E.
    destruct (assemble sel _ _ _ (world st2)) as [[[]|[msg|c]] w].
    + inversion E; subst. eexists [_].
      cbn [trace config with_world with_trace].
      split; [rewrite Ht2, Ht1; reflexivity|]. split; [congruence|].
      by apply step_success.
    + rewrite bind_eq in E. unfold logging in E. cbn [emit] in E. inversion E; subst.
      eexists [_; _]. cbn [trace config with_world with_trace].
      split; [rewrite Ht2, Ht1, <- app_assoc; reflexivity|]. split; [congruence|].
      by apply step_failure.
    + inversion E; subst. eexists [_].
      cbn [trace config with_world with_trace].
      split; [rewrite Ht2, Ht1; reflexivity|]. split; [congruence|].
      eexists _, _, _. eauto.
Qed.

(** The trace holds no selection twice, and only possible ones. *)
Definition trace_ok (t : list (event F)) : Prop :=
  NoDup (attempted t) /\ forall x, x ∈ attempted t -> x ∈ possible files (min_files args) eff.

(** The loop variables agree with the trace. *)
Definition sampler_inv (s : LoopState) (t : list (event F)) : Prop :=
  trace_ok t /\
  (forall x, x ∈ attempted t -> x ∈ seen_combinations s) /\
  generated_count s + failed_count s = len (attempted t) /\
  0 <= generated_count s /\ 0 <= failed_count s /\ 0 <= attempts_without_progress s.

Lemma trace_ok_snoc t sel out idx :
  trace_ok t -> sel ∉ attempted t -> sel ∈ possible files (min_files args) eff ->
  attempted (t ++ [EvAssemble sel out idx]) = attempted t ++ [sel] /\
  trace_ok (t ++ [EvAssemble sel out idx]).
Proof.
  intros [Hnd Hp] Hn Hs. unfold trace_ok. rewrite attempted_app.
  change (attempted [EvAssemble sel out idx]) with [sel].
  split; [done|]. split.
  - apply NoDup_app. split; [done|]. split; [|apply NoDup_singleton].
    intros x Hx Hx'. apply list_elem_of_singleton in Hx'. by subst.
  - intros x Hx. apply elem_of_app in Hx as [Hx|Hx]; [eauto|].
    apply list_elem_of_singleton in Hx. by subst.
Qed.

Lemma body_step_inv s t t1 s' :
  sampler_inv s t -> body_step s t1 s' -> sampler_inv s' (t ++ t1).
Proof.
  intros (Hok & Hseen & Hcnt & Hg & Hf & Ha) Hstep.
  destruct Hstep as [sel Hin | sel out Hnin Hp | sel out exc Hnin Hp]; unfold sampler_inv;
    cbn [seen_combinations generated_count failed_count attempts_without_progress].
  - rewrite app_nil_r. split; [done|]. split; [done|]. lia.
  - destruct (trace_ok_snoc t sel out (generated_count s) Hok) as [Hatt Hok']; [eauto|done|].
    split; [done|]. rewrite Hatt. split.
    + intros x Hx. apply elem_of_union.
      apply elem_of_app in Hx as [Hx|Hx]; [right; eauto|].
      apply list_elem_of_singleton in Hx. left. by apply elem_of_singleton.
    + unfold len in *. rewrite length_app. cbn [length]. lia.
  - destruct (trace_ok_snoc t sel out (generated_count s) Hok) as [Hatt Hok']; [eauto|done|].
    replace (t ++ [EvAssemble sel out (generated_count s);
                   EvLog (logfile_path args) (LogAssembleFailed sel exc)])
      with ((t ++ [EvAssemble sel out (generated_count s)]) ++
            [EvLog (logfile_path args) (LogAssembleFailed sel exc)])
      by (by rewrite <- app_assoc).
    assert (Hatt' : attempted ((t ++ [EvAssemble sel out (generated_count s)]) ++
                               [EvLog (logfile_path args) (LogAssembleFailed sel exc)])
                    = attempted t ++ [sel]).
    { rewrite attempted_app, Hatt. cbn. by rewrite app_nil_r. }
    split; [unfold trace_ok; rewrite Hatt', <- Hatt; exact Hok'|].
    rewrite Hatt'. split.
    + intros x Hx. apply elem_of_union.
      apply elem_of_app in Hx as [Hx|Hx]; [right; eauto|].
      apply list_elem_of_singleton in Hx. left. by apply elem_of_singleton.
    + unfold len in *. rewrite length_app. cbn [length]. lia.
Qed.

(** At most as many selections are tried as there are possible ones. *)
Lemma trace_ok_bound t :
  trace_ok t -> len (attempted t) <= max_unique_combinations (len files) (min_files args) eff.
Proof.
  intros [Hnd Hp]. rewrite <- possible_count by lia. unfold len.
  apply inj_le, submseteq_length, NoDup_submseteq; done.
Qed.


Variable target limit : Z.

(** The events of the loop: assemblies and the log lines of failed ones. *)
Definition loop_event (e : event F) : bool :=
  match e with
  | EvAssemble _ _ _ => true
  | EvLog _ (LogAssembleFailed _ _) => true
  | _ => false
  end.

Lemma body_step_events s t1 s' : body_step s t1 s' -> forallb loop_event t1 = true.
Proof. by destruct 1. Qed.

(** A run of the loop keeps the invariant; when it ends by itself, the
    loop condition is false. *)
Lemma sampling_loop_run fuel s (st st' : State F W) r t0 :
  sampler_inv s t0 -> generated_count s <= target ->
  sampling_loop fuel args files eff target limit s st = (r, st') ->
  exists t, trace st' = trace st ++ t /\ config st' = config st /\
    trace_ok (t0 ++ t) /\ forallb loop_event t = true /\
    match r with
    | Ok (Some s') =>
        sampler_inv s' (t0 ++ t) /\ generated_count s' <= target /\
        loop_cond target limit s' = false
    | _ => True
    end.
Proof.
  revert s st t0. induction fuel as [|fuel IH]; intros s st t0 Hinv Hg E;
    cbn [sampling_loop] in E; destruct (loop_cond target limit s) eqn:Hcond.
  - inversion E; subst. exists []. rewrite !app_nil_r. split; [done|]. split; [done|].
    split; [apply Hinv | done].
  - inversion E; subst. exists []. rewrite !app_nil_r. split; [done|]. split; [done|].
    split; [apply Hinv | done].
  - rewrite bind_eq in E.
    destruct (loop_body args files eff s st) as [[s1|e] st1] eqn:Eb;
      destruct (loop_body_run _ _ _ _ Eb) as (t1 & Ht1 & Hc1 & Hstep).
    + pose proof (body_step_inv _ _ _ _ Hinv Hstep) as Hinv1.
      assert (Hg1 : generated_count s1 <= target).
      { unfold loop_cond in Hcond. apply andb_prop in Hcond as [Hlt _].
        apply Z.ltb_lt in Hlt.
        destruct Hstep; cbn [generated_count]; lia. }
      destruct (IH _ _ _ Hinv1 Hg1 E) as (t2 & Ht2 & Hc2 & Hok & Hev & Hres).
      exists (t1 ++ t2). rewrite Ht2, Ht1, <- !app_assoc. split; [done|].
      split; [congruence|]. rewrite app_assoc. split; [done|].
      split; [|done]. rewrite forallb_app, Hev, (body_step_events _ _ _ Hstep). done.
    + inversion E; subst. destruct Hstep as (sel & out & c & -> & Hnin & Hp & ->).
      exists [EvAssemble sel out (generated_count s)]. split; [done|]. split; [done|].
      split; [|done].
      apply trace_ok_snoc; [apply Hinv | | done].
      intros Hin. apply Hnin. by apply Hinv.
  - inversion E; subst. exists []. rewrite !app_nil_r. split; [done|]. split; [done|].
    split; [apply Hinv | done].
Qed.

(** The iterations the loop can still make. *)
Definition remaining (s : LoopState) : nat :=
  (Z.to_nat (target - generated_count s) * (Z.to_nat limit + 1)
   + Z.to_nat (limit - attempts_without_progress s))%nat.

Lemma body_step_remaining s t1 s' :
  loop_cond target limit s = true -> body_step s t1 s' -> (remaining s' < remaining s)%nat.
Proof.
  unfold loop_cond. intros Hcond Hstep. apply andb_prop in Hcond as [Hg Ha].
  apply Z.ltb_lt in Hg, Ha. unfold remaining.
  destruct Hstep; cbn [generated_count attempts_without_progress]; try lia.
  replace (Z.to_nat (target - generated_count s))
    with (S (Z.to_nat (target - (generated_count s + 1)))) by lia.
  rewrite Z.sub_0_r. lia.
Qed.

(** The loop of [main] terminates: with the fuel [remaining s] or more it
    never runs out of fuel, and it ends with its condition false or with
    what the assembler raised. *)
Theorem sampling_loop_ends fuel s (st : State F W) :
  (remaining s <= fuel)%nat ->
  exists r st', sampling_loop fuel args files eff target limit s st = (r, st') /\
    r <> Ok None /\
    forall s', r = Ok (Some s') -> loop_cond target limit s' = false.
Proof.
  revert s st. induction fuel as [|fuel IH]; intros s st Hfuel;
    cbn [sampling_loop]; destruct (loop_cond target limit s) eqn:Hcond.
  - exfalso. unfold loop_cond in Hcond. apply andb_prop in Hcond as [Hg Ha].
    apply Z.ltb_lt in Hg, Ha. unfold remaining in Hfuel. lia.
  - eexists _, _. split; [reflexivity|]. split; [done|]. intros s' E. by inversion E; subst.
  - rewrite bind_eq.
    destruct (loop_body args files eff s st) as [[s1|e] st1] eqn:Eb.
    + destruct (loop_body_run _ _ _ _ Eb) as (t1 & _ & _ & Hstep).
      apply IH. pose proof (body_step_remaining _ _ _ Hcond Hstep). lia.
    + eexists _, _. split; [reflexivity|]. split; [done|]. discriminate.
  - eexists _, _. split; [reflexivity|]. split; [done|]. intros s' E. by inversion E; subst.
Qed.

End SamplerLoop.

Section SamplerClaims.
Context {F : Type} `{FloatOps F} {W : Type} `{!Collaborators W F}.
Import CircuitAssembler.

Lemma attempted_loop_free (t : list (event F)) :
  forallb (fun e => negb (loop_event e)) t = true -> attempted t = [].
Proof.
  induction t as [|e t IH]; [done|]. cbn [forallb]. intros Ht.
  apply andb_prop in Ht as [He Ht]. cbn [attempted omap list_omap]. fold (attempted t).
  rewrite (IH Ht). by destruct e.
Qed.

Lemma max_unique_nonneg n lo hi : 0 <= max_unique_combinations n lo hi.
Proof.
  unfold max_unique_combinations. generalize (range2 lo (hi + 1)). intros l.
  induction l as [|k l IH]; [done|]. cbn [map]. rewrite zsum_cons.
  assert (0 <= permutation_count n k); [|lia].
  unfold permutation_count, math_perm. destruct (n <? k); [done|].
  apply Z.div_pos; [lia|]. pose proof (lt_O_fact (Z.to_nat (n - k))). lia.
Qed.

(** C2. With [n] files and [1 <= min_files <= max_files <= n], whatever the
    draws and whatever the assembler does: no selection is handed to the
    assembler twice; at most [sum P(n,k)] selections are handed to it; a
    request above that bound is capped to it, and the cap is the first
    thing logged, before any draw; and the count of generated circuits
    reported at the end is within the capped target. For 5 files and 2 to 3
    per assembly the bound is 80, and a request of 500 is capped to 80. *)
Theorem sampler_bounded_and_never_repeats :
  (max_unique_combinations 5 2 3 = 80 /\ Z.min 500 (max_unique_combinations 5 2 3) = 80) /\
  forall fuel args files (st st' : State F W) r,
    1 <= min_files args -> min_files args <= max_files args ->
    max_files args <= len files -> 1 <= n_generations args ->
    main_with_files fuel args files st = (r, st') ->
    let bound := max_unique_combinations (len files) (min_files args) (max_files args) in
    exists t, trace st' = trace st ++ t /\
      NoDup (attempted t) /\
      len (attempted t) <= bound /\
      (bound < n_generations args ->
       exists post,
         t = EvLog (logfile_path args) (LogCapping (n_generations args) bound bound) :: post) /\
      (forall status, r = Ok (Some status) ->
       exists pre g f,
         t = pre ++ [EvLog (logfile_path args) (LogComplete g f (n_generations args))] /\
         0 <= g <= Z.min (n_generations args) bound /\
         g + f = len (attempted t)).
Proof.
  split; [split; reflexivity|].
  intros fuel args files st st' r Hmin Hmm Hmax Hgen E bound.
  unfold main_with_files in E.
  rewrite (Z.min_l (max_files args) (len files)) in E by lia. fold bound in E.
  destruct (len files <? min_files args) eqn:Hlt; [apply Z.ltb_lt in Hlt; lia|].
  pose proof (max_unique_nonneg (len files) (min_files args) (max_files args)) as Hb.
  fold bound in Hb.
  set (target := Z.min (n_generations args) bound) in *.
  set (limit := Z.max 1000 (target * 25)) in *.
  rewrite bind_eq in E.
  (* the cap *)
  set (cap := if target <? n_generations args
              then [EvLog (logfile_path args) (LogCapping (n_generations args) bound target)]
              else [] : list (event F)).
  assert (Hcap : exists st1,
             (if target <? n_generations args
              then logging args (LogCapping (n_generations args) bound target)
              else ret ()) st = (Ok tt, st1) /\
             trace st1 = trace st ++ cap /\ config st1 = config st).
  { unfold cap. destruct (target <? n_generations args).
    - eexists. split; [reflexivity|]. done.
    - exists st. rewrite app_nil_r. done. }
  destruct Hcap as (st1 & E1 & Ht1 & _). rewrite E1 in E.
  rewrite bind_eq in E. unfold logging at 1 in E. cbn [emit] in E.
  rewrite bind_eq in E. cbn [emit with_trace trace] in E.
  rewrite bind_eq in E.
  match type of E with context [sampling_loop _ _ _ _ _ _ _ ?s0] =>
    destruct (sampling_loop fuel args files (max_files args) target limit
                initial_loop_state s0) as [rl st2] eqn:El end.
  assert (Hinv0 : sampler_inv args files (max_files args) initial_loop_state ([] : list (event F))).
  { repeat split; try done; try apply NoDup_nil_2.
    all: intros x Hx; by apply elem_of_nil in Hx. }
  destruct (sampling_loop_run args files (max_files args) (conj (conj Hmin Hmm) Hmax)
              target limit _ _ _ _ _ [] Hinv0 ltac:(cbn; lia) El)
    as (tl & Htl & _ & Hok & Hev & Hres).
  cbn [app] in Hok, Hres. cbn [trace with_trace] in Htl.
  set (pre0 := cap ++ [EvLog (logfile_path args) (LogFound (len files));
                       EvPrint (LogFound (len files))]).
  assert (Hpre0 : attempted pre0 = []).
  { unfold pre0, cap. by destruct (target <? n_generations args). }
  assert (Hcapped : bound < n_generations args ->
            forall rest, exists post,
              (pre0 ++ rest) =
              EvLog (logfile_path args) (LogCapping (n_generations args) bound bound) :: post).
  { intros Hlt' rest. unfold pre0, cap.
    assert (Htb : target = bound) by (unfold target; lia). rewrite Htb.
    destruct (bound <? n_generations args) eqn:Hc; [|apply Z.ltb_ge in Hc; lia].
    eexists. reflexivity. }
  assert (Hbase : trace st2 = trace st ++ pre0 ++ tl).
  { rewrite Htl, Ht1. unfold pre0. by rewrite <- !app_assoc. }
  destruct rl as [[s|]|e].
  - (* the loop ended *)
    destruct Hres as (Hinv & Hg & _).
    destruct Hinv as (_ & _ & Hcnt & Hg0 & Hf0 & _).
    rewrite bind_eq in E.
    set (early := if generated_count s <? target
                  then [EvLog (logfile_path args) (LogStoppedEarly (generated_count s))]
                  else [] : list (event F)).
    assert (Hearly : exists st3,
               (if generated_count s <? target
                then logging args (LogStoppedEarly (generated_count s))
                else ret ()) st2 = (Ok tt, st3) /\
               trace st3 = trace st2 ++ early).
    { unfold early. destruct (generated_count s <? target).
      - eexists. split; [reflexivity|]. done.
      - exists st2. rewrite app_nil_r. done. }
    destruct Hearly as (st3 & E3 & Ht3). rewrite E3 in E.
    rewrite bind_eq in E. unfold logging in E. cbn [emit] in E. inversion E; subst r st'.
    cbn [trace with_trace].
    assert (Hatt : attempted (pre0 ++ tl ++ early ++
                     [EvLog (logfile_path args)
                        (LogComplete (generated_count s) (failed_count s) (n_generations args))])
                   = attempted tl).
    { rewrite !attempted_app, Hpre0. cbn [app].
      replace (attempted early) with ([] : list (list string))
        by (unfold early; by destruct (generated_count s <? target)).
      cbn. by rewrite app_nil_r. }
    eexists (pre0 ++ tl ++ early ++ [_]).
    split; [rewrite Ht3, Hbase, <- !app_assoc; reflexivity|].
    rewrite Hatt. split; [apply Hok|]. split; [by apply (trace_ok_bound args files (max_files args))|].
    split; [intros Hlt'; apply (Hcapped Hlt')|].
    intros status _. exists (pre0 ++ tl ++ early), (generated_count s), (failed_count s).
    split; [by rewrite <- !app_assoc|]. split; [lia | done].
  - (* out of fuel *)
    inversion E; subst r st'. exists (pre0 ++ tl).
    split; [done|]. rewrite attempted_app, Hpre0. cbn [app].
    split; [apply Hok|]. split; [by apply (trace_ok_bound args files (max_files args))|].
    split; [intros Hlt'; apply (Hcapped Hlt')|]. discriminate.
  - (* the assembler raised *)
    inversion E; subst r st'. exists (pre0 ++ tl).
    split; [done|]. rewrite attempted_app, Hpre0. cbn [app].
    split; [apply Hok|]. split; [by apply (trace_ok_bound args files (max_files args))|].
    split; [intros Hlt'; apply (Hcapped Hlt')|]. discriminate.
Qed.

End SamplerClaims.

(** ** The stats aggregator *)

(** C8. The average quality score is taken over the candidates that have a
    score, for every arithmetic of floats. The scores kept are those that
    are not [None], in the order of the candidates, so their number is the
    number of candidates less the ones without a score; when there is one
    at least, the average is their sum divided by their number; a candidate
    without a score changes neither; and the summary reports that average.
    For the scores [a], none and [b] the average is [(0 + a + b) / 2], the
    sum and the division being the ones of the floats: the missing score
    adds no term to the sum and does not count in the divisor. *)
Theorem average_quality_over_scored_only (F : Type) (H : FloatOps F) :
  (forall (before after : list (GenerationStats F)) s,
     quality_score s = None ->
     Pipeline.quality_scores (before ++ s :: after) = Pipeline.quality_scores (before ++ after) /\
     Pipeline.avg_quality (before ++ s :: after) = Pipeline.avg_quality (before ++ after)) /\
  (forall (before after : list (GenerationStats F)) s q,
     quality_score s = Some q ->
     Pipeline.quality_scores (before ++ s :: after)
     = Pipeline.quality_scores before ++ q :: Pipeline.quality_scores after) /\
  (forall l : list (GenerationStats F),
     len (Pipeline.quality_scores l)
     = len l - len (filter (fun s => quality_score s = None) l)) /\
  (forall (l : list (GenerationStats F)) q qs,
     Pipeline.quality_scores l = q :: qs ->
     Pipeline.avg_quality l = fdiv (fold_left fadd qs (fadd (of_int 0) q)) (of_int (1 + len qs))) /\
  (forall model n total_time files (l : list (GenerationStats F)),
     s_avg_quality_score (Pipeline.aggregate model n total_time files l)
     = Pipeline.avg_quality l) /\
  (forall (s1 s2 s3 : GenerationStats F) a b,
     quality_score s1 = Some a -> quality_score s2 = None -> quality_score s3 = Some b ->
     Pipeline.avg_quality [s1; s2; s3] = fdiv (fadd (fadd (of_int 0) a) b) (of_int 2)).
Proof.
  split; [|split; [|split; [|split; [|split]]]].
  - intros before after s Hs.
    assert (E : Pipeline.quality_scores (before ++ s :: after)
                = Pipeline.quality_scores (before ++ after)).
    { unfold Pipeline.quality_scores. rewrite !omap_app. cbn [omap list_omap].
      by rewrite Hs. }
    split; [done|]. unfold Pipeline.avg_quality. by rewrite E.
  - intros before after s q Hs. unfold Pipeline.quality_scores.
    rewrite omap_app. cbn [omap list_omap]. by rewrite Hs.
  - intros l. unfold Pipeline.quality_scores, len.
    induction l as [|s l IH]; [reflexivity|].
    cbn [omap list_omap]. rewrite filter_cons.
    destruct (quality_score s) as [q|] eqn:Hq.
    + rewrite decide_False by done. cbn [length]. lia.
    + rewrite decide_True by done. cbn [length]. lia.
  - intros l q qs E. unfold Pipeline.avg_quality. rewrite E.
    unfold fsum, len. cbn [fold_left length]. do 2 f_equal. lia.
  - reflexivity.
  - intros s1 s2 s3 a b H1 H2 H3.
    unfold Pipeline.avg_quality, Pipeline.quality_scores. cbn [omap list_omap].
    rewrite H1, H2, H3. reflexivity.
Qed.

(** At exact rationals, the scores 8/10, none and 4/10 average to 3/5. *)
Lemma average_quality_witness :
  Pipeline.avg_quality [Script.stat (Some (8 # 10)); Script.stat None; Script.stat (Some (4 # 10))]
  = (3 # 5)%Q.
Proof.
  exact (proj2 (proj2 (proj2 (proj2 (proj2 (average_quality_over_scored_only Q Q_float)))))
           (Script.stat (Some (8 # 10))) (Script.stat None) (Script.stat (Some (4 # 10)))
           (8 # 10)%Q (4 # 10)%Q eq_refl eq_refl eq_refl).
Defined.

(** ** The sampler of [gen_w_improve.py] *)

(** C3 at [assemble_circuits]. With one file, a target of 100 and an
    assembler that raises: the first iteration tries the one selection, the
    failure leaves the counter of attempts at zero and adds no log line; the
    loop then ends when the counter of duplicate draws reaches 1000, not
    [max(1000, 100 * 25) = 2500], with one assembly tried and none logged. *)
Theorem assemble_circuits_ignores_failures :
  let st0 := Script.start Script.failing_assembler Script.args Script.zero_tape in
  let first := Pipeline.assemble_body "m" ["a.py"] "/run/assembled"
                 {| Pipeline.seen := ∅; Pipeline.count := 0; Pipeline.attempts := 0 |} st0 in
  let whole := Pipeline.assemble_circuits 2000 "m" ["a.py"] "/run" st0 in
  (exists s, first.1 = Ok (Some s) /\
     elements (Pipeline.seen s) = [["a.py"]] /\ Pipeline.count s = 0 /\
     Pipeline.attempts s = 0 /\
     trace first.2 = [EvAssemble ["a.py"] "/run/assembled/m_0.py" 0]) /\
  (exists s, whole.1 = Ok (Some s) /\
     Pipeline.count s = 0 /\ Pipeline.attempts s = 1000 /\
     Z.max 1000 (n_assemble Script.args * 25) = 2500 /\
     trace whole.2 = [EvMakedirs "/run/assembled";
                      EvAssemble ["a.py"] "/run/assembled/m_0.py" 0]).
Proof.
  vm_compute. split; eexists; repeat split; reflexivity.
Qed.

Section AssembleCircuitsFacts.
Context {F : Type} `{FloatOps F} {W : Type} `{!Collaborators W F}.
Import Pipeline.

(** An iteration of [assemble_circuits] either draws a duplicate, and adds
    one to the counter, or tries a new selection, and leaves the counter at
    zero whether the assembly succeeds or raises an [Exception]; a failure
    changes no other variable and adds no log line. *)
Lemma assemble_body_steps model files out s (st st' : State F W) s' :
  files <> [] ->
  assemble_body model files out s st = (Ok (Some s'), st') ->
  (attempts s' = attempts s + 1 /\ count s' = count s /\ trace st' = trace st) \/
  (attempts s' = 0 /\ (count s' = count s \/ count s' = count s + 1) /\
   exists sel output_file, trace st' = trace st ++ [EvAssemble sel output_file (count s)]).
Proof.
  intros Hne E. unfold assemble_body in E. rewrite bind_eq in E. cbn [get_config] in E.
  rewrite bool_decide_eq_true_2 in E by done. cbn [negb] in E.
  set (max_k := Z.min (n_circuits_per_assembly (config st)) (len files)) in *.
  set (max_k' := if max_k <? 1 then 1 else max_k) in *.
  assert (Hlen : 1 <= len files).
  { unfold len. destruct files; [done|]. cbn [length]. lia. }
  assert (Hk' : 1 <= max_k' <= len files).
  { unfold max_k'. destruct (max_k <? 1) eqn:Hlt; [lia|].
    apply Z.ltb_ge in Hlt. unfold max_k in *. lia. }
  rewrite bind_eq in E.
  destruct (randint_run 1 max_k' st) as (k & st1 & Ek & Hk & Hc1 & Ht1 & _); [lia|].
  rewrite Ek in E. rewrite bind_eq in E.
  destruct (sample_run files k st1) as (sel & st2 & Es & _ & Hc2 & Ht2 & _); [lia|].
  rewrite Es in E.
  destruct (bool_decide (sel ∈ seen s)).
  - inversion E; subst. left. cbn [attempts count]. split; [done|]. split; [done|]. congruence.
  - right. unfold try_except in E. rewrite bind_eq in E. cbn [emit] in E.
    rewrite bind_eq in E. unfold call in E. cbn [world with_trace] in E.
    destruct (assemble sel _ _ _ (world st2)) as [[[]|[msg|c]] w]; inversion E; subst;
      cbn [attempts count trace with_world with_trace];
      (split; [done|]); (split; [auto|]); eexists _, _; rewrite Ht2, Ht1; reflexivity.
Qed.

End AssembleCircuitsFacts.

Section SamplerTermination.
Context {F : Type} `{FloatOps F} {W : Type} `{!Collaborators W F}.
Import CircuitAssembler.

(** The sampler of [circuit_assembler.py] terminates: with fuel for
    [(target + 1) * (max(1000, target * 25) + 1)] iterations, [main] never
    runs out of fuel. *)
Theorem main_with_files_terminates args files (st : State F W) fuel :
  let bound := max_unique_combinations (len files) (min_files args)
                 (Z.min (max_files args) (len files)) in
  let target := Z.min (n_generations args) bound in
  let limit := Z.max 1000 (target * 25) in
  1 <= n_generations args ->
  1 <= min_files args -> min_files args <= max_files args -> min_files args <= len files ->
  (Z.to_nat ((target + 1) * (limit + 1)) <= fuel)%nat ->
  (main_with_files fuel args files st).1 <> Ok None.
Proof.
  intros bound target limit Hgen Hmin Hmm Hlen Hfuel. unfold main_with_files.
  destruct (len files <? min_files args) eqn:Hlt; [apply Z.ltb_lt in Hlt; lia|].
  fold bound target limit.
  rewrite bind_eq.
  destruct ((if target <? n_generations args
             then logging args (LogCapping (n_generations args) bound target)
             else ret ()) st) as [[[]|e] st1] eqn:E1; [|done].
  rewrite bind_eq. unfold logging at 1. cbn [emit]. rewrite bind_eq. cbn [emit].
  rewrite bind_eq.
  match goal with |- context [sampling_loop _ _ _ _ _ _ _ ?s0] =>
    destruct (sampling_loop_ends args files (Z.min (max_files args) (len files))
                ltac:(lia) target limit fuel initial_loop_state s0)
      as (r & st2 & El & Hr & _) end.
  { unfold remaining. cbn [generated_count attempts_without_progress initial_loop_state].
    rewrite !Z.sub_0_r.
    assert (0 <= limit) by (unfold limit; lia).
    assert (0 <= target).
    { pose proof (max_unique_nonneg (len files) (min_files args)
                    (Z.min (max_files args) (len files))).
      unfold target, bound. lia. }
    replace (Z.to_nat ((target + 1) * (limit + 1)))
      with ((Z.to_nat target + 1) * (Z.to_nat limit + 1))%nat in Hfuel by nia. nia. }
  rewrite El. destruct r as [[s|]|e]; [|done|done].
  rewrite bind_eq.
  destruct ((if generated_count s <? target
             then logging args (LogStoppedEarly (generated_count s))
             else ret ()) st2) as [[[]|e] st3] eqn:E3; [|done].
  rewrite bind_eq. unfold logging. cbn [emit]. done.
Qed.

End SamplerTermination.

(** ** The theorems at concrete candidates, runs and samples *)

Lemma first_compile_success_witness :
  Script.value Script.no_outcome (Script.run_candidate Script.easy_world false).1
  = (Some (os_path_join "/run/generated" [ProgramProcessor.filename Script.candidate]),
     stats (Script.run_candidate Script.easy_world false).2,
     list_set (encountered_errors (Script.run_candidate Script.easy_world false).2), false).
Proof.
  refine (proj1 (first_compile_success_skips_fixer Script.candidate "/run/generated"
                   "/run/failed" "generation_prompt.txt" false
                   (Script.initial Script.easy_world)
                   (Script.generated Script.easy_world false).2
                   (Script.compiled Script.easy_world false).2
                   (Script.run_candidate Script.easy_world false).2
                   (Some "c0") ""
                   (Script.value Script.no_outcome (Script.run_candidate Script.easy_world false).1)
                   _ _ _ _)); vm_compute; reflexivity.
Defined.

Lemma execution_failure_witness :
  (Script.checked Script.boundary_world false "c2").1 = Ok (false, "boom") /\
  (Script.run_candidate Script.boundary_world false).1
  = Ok (Some (os_path_join "/run/generated" [ProgramProcessor.filename Script.candidate]),
        stats (Script.checked Script.boundary_world false "c2").2,
        list_set (encountered_errors (Script.checked Script.boundary_world false "c2").2), true).
Proof.
  split; [vm_compute; reflexivity|].
  refine (f_equal fst
            (proj1 (execution_failure_keeps_fixed_code Script.candidate "/run/generated"
                      "/run/failed" "generation_prompt.txt"
                      (Script.initial Script.boundary_world)
                      (Script.generated Script.boundary_world false).2
                      (Script.compiled Script.boundary_world false).2
                      (Script.searched Script.boundary_world false).2
                      (Script.checked Script.boundary_world false "c2").2
                      (Some "c0") "E0" "c2" false "boom"
                      (world (Script.run_candidate Script.boundary_world false).2)
                      _ _ _ _ _ _))); vm_compute; reflexivity.
Defined.

Lemma failed_fix_witness :
  Script.value Script.no_outcome (Script.run_candidate Script.hopeless_world true).1
  = (None, stats (Script.run_candidate Script.hopeless_world true).2,
     list_set (encountered_errors (Script.run_candidate Script.hopeless_world true).2), true).
Proof.
  refine (proj1 (failed_fix_saves_original_code Script.candidate "/run/generated"
                   "/run/failed" "generation_prompt.txt" true
                   (Script.initial Script.hopeless_world)
                   (Script.generated Script.hopeless_world true).2
                   (Script.compiled Script.hopeless_world true).2
                   (Script.fixed Script.hopeless_world true).2
                   (Script.run_candidate Script.hopeless_world true).2
                   (Some "c0") "E0"
                   (Script.value Script.no_outcome
                      (Script.run_candidate Script.hopeless_world true).1)
                   _ _ _ _ _)); vm_compute; reflexivity.
Defined.

Lemma outcome_errors_witness :
  NoDup (Script.value Script.no_outcome
           (Script.run_candidate Script.boundary_world false).1).1.2.
Proof.
  refine (outcome_errors_no_duplicates Script.candidate "/run/generated" "/run/failed"
            "generation_prompt.txt" false (Script.initial Script.boundary_world)
            (Script.run_candidate Script.boundary_world false).2
            _ _ _ _ _ _); vm_compute; reflexivity.
Defined.

(** A round of two candidates to which the language model gives nothing:
    both are counted in [training_n], neither as fixed, the ratio is
    [0 / 2] and the round is accepted. *)
Lemma generation_failure_witness :
  exists futures : list (result (ProgramProcessor.Outcome (F:=Q))),
    len futures = 2 /\ 0 = fixed_count futures /\ 0 + no_code_count futures <= 2 /\
    (Script.training 2 (1 # 2) true).1 = Ok Pipeline.generation_prompt.
Proof.
  destruct (generation_failure_not_counted_as_fixed "deepseek/deepseek-chat" "/run" "/src"
              0 [1; 2; 3] Pipeline.generation_prompt Pipeline.generation_prompt 1%Q
              (Script.start Script.silent_world (Script.args_for 2 (1 # 2) true)
                 Script.zero_tape)
              (Script.training 2 (1 # 2) true).2 (Script.training 2 (1 # 2) true).1
              (trace (Script.training 2 (1 # 2) true).2) 0 Pipeline.generation_prompt 0 [])
    as (futures & _ & Hl & _ & Hc & _ & Hb & Hacc).
  - vm_compute. reflexivity.
  - vm_compute. reflexivity.
  - vm_compute. reflexivity.
  - vm_compute. reflexivity.
  - exists futures. split; [exact Hl|]. split; [exact Hc|]. split; [exact Hb|].
    apply Hacc. vm_compute. reflexivity.
Defined.

Lemma threshold_round_witness :
  exists t, trace (Script.training 2 (1 # 2) true).2 = [] ++ t /\
    rounds_of t = [(0, Pipeline.generation_prompt, 0)] /\ improvement_requests t = [].
Proof.
  destruct (threshold_round_is_accepted "deepseek/deepseek-chat" "/run" "/src"
              (Script.start Script.silent_world (Script.args_for 2 (1 # 2) true)
                 Script.zero_tape)
              (Script.training 2 (1 # 2) true).2 (Script.training 2 (1 # 2) true).1)
    as (t & Ht & _ & Hfirst).
  { vm_compute. reflexivity. }
  exists t. split; [exact Ht|].
  assert (Hr : rounds_of t = [(0, Pipeline.generation_prompt, 0)]).
  { change (trace (Script.training 2 (1 # 2) true).2 = t) in Ht. rewrite <- Ht.
    vm_compute. reflexivity. }
  split; [exact Hr|].
  destruct (Hfirst _ _ _ _ Hr) as (_ & _ & Hacc).
  destruct Hacc as (_ & _ & Himp); [vm_compute; reflexivity | exact Himp].
Defined.

Lemma best_prompt_witness :
  exists t, trace (Script.training 2 0 true).2 = [] ++ t /\
    exists idx c, (idx, Pipeline.generation_prompt, c) ∈ rounds_of t.
Proof.
  destruct (best_prompt_is_first_lowest_round "deepseek/deepseek-chat" "/run" "/src"
              (Script.start Script.silent_world (Script.args_for 2 0 true) Script.zero_tape)
              (Script.training 2 0 true).2 Pipeline.generation_prompt)
    as (t & Ht & Hev & _).
  { vm_compute. reflexivity. }
  { vm_compute. reflexivity. }
  exists t. split; [exact Ht | exact Hev].
Defined.

Lemma sampler_witness :
  exists t, trace Script.sampling.2 = [] ++ t /\
    NoDup (attempted t) /\
    len (attempted t)
    <= CircuitAssembler.max_unique_combinations (len Script.three_files) 1 2.
Proof.
  destruct (proj2 (sampler_bounded_and_never_repeats (F:=Q) (W:=Script.World))
              2000%nat Script.sampler_args Script.three_files
              (Script.initial Script.silent_world) Script.sampling.2 Script.sampling.1)
    as (t & Ht & Hnd & Hb & _).
  - vm_compute. discriminate.
  - vm_compute. discriminate.
  - vm_compute. discriminate.
  - vm_compute. discriminate.
  - vm_compute. reflexivity.
  - exists t. split; [exact Ht|]. split; [exact Hnd | exact Hb].
Defined.

(** * Further properties of the code *)

(** ** Counting the events of a run *)

(** How many events of the kind [k] a trace holds. *)
Definition count_kind {F} (k : kind) (t : list (event F)) : nat :=
  length (filter (fun e => kind_of e = k) t).

Section Counting.
Context {F : Type} `{FloatOps F} {W : Type} `{!Collaborators W F}.

Lemma count_kind_app k (t1 t2 : list (event F)) :
  count_kind k (t1 ++ t2) = (count_kind k t1 + count_kind k t2)%nat.
Proof. unfold count_kind. by rewrite filter_app, length_app. Qed.

Lemma count_kind_only k ks (t : list (event F)) : k ∉ ks -> only ks t -> count_kind k t = 0%nat.
Proof.
  intros Hk Ho. unfold count_kind. induction Ho as [|e t He Ho IH]; [done|].
  rewrite filter_cons_False; [exact IH|]. intros Heq. apply Hk. by rewrite <- Heq.
Qed.

(** From a state whose namespace satisfies [C], [m] leaves the namespace
    alone and adds at most [n] events of the kind [k]. *)
Definition bounded {A} (C : Config F -> Prop) (k : kind) (n : nat) (m : M F W A) : Prop :=
  forall st r st', C (config st) -> m st = (r, st') ->
    config st' = config st /\ exists t, trace st' = trace st ++ t /\ (count_kind k t <= n)%nat.

Lemma bounded_mono {A} C k n n' (m : M F W A) :
  (n <= n')%nat -> bounded C k n m -> bounded C k n' m.
Proof.
  intros Hn Hm st r st' HC E. destruct (Hm _ _ _ HC E) as (Hc & t & Ht & Hk).
  split; [done|]. exists t. split; [done | lia].
Qed.

Lemma bounded_footprint {A} C k ks (m : M F W A) :
  k ∉ ks -> footprint ks m -> bounded C k 0 m.
Proof.
  intros Hk Hm st r st' _ E. destruct (Hm _ _ _ E) as (Hc & t & Ht & Ho).
  split; [done|]. exists t. split; [done|]. by rewrite (count_kind_only k ks).
Qed.

Lemma bounded_bind {A B} C k n1 n2 n (m : M F W A) (f : A -> M F W B) :
  bounded C k n1 m -> (forall a, bounded C k n2 (f a)) -> (n1 + n2 <= n)%nat ->
  bounded C k n (m ≫= f).
Proof.
  intros Hm Hf Hn st r st' HC E. rewrite bind_eq in E.
  destruct (m st) as [[a|e] st1] eqn:Em; destruct (Hm _ _ _ HC Em) as (Hc1 & t1 & Ht1 & Hk1).
  - assert (HC1 : C (config st1)) by (by rewrite Hc1).
    destruct (Hf a _ _ _ HC1 E) as (Hc2 & t2 & Ht2 & Hk2).
    split; [congruence|]. exists (t1 ++ t2). rewrite Ht2, Ht1, app_assoc.
    split; [done|]. rewrite count_kind_app. lia.
  - inversion E; subst. split; [done|]. exists t1. split; [done | lia].
Qed.

(** The namespace read by [get_config] is the one the precondition spoke of. *)
Lemma bounded_get_config {B} (C : Config F -> Prop) k n (f : Config F -> M F W B) :
  (forall cfg, C cfg -> bounded (fun c => c = cfg) k n (f cfg)) ->
  bounded C k n (get_config ≫= f).
Proof.
  intros Hf st r st' HC E. rewrite bind_eq in E. cbn [get_config] in E.
  eapply (Hf (config st) HC); eauto.
Qed.

Lemma bounded_weaken {A} (C C' : Config F -> Prop) k n (m : M F W A) :
  (forall c, C c -> C' c) -> bounded C' k n m -> bounded C k n m.
Proof. intros HCC Hm st r st' HC E. eapply Hm; eauto. Qed.

Lemma bounded_emit C k (e : event F) : bounded C k 1 (emit e).
Proof.
  intros st r st' _ E. inversion E; subst. split; [done|]. exists [e]. split; [done|].
  unfold count_kind. pose proof (length_filter (fun e0 => kind_of e0 = k) [e]) as Hl.
  exact Hl.
Qed.

End Counting.

Ltac kind_notin :=
  let Hin := fresh "Hin" in
  intros Hin; repeat (apply elem_of_cons in Hin as [Hin|Hin]; [discriminate|]);
  by apply elem_of_nil in Hin.

(** The footprint of a term built from the primitives and the methods of the
    processor. *)
Ltac solve_footprint :=
  repeat first
    [ footprint_step
    | (eapply footprint_mono; [| apply generate_footprint]; kinds_incl)
    | (eapply footprint_mono; [| apply compile_check_footprint]; kinds_incl)
    | (eapply footprint_mono; [| apply run_check_footprint]; kinds_incl)
    | (eapply footprint_mono; [| apply fix_loop_footprint]; kinds_incl)
    | (eapply footprint_mono; [| apply fix_cycles_footprint]; kinds_incl) ].

(** [m] adds no event of the kind counted: its events are of the kinds [ks]. *)
Ltac quiet ks :=
  eapply bounded_mono;
  [ | apply (bounded_footprint _ _ ks); [kind_notin | solve [solve_footprint]] ]; lia.

(** The first part of a bind adds no event of the kind counted. *)
Ltac qstep ks :=
  match goal with
  | |- bounded _ _ ?n (_ ≫= _) =>
      eapply (bounded_bind _ _ 0 n n); [quiet ks | intros ? | lia]
  end.

Tactic Notation "qstep_as" constr(ks) simple_intropattern(p) :=
  match goal with
  | |- bounded _ _ ?n (_ ≫= _) =>
      eapply (bounded_bind _ _ 0 n n); [quiet ks | intros p | lia]
  end.

Section CandidateEffort.
Context {F : Type} `{FloatOps F} {W : Type} `{!Collaborators W F}.
Import ProgramProcessor.

Lemma compile_check_compiles C self code : bounded C KCompile 1 (compile_check self code).
Proof.
  unfold compile_check. do 2 qstep [KLog].
  eapply (bounded_bind _ _ 1 0 1); [apply bounded_emit | intros ? | lia].
  quiet [KLog].
Qed.

Lemma run_check_runs C self code : bounded C KRun 1 (run_check self code).
Proof.
  unfold run_check. do 2 qstep [KLog].
  eapply (bounded_bind _ _ 1 0 1); [apply bounded_emit | intros ? | lia].
  quiet [KLog].
Qed.

Lemma fix_cycles_requests C self cycles code err :
  bounded C KFix (length cycles) (fix_cycles self cycles code err).
Proof.
  revert code err. induction cycles as [|cycle rest IH]; intros code err; cbn [fix_cycles length].
  - quiet [KLog].
  - do 2 qstep [KLog]. destruct (negb _); [quiet [KLog]|].
    qstep [KLog].
    eapply (bounded_bind _ _ 1 (length rest)); [apply bounded_emit | intros ? | lia].
    qstep_as [KLog] [[fc u] er]. destruct (negb _); [quiet [KLog]|].
    do 3 qstep [KLog]. qstep_as [KLog; KCompile] [ok cerr].
    destruct (negb ok).
    + qstep [KLog]. apply IH.
    + quiet [KLog; KRun].
Qed.

Lemma fix_cycles_compiles C self cycles code err :
  bounded C KCompile (length cycles) (fix_cycles self cycles code err).
Proof.
  revert code err. induction cycles as [|cycle rest IH]; intros code err; cbn [fix_cycles length].
  - quiet [KLog].
  - do 2 qstep [KLog]. destruct (negb _); [quiet [KLog]|].
    do 2 qstep [KLog; KFix]. qstep_as [KLog; KFix] [[fc u] er].
    destruct (negb _); [quiet [KLog]|].
    do 3 qstep [KLog].
    eapply (bounded_bind _ _ 1 (length rest));
      [apply compile_check_compiles | intros [ok cerr] | lia].
    destruct (negb ok).
    + qstep [KLog]. apply IH.
    + quiet [KLog; KRun].
Qed.

Lemma fix_cycles_runs C self cycles code err :
  bounded C KRun 1 (fix_cycles self cycles code err).
Proof.
  revert code err. induction cycles as [|cycle rest IH]; intros code err; cbn [fix_cycles].
  - quiet [KLog].
  - do 2 qstep [KLog]. destruct (negb _); [quiet [KLog]|].
    do 2 qstep [KLog; KFix]. qstep_as [KLog; KFix] [[fc u] er].
    destruct (negb _); [quiet [KLog]|].
    do 3 qstep [KLog]. qstep_as [KLog; KCompile] [ok cerr].
    destruct (negb ok).
    + qstep [KLog]. apply IH.
    + do 2 qstep [KLog]. destruct (negb _); [|quiet [KLog]].
      eapply (bounded_bind _ _ 1 0); [apply run_check_runs | intros [run_ok run_err] | lia].
      destruct run_ok; quiet [KLog].
Qed.

(** In compile-only mode the fix loop runs nothing. *)
Lemma fix_cycles_compile_only self cycles code err :
  bounded (fun c => compile_only c = true) KRun 0 (fix_cycles self cycles code err).
Proof.
  revert code err. induction cycles as [|cycle rest IH]; intros code err; cbn [fix_cycles].
  - quiet [KLog].
  - do 2 qstep [KLog]. destruct (negb _); [quiet [KLog]|].
    do 2 qstep [KLog; KFix]. qstep_as [KLog; KFix] [[fc u] er].
    destruct (negb _); [quiet [KLog]|].
    do 3 qstep [KLog]. qstep_as [KLog; KCompile] [ok cerr].
    destruct (negb ok).
    + qstep [KLog]. apply IH.
    + qstep [KLog]. apply bounded_get_config. intros cfg Hcfg. rewrite Hcfg. cbn [negb].
      quiet [KLog].
Qed.

Lemma generate_requests C self p : bounded C KGen 1 (generate self p).
Proof.
  unfold generate. do 2 qstep [KLog]. destruct (negb _); [quiet [KLog]|].
  qstep [KLog].
  eapply (bounded_bind _ _ 1 0 1); [apply bounded_emit | intros ? | lia].
  quiet [KLog].
Qed.

Lemma length_range n : length (range n) = Z.to_nat n.
Proof. unfold range. by rewrite length_map, length_seq. Qed.

Lemma fix_loop_requests N self code err :
  bounded (fun c => n_fixing_cycles c = N) KFix (Z.to_nat N) (fix_loop self code err).
Proof.
  unfold fix_loop. apply bounded_get_config. intros cfg Hcfg.
  eapply bounded_mono; [|apply fix_cycles_requests]. rewrite length_range, Hcfg. lia.
Qed.

Lemma fix_loop_compiles N self code err :
  bounded (fun c => n_fixing_cycles c = N) KCompile (Z.to_nat N) (fix_loop self code err).
Proof.
  unfold fix_loop. apply bounded_get_config. intros cfg Hcfg.
  eapply bounded_mono; [|apply fix_cycles_compiles]. rewrite length_range, Hcfg. lia.
Qed.

Lemma fix_loop_runs C self code err : bounded C KRun 1 (fix_loop self code err).
Proof. unfold fix_loop. qstep [KLog]. apply fix_cycles_runs. Qed.

Lemma fix_loop_compile_only self code err :
  bounded (fun c => compile_only c = true) KRun 0 (fix_loop self code err).
Proof. unfold fix_loop. qstep [KLog]. apply fix_cycles_compile_only. Qed.

(** The part of [process] that follows the setting of [compile_only]. *)
Definition process_body (self : Processor) (generated_dir failed_dir prompt_filename : string)
    (compile_only : bool) : M F W (Outcome (F:=F)) :=
  code ← generate self prompt_filename;
  if negb (truthy_opt code) then
    s ← get_stats;
    errs ← get_errors;
    ret (None, s, errs, false)
  else
    let code := the code in
    '(compile_ok, compile_err) ← compile_check self code;
    if (compile_ok : bool) then
      (if negb compile_only then run_check self code;; ret tt else ret tt);;
      let save_path := os_path_join generated_dir [filename self] in
      emit (EvSaveText code save_path);;
      call (save_text_to_file code save_path);;
      s ← get_stats;
      errs ← get_errors;
      ret (Some save_path, s, list_set errs, false)
    else
      fixed_code ← fix_loop self code compile_err;
      if truthy_opt fixed_code then
        let fixed_code := the fixed_code in
        let save_path := os_path_join generated_dir [filename self] in
        emit (EvSaveText fixed_code save_path);;
        call (save_text_to_file fixed_code save_path);;
        s ← get_stats;
        errs ← get_errors;
        ret (Some save_path, s, list_set errs, true)
      else
        let save_path := os_path_join failed_dir [filename self] in
        emit (EvSaveText code save_path);;
        call (save_text_to_file code save_path);;
        s ← get_stats;
        errs ← get_errors;
        ret (None, s, list_set errs, true).

Lemma process_unfold self g f p co (st : State F W) :
  process self g f p co st
  = process_body self g f p co (with_config st (set_compile_only (config st) co)).
Proof. reflexivity. Qed.

Lemma process_body_generations C self g f p co :
  bounded C KGen 1 (process_body self g f p co).
Proof.
  unfold process_body.
  eapply (bounded_bind _ _ 1 0 1); [apply generate_requests | intros code | lia].
  quiet [KLog; KFix; KCompile; KRun; KSave].
Qed.

Lemma process_body_requests N self g f p co :
  bounded (fun c => n_fixing_cycles c = N) KFix (Z.to_nat N) (process_body self g f p co).
Proof.
  unfold process_body. qstep [KLog; KGen]. destruct (negb _); [quiet [KLog]|].
  qstep_as [KLog; KCompile] [ok err]. destruct ok; [quiet [KLog; KRun; KSave]|].
  eapply (bounded_bind _ _ (Z.to_nat N) 0); [apply fix_loop_requests | intros fixed | lia].
  quiet [KLog; KSave].
Qed.

Lemma process_body_compiles N self g f p co :
  bounded (fun c => n_fixing_cycles c = N) KCompile (1 + Z.to_nat N)
    (process_body self g f p co).
Proof.
  unfold process_body. qstep [KLog; KGen]. destruct (negb _); [quiet [KLog]|].
  eapply (bounded_bind _ _ 1 (Z.to_nat N));
    [apply compile_check_compiles | intros [ok err] | lia].
  destruct ok; [quiet [KLog; KRun; KSave]|].
  eapply (bounded_bind _ _ (Z.to_nat N) 0); [apply fix_loop_compiles | intros fixed | lia].
  quiet [KLog; KSave].
Qed.

Lemma process_body_runs C self g f p co : bounded C KRun 1 (process_body self g f p co).
Proof.
  unfold process_body. qstep [KLog; KGen]. destruct (negb _); [quiet [KLog]|].
  qstep_as [KLog; KCompile] [ok err]. destruct ok.
  - eapply (bounded_bind _ _ 1 0); [| intros ? | lia]; [|quiet [KLog; KSave]].
    destruct (negb co); [|quiet [KLog]].
    eapply (bounded_bind _ _ 1 0); [apply run_check_runs | intros ? | lia]. quiet [KLog].
  - eapply (bounded_bind _ _ 1 0); [apply fix_loop_runs | intros fixed | lia].
    quiet [KLog; KSave].
Qed.

Lemma process_body_saves C self g f p co : bounded C KSave 1 (process_body self g f p co).
Proof.
  unfold process_body. qstep [KLog; KGen]. destruct (negb _); [quiet [KLog]|].
  qstep_as [KLog; KCompile] [ok err]. destruct ok.
  - qstep [KLog; KRun].
    eapply (bounded_bind _ _ 1 0); [apply bounded_emit | intros ? | lia]. quiet [KLog].
  - qstep [KLog; KFix; KCompile; KRun]. destruct (truthy_opt _).
    + eapply (bounded_bind _ _ 1 0); [apply bounded_emit | intros ? | lia]. quiet [KLog].
    + eapply (bounded_bind _ _ 1 0); [apply bounded_emit | intros ? | lia]. quiet [KLog].
Qed.

Lemma process_body_compile_only self g f p :
  bounded (fun c => compile_only c = true) KRun 0 (process_body self g f p true).
Proof.
  unfold process_body. qstep [KLog; KGen]. destruct (negb _); [quiet [KLog]|].
  qstep_as [KLog; KCompile] [ok err]. destruct ok; [cbn [negb]; quiet [KLog; KSave]|].
  eapply (bounded_bind _ _ 0 0); [apply fix_loop_compile_only | intros fixed | lia].
  quiet [KLog; KSave].
Qed.

(** X1. Whatever the collaborators answer, one candidate costs at most one
    generation request, [n_fixing_cycles] fixing requests, one compile check
    more than that, one execution check and one save. *)
Theorem candidate_effort_bounded self g f p co (st st' : State F W) r :
  process self g f p co st = (r, st') ->
  exists t, trace st' = trace st ++ t /\
    (count_kind KGen t <= 1)%nat /\
    (count_kind KFix t <= Z.to_nat (n_fixing_cycles (config st)))%nat /\
    (count_kind KCompile t <= 1 + Z.to_nat (n_fixing_cycles (config st)))%nat /\
    (count_kind KRun t <= 1)%nat /\
    (count_kind KSave t <= 1)%nat.
Proof.
  intros E. rewrite process_unfold in E.
  set (N := n_fixing_cycles (config st)).
  set (st0 := with_config st (set_compile_only (config st) co)) in *.
  assert (HN : n_fixing_cycles (config st0) = N) by reflexivity.
  destruct (process_body_generations (fun _ => True) _ _ _ _ _ _ _ _ I E)
    as (_ & t & Ht & Hgen).
  exists t. split; [exact Ht|].
  assert (Hsame : forall t', trace st' = trace st0 ++ t' -> t' = t).
  { intros t' Ht'. rewrite Ht in Ht'. by apply app_inv_head in Ht'. }
  split; [exact Hgen|].
  destruct (process_body_requests N _ _ _ _ _ _ _ _ HN E) as (_ & t1 & Ht1 & H1).
  destruct (process_body_compiles N _ _ _ _ _ _ _ _ HN E) as (_ & t2 & Ht2 & H2).
  destruct (process_body_runs (fun _ => True) _ _ _ _ _ _ _ _ I E) as (_ & t3 & Ht3 & H3).
  destruct (process_body_saves (fun _ => True) _ _ _ _ _ _ _ _ I E) as (_ & t4 & Ht4 & H4).
  rewrite (Hsame _ Ht1) in H1. rewrite (Hsame _ Ht2) in H2.
  rewrite (Hsame _ Ht3) in H3. rewrite (Hsame _ Ht4) in H4. done.
Qed.

(** X2. In compile-only mode a candidate is never executed: on no path, and
    whatever the collaborators answer, does [process] reach the run check. *)
Theorem compile_only_never_runs self g f p (st st' : State F W) r :
  process self g f p true st = (r, st') ->
  exists t, trace st' = trace st ++ t /\ count_kind KRun t = 0%nat.
Proof.
  intros E. rewrite process_unfold in E.
  assert (Hc : compile_only (config (with_config st (set_compile_only (config st) true))) = true)
    by reflexivity.
  destruct (process_body_compile_only _ _ _ _ _ _ _ Hc E) as (_ & t & Ht & Hk).
  exists t. split; [exact Ht | lia].
Qed.

End CandidateEffort.

Lemma candidate_effort_witness :
  exists t, trace (Script.run_candidate Script.hopeless_world false).2 = [] ++ t /\
    (count_kind KGen t <= 1)%nat /\ (count_kind KFix t <= 2)%nat /\
    (count_kind KCompile t <= 3)%nat /\ (count_kind KRun t <= 1)%nat /\
    (count_kind KSave t <= 1)%nat.
Proof.
  refine (candidate_effort_bounded Script.candidate "/run/generated" "/run/failed"
            "generation_prompt.txt" false (Script.initial Script.hopeless_world)
            (Script.run_candidate Script.hopeless_world false).2
            (Script.run_candidate Script.hopeless_world false).1 _).
  vm_compute. reflexivity.
Defined.

Lemma compile_only_witness :
  exists t, trace (Script.run_candidate Script.boundary_world true).2 = [] ++ t /\
    count_kind KRun t = 0%nat.
Proof.
  refine (compile_only_never_runs Script.candidate "/run/generated" "/run/failed"
            "generation_prompt.txt" (Script.initial Script.boundary_world)
            (Script.run_candidate Script.boundary_world true).2
            (Script.run_candidate Script.boundary_world true).1 _).
  vm_compute. reflexivity.
Defined.

(** ** What a candidate leaves in the shared state *)

Section SharedNamespace.
Context {F : Type} `{FloatOps F} {W : Type} `{!Collaborators W F}.
Import ProgramProcessor.

(** X4. [process] writes its [compile_only] argument into the namespace that
    all processors share and never puts the old value back: whatever way the
    candidate ends, also by an exception, the namespace it leaves differs from
    the one it found in that flag only, which holds the argument. *)
Theorem process_leaves_compile_only self g f p co (st : State F W) :
  config (process self g f p co st).2 = set_compile_only (config st) co.
Proof.
  destruct (process self g f p co st) as [r st'] eqn:E. rewrite process_unfold in E.
  by destruct (process_body_generations (fun _ => True) _ _ _ _ _ _ _ _ I E) as [Hc _].
Qed.

(** The path at which a prompt is looked up. *)
Definition prompt_path_of (cfg : Config F) (prompt_filename : string) : string :=
  if os_path_isabs prompt_filename then prompt_filename
  else os_path_join (prompt_dir cfg) [prompt_filename].

(** [st'] differs from [st] by log lines only. *)
Definition logged (st st' : State F W) : Prop :=
  world st' = world st /\ config st' = config st /\ random st' = random st /\
  stats st' = stats st /\ encountered_errors st' = encountered_errors st /\
  exists t, trace st' = trace st ++ t /\ only [KLog] t.

Lemma logged_log l (m : log_msg F) (st : State F W) :
  exists st', log l m st = (Ok tt, st') /\ logged st st'.
Proof.
  unfold log. destruct (truthy l).
  - eexists. split; [reflexivity|]. repeat (split; [reflexivity|]).
    eexists. split; [reflexivity|]. constructor; [kind_in | constructor].
  - exists st. split; [reflexivity|]. repeat (split; [reflexivity|]).
    exists []. rewrite app_nil_r. split; [done | apply only_nil].
Qed.

Lemma generate_without_prompt self p (st : State F W) :
  os_path_exists (prompt_path_of (config st) p) (world st) = false ->
  exists st', generate self p st = (Ok None, st') /\ logged st st'.
Proof.
  intros Hmiss. unfold generate. rewrite bind_eq. cbn [get_config].
  rewrite bind_eq. cbn [read]. fold (prompt_path_of (config st) p). rewrite Hmiss.
  cbn [negb]. rewrite bind_eq.
  destruct (logged_log (logger self) (LogPromptNotFound (prompt_path_of (config st) p)) st)
    as (st' & -> & Hl).
  by exists st'.
Qed.

(** X5. A candidate whose generation prompt is missing asks the language
    model nothing, compiles, runs and saves nothing and records no error: it
    returns no path, the stats and errors it started with and [was_fixed]
    false, having written at most log lines. *)
Theorem missing_prompt_skips_candidate self g f p co (st : State F W) :
  os_path_exists (prompt_path_of (config st) p) (world st) = false ->
  exists st' t,
    process self g f p co st = (Ok (None, stats st, encountered_errors st, false), st') /\
    world st' = world st /\ trace st' = trace st ++ t /\ only [KLog] t.
Proof.
  intros Hmiss.
  destruct (generate_without_prompt self p
              (with_config st (set_compile_only (config st) co)) Hmiss)
    as (st' & Hg & Hw & _ & _ & Hs & He & t & Ht & Ho).
  exists st', t. rewrite (process_no_code _ _ _ _ _ _ _ _ Hg eq_refl), Hs, He. done.
Qed.

End SharedNamespace.

(** A world in which the generation prompt is missing. *)
Definition promptless_world : Script.World :=
  {| Script.answers := [Script.code "c0"]; Script.compile_errors := [];
     Script.run_errors := []; Script.missing_paths := ["/prompts/generation_prompt.txt"];
     Script.assemble_fails := false; Script.py_files := [] |}.

Lemma missing_prompt_witness :
  exists st' t,
    ProgramProcessor.process Script.candidate "/run/generated" "/run/failed"
      "generation_prompt.txt" false (Script.initial promptless_world)
    = (Ok (None, stats (Script.initial promptless_world),
           encountered_errors (Script.initial promptless_world), false), st') /\
    world st' = world (Script.initial promptless_world) /\
    trace st' = trace (Script.initial promptless_world) ++ t /\ only [KLog] t.
Proof.
  refine (missing_prompt_skips_candidate Script.candidate "/run/generated" "/run/failed"
            "generation_prompt.txt" false (Script.initial promptless_world) _).
  vm_compute. reflexivity.
Defined.

(** ** The budget of a phase *)

Section Budgets.
Context {F : Type} `{FloatOps F} {W : Type} `{!Collaborators W F}.
Import ProgramProcessor Pipeline.

(** From a state whose namespace satisfies [C], [m] changes the namespace
    in [compile_only] at most and adds at most [n] events of the kind [k]. *)
Definition limited {A} (C : Config F -> Prop) (k : kind) (n : nat) (m : M F W A) : Prop :=
  forall st r st', C (config st) -> m st = (r, st') ->
    same_args (config st) (config st') /\
    exists t, trace st' = trace st ++ t /\ (count_kind k t <= n)%nat.

(** A property of the namespace that does not look at [compile_only]. *)
Definition stable (C : Config F -> Prop) : Prop :=
  forall c c', same_args c c' -> C c -> C c'.

Lemma stable_same_args cfg : stable (same_args cfg).
Proof. intros c c' Hcc Hc. eapply same_args_trans; eauto. Qed.

Lemma limited_mono {A} C k n n' (m : M F W A) :
  (n <= n')%nat -> limited C k n m -> limited C k n' m.
Proof.
  intros Hn Hm st r st' HC E. destruct (Hm _ _ _ HC E) as (Hc & t & Ht & Hk).
  split; [done|]. exists t. split; [done | lia].
Qed.

Lemma limited_weaken {A} (C C' : Config F -> Prop) k n (m : M F W A) :
  (forall c, C c -> C' c) -> limited C' k n m -> limited C k n m.
Proof. intros HCC Hm st r st' HC E. eapply Hm; eauto. Qed.

Lemma limited_of_bounded {A} C k n (m : M F W A) : bounded C k n m -> limited C k n m.
Proof.
  intros Hm st r st' HC E. destruct (Hm _ _ _ HC E) as (Hc & Ht).
  split; [rewrite Hc; apply same_args_refl | exact Ht].
Qed.

Lemma limited_of_effects {A} C k ks (m : M F W A) : k ∉ ks -> effects ks m -> limited C k 0 m.
Proof.
  intros Hk Hm st r st' _ E. destruct (Hm _ _ _ E) as (Hc & t & Ht & Ho).
  split; [done|]. exists t. split; [done|]. by rewrite (count_kind_only k ks).
Qed.

Lemma limited_bind {A B} C k n1 n2 n (m : M F W A) (f : A -> M F W B) :
  stable C -> limited C k n1 m -> (forall a, limited C k n2 (f a)) -> (n1 + n2 <= n)%nat ->
  limited C k n (m ≫= f).
Proof.
  intros HS Hm Hf Hn st r st' HC E. rewrite bind_eq in E.
  destruct (m st) as [[a|e] st1] eqn:Em; destruct (Hm _ _ _ HC Em) as (Hc1 & t1 & Ht1 & Hk1).
  - destruct (Hf a _ _ _ (HS _ _ Hc1 HC) E) as (Hc2 & t2 & Ht2 & Hk2).
    split; [eapply same_args_trans; eauto|]. exists (t1 ++ t2). rewrite Ht2, Ht1, app_assoc.
    split; [done|]. rewrite count_kind_app. lia.
  - inversion E; subst. split; [done|]. exists t1. split; [done | lia].
Qed.

Lemma limited_try_except {A} C k n1 n2 n (m : M F W A) (h : string -> M F W A) :
  stable C -> limited C k n1 m -> (forall e, limited C k n2 (h e)) -> (n1 + n2 <= n)%nat ->
  limited C k n (try_except m h).
Proof.
  intros HS Hm Hh Hn st r st' HC E. unfold try_except in E.
  destruct (m st) as [[a|[msg|c]] st1] eqn:Em;
    destruct (Hm _ _ _ HC Em) as (Hc1 & t1 & Ht1 & Hk1).
  - inversion E; subst. split; [done|]. exists t1. split; [done | lia].
  - destruct (Hh msg _ _ _ (HS _ _ Hc1 HC) E) as (Hc2 & t2 & Ht2 & Hk2).
    split; [eapply same_args_trans; eauto|]. exists (t1 ++ t2). rewrite Ht2, Ht1, app_assoc.
    split; [done|]. rewrite count_kind_app. lia.
  - inversion E; subst. split; [done|]. exists t1. split; [done | lia].
Qed.

(** What follows [get_config] runs on namespaces that differ from the one
    read in [compile_only] at most. *)
Lemma limited_get_config {B} (C : Config F -> Prop) k n (f : Config F -> M F W B) :
  (forall cfg, C cfg -> limited (same_args cfg) k n (f cfg)) ->
  limited C k n (get_config ≫= f).
Proof.
  intros Hf st r st' HC E. rewrite bind_eq in E. cbn [get_config] in E.
  eapply (Hf (config st) HC); [apply same_args_refl | exact E].
Qed.

Lemma same_args_cycles (c c' : Config F) : same_args c c' -> n_fixing_cycles c = n_fixing_cycles c'.
Proof. intros E. apply (f_equal n_fixing_cycles) in E. exact E. Qed.

Lemma same_args_improve (c c' : Config F) : same_args c c' -> improve_prompt c = improve_prompt c'.
Proof. intros E. apply (f_equal improve_prompt) in E. exact E. Qed.

Lemma same_args_programs (c c' : Config F) : same_args c c' -> n_programs c = n_programs c'.
Proof. intros E. apply (f_equal n_programs) in E. exact E. Qed.

(** What one candidate may add to the trace, by kind, log lines apart, with
    [N] fixing cycles and compile-only mode [co]. *)
Definition candidate_budget (N : Z) (co : bool) (k : kind) : nat :=
  match k with
  | KGen => 1
  | KFix => Z.to_nat N
  | KCompile => 1 + Z.to_nat N
  | KRun => if co then 0 else 1
  | KSave => 1
  | _ => 0
  end.

Lemma process_body_budget N co k self g f p :
  k <> KLog ->
  bounded (fun c => n_fixing_cycles c = N /\ compile_only c = co) k (candidate_budget N co k)
    (process_body self g f p co).
Proof.
  intros Hk.
  assert (Hq : k ∉ candidate_kinds -> bounded (fun c => n_fixing_cycles c = N /\ compile_only c = co)
                 k 0 (process_body self g f p co)).
  { intros Hn. apply (bounded_footprint _ _ candidate_kinds); [done|].
    unfold process_body, candidate_kinds. solve_footprint. }
  destruct k; cbn [candidate_budget]; try done; try (apply Hq; unfold candidate_kinds; kind_notin).
  - apply process_body_generations.
  - eapply bounded_weaken; [|apply process_body_requests]. by intros c [? _].
  - eapply bounded_weaken; [|apply process_body_compiles]. by intros c [? _].
  - destruct co.
    + eapply bounded_weaken; [|apply process_body_compile_only]. by intros c [_ ?].
    + apply process_body_runs.
  - apply process_body_saves.
Qed.

Lemma process_limited N co k self g f p :
  k <> KLog ->
  limited (fun c => n_fixing_cycles c = N) k (candidate_budget N co k) (process self g f p co).
Proof.
  intros Hk st r st' HC E. rewrite process_unfold in E.
  assert (HC0 : n_fixing_cycles (config (with_config st (set_compile_only (config st) co))) = N
                /\ compile_only (config (with_config st (set_compile_only (config st) co))) = co)
    by (split; [exact HC | reflexivity]).
  destruct (process_body_budget N co k self g f p Hk _ _ _ HC0 E) as (Hc & Ht).
  split; [rewrite Hc; apply same_args_set | exact Ht].
Qed.

Lemma stable_cycles N : stable (fun c : Config F => n_fixing_cycles c = N).
Proof. intros c c' Hcc Hc. by rewrite <- (same_args_cycles _ _ Hcc). Qed.

Lemma submit_limited N co k i model logger g f p :
  k <> KLog ->
  limited (fun c => n_fixing_cycles c = N) k (candidate_budget N co k)
    (submit i model logger g f p co).
Proof.
  intros Hk st r st' HC E. unfold submit in E.
  destruct (process _ _ _ _ _ _) as [r0 st0] eqn:Ep. inversion E; subst r st'.
  exact (process_limited N co k _ _ _ _ Hk (with_errors (with_stats st new_stats) []) _ _ HC Ep).
Qed.

(** A pool costs at most what its candidates cost. *)
Lemma run_pool_limited N co k tasks model logger g f p :
  k <> KLog ->
  limited (fun c => n_fixing_cycles c = N) k (length tasks * candidate_budget N co k)
    (run_pool tasks model logger g f p co).
Proof.
  intros Hk. induction tasks as [|i rest IH]; cbn [run_pool length].
  - apply limited_of_bounded, (bounded_footprint _ _ []); [kind_notin | apply footprint_ret].
  - eapply (limited_bind _ _ (candidate_budget N co k) (length rest * candidate_budget N co k));
      [apply stable_cycles | by apply submit_limited | intros r | lia].
    eapply (limited_bind _ _ (length rest * candidate_budget N co k) 0);
      [apply stable_cycles | apply IH | intros rs | lia].
    apply limited_of_bounded, (bounded_footprint _ _ []); [kind_notin | apply footprint_ret].
Qed.

End Budgets.

(** [m] adds no event of the kind counted: its events are of the kinds [ks]. *)
Ltac lquiet ks :=
  eapply limited_mono;
  [ | apply limited_of_bounded, (bounded_footprint _ _ ks);
      [kind_notin
      | solve [repeat first [ apply collect_training_footprint
                            | apply improve_prompt_logic_footprint
                            | solve_footprint ]]] ]; lia.

Ltac lstep ks :=
  match goal with
  | |- limited _ _ ?n (_ ≫= _) =>
      eapply (limited_bind _ _ 0 n n); [apply stable_same_args | lquiet ks | intros ? | lia]
  end.

Tactic Notation "lstep_as" constr(ks) simple_intropattern(p) :=
  match goal with
  | |- limited _ _ ?n (_ ≫= _) =>
      eapply (limited_bind _ _ 0 n n); [apply stable_same_args | lquiet ks | intros p | lia]
  end.

Section TrainingBudget.
Context {F : Type} `{FloatOps F} {W : Type} `{!Collaborators W F}.
Import ProgramProcessor Pipeline.

(** The namespace has [N] fixing cycles and [T] training candidates. *)
Definition sized (N T : Z) (c : Config F) : Prop :=
  n_fixing_cycles c = N /\ training_n c = T.

Lemma stable_sized N T : stable (sized N T).
Proof.
  intros c c' Hcc [HN HT]. split.
  - by rewrite <- (same_args_cycles _ _ Hcc).
  - by rewrite <- (same_args_training_n _ _ Hcc).
Qed.

Lemma training_rounds_budget N T k rounds model crd sd prompt bp br :
  k ∈ [KGen; KFix; KCompile; KRun; KSave; KAssemble] ->
  limited (sized N T) k (length rounds * (Z.to_nat T * candidate_budget N true k))
    (training_rounds rounds model crd sd prompt bp br).
Proof.
  intros Hk. set (b := candidate_budget N true k).
  assert (Hlog : k <> KLog).
  { intros ->. repeat (apply elem_of_cons in Hk as [Hk|Hk]; [discriminate|]).
    by apply elem_of_nil in Hk. }
  assert (Hpool : forall args tasks logger g f p,
            sized N T args -> length tasks = Z.to_nat T ->
            limited (same_args args) k (Z.to_nat T * b) (run_pool tasks model logger g f p true)).
  { intros args tasks logger g f p [HN HT] Hlen.
    eapply limited_weaken; [|eapply limited_mono; [|by apply (run_pool_limited N true k)]].
    - intros c Hc. cbn beta. by rewrite <- (same_args_cycles _ _ Hc).
    - rewrite Hlen. fold b. lia. }
  clearbody b.
  revert prompt bp br. induction rounds as [|idx rest IH]; intros prompt bp br;
    cbn [training_rounds length].
  { apply limited_of_bounded, (bounded_footprint _ _ []); [kind_notin | apply footprint_ret]. }
  apply limited_get_config. intros args Hargs.
  assert (Hrest : forall p' bp' br',
            limited (same_args args) k (length rest * (Z.to_nat T * b))
              (training_rounds rest model crd sd p' bp' br')).
  { intros p' bp' br'. eapply limited_weaken; [|apply IH].
    intros c Hc. by apply (stable_sized N T args c). }
  repeat (apply elem_of_cons in Hk as [->|Hk]); [..|by apply elem_of_nil in Hk].
  all: do 6 lstep [KLog; KMkdir].
  all: eapply (limited_bind _ _ (Z.to_nat T * b) (length rest * (Z.to_nat T * b)));
    [ apply stable_same_args
    | apply Hpool; [done | rewrite length_range; by destruct Hargs as [_ ->]]
    | intros futures | lia ].
  all: lstep_as [KLog] [training_errors count_needed_fix].
  all: do 2 lstep [KLog; KRound].
  all: destruct (fltb _ _).
  all: destruct (fltb _ _); [lquiet [KLog]|].
  all: try (destruct (fltb _ _); [lquiet [KLog]|]).
  all: destruct (_ && _).
  all: try (lstep [KLog]; apply Hrest).
  all: lstep [KLog].
  all: eapply (limited_bind _ _ 0); [apply stable_same_args | | intros ?; apply Hrest | lia].
  all: eapply (limited_try_except _ _ 0 0);
    [apply stable_same_args | lquiet [KLog; KPrint; KImprove; KWrite] | intros ?; lquiet [KLog] | lia].
Qed.

Lemma improve_prompt_logic_requests C im pp cd op errs lang logger effort :
  bounded C KImprove 1 (improve_prompt_logic (W:=W) im pp cd op errs lang logger effort).
Proof.
  unfold improve_prompt_logic. qstep [KLog]. destruct (negb _); [quiet [KLog; KPrint]|].
  do 2 qstep [KLog]. destruct (negb _); [quiet [KLog]|].
  do 2 qstep [KLog; KPrint].
  eapply (bounded_bind _ _ 1 0 1); [apply bounded_emit | intros ? | lia].
  quiet [KLog; KPrint; KWrite].
Qed.

(** The rounds after which the prompt may be improved. *)
Fixpoint improving (rounds : list Z) : nat :=
  match rounds with
  | [] => 0%nat
  | round_idx :: rest => (if round_idx <? max_rounds then 1%nat else 0%nat) + improving rest
  end.

Lemma stable_improve ip : stable (fun c : Config F => improve_prompt c = ip).
Proof. intros c c' Hcc Hc. by rewrite <- (same_args_improve _ _ Hcc). Qed.

Lemma training_rounds_improvements ip rounds model crd sd prompt bp br :
  limited (fun c => improve_prompt c = ip) KImprove (if ip then improving rounds else 0%nat)
    (training_rounds rounds model crd sd prompt bp br).
Proof.
  revert prompt bp br. induction rounds as [|idx rest IH]; intros prompt bp br;
    cbn [training_rounds improving].
  { eapply limited_mono; [|apply limited_of_bounded, (bounded_footprint _ _ []);
                            [kind_notin | apply footprint_ret]]. lia. }
  apply limited_get_config. intros args Hargs.
  assert (Hrest : forall p' bp' br',
            limited (same_args args) KImprove (if ip then improving rest else 0%nat)
              (training_rounds rest model crd sd p' bp' br')).
  { intros p' bp' br'. eapply limited_weaken; [|apply IH].
    intros c Hc. by apply (stable_improve ip args c). }
  assert (Hpool : forall tasks logger g f p,
            limited (same_args args) KImprove 0 (run_pool tasks model logger g f p true)).
  { intros. apply (limited_of_effects _ _ candidate_kinds); [kind_notin|].
    apply run_pool_effects. }
  do 6 lstep [KLog; KMkdir].
  match goal with
  | |- limited _ _ ?n (_ ≫= _) =>
      eapply (limited_bind _ _ 0 n n); [apply stable_same_args | apply Hpool | intros futures | lia]
  end.
  lstep_as [KLog] [training_errors count_needed_fix].
  do 2 lstep [KLog; KRound].
  assert (Hmono : forall A (m : M F W A),
            limited (same_args args) KImprove (if ip then improving rest else 0%nat) m ->
            limited (same_args args) KImprove
              (if ip then (if idx <? max_rounds then 1%nat else 0%nat) + improving rest else 0%nat) m).
  { intros A m Hm. eapply limited_mono; [|exact Hm]. destruct ip; lia. }
  destruct (fltb _ _); (destruct (fltb _ _); [lquiet [KLog]|]).
  all: rewrite Hargs; destruct ip; cbn [andb].
  all: try (apply Hmono; lstep [KLog]; apply Hrest).
  all: destruct (idx <? max_rounds).
  all: try (apply Hmono; lstep [KLog]; apply Hrest).
  all: lstep [KLog].
  all: eapply (limited_bind _ _ 1 (improving rest));
    [apply stable_same_args | | intros ?; apply Hrest | lia].
  all: eapply (limited_try_except _ _ 1 0);
    [ apply stable_same_args
    | apply limited_of_bounded, improve_prompt_logic_requests
    | intros ?; lquiet [KLog] | lia].
Qed.

Lemma run_training_phase_budget N T k model crd sd :
  k ∈ [KGen; KFix; KCompile; KRun; KSave; KAssemble] ->
  limited (sized N T) k (4 * (Z.to_nat T * candidate_budget N true k))
    (run_training_phase model crd sd).
Proof.
  intros Hk. unfold run_training_phase. apply limited_get_config. intros args Hargs.
  destruct (training_n args <=? 0).
  - eapply limited_mono; [|apply limited_of_bounded, (bounded_footprint _ _ []);
                            [kind_notin | apply footprint_ret]]. lia.
  - eapply limited_weaken; [|apply (training_rounds_budget N T k); exact Hk].
    intros c Hc. by apply (stable_sized N T args c).
Qed.

Lemma run_training_phase_improvements ip model crd sd :
  limited (fun c => improve_prompt c = ip) KImprove (if ip then 3%nat else 0%nat)
    (run_training_phase model crd sd).
Proof.
  unfold run_training_phase. apply limited_get_config. intros args Hargs.
  destruct (training_n args <=? 0).
  - eapply limited_mono; [|apply limited_of_bounded, (bounded_footprint _ _ []);
                            [kind_notin | apply footprint_ret]]. lia.
  - eapply limited_weaken; [|apply (training_rounds_improvements ip)].
    intros c Hc. by apply (stable_improve ip args c).
Qed.

(** X6. The training phase never executes a candidate, and with
    [training_n = T] candidates a round and [n_fixing_cycles = N] it makes at
    most [4 T] generation requests, [4 T N] fixing requests and
    [4 T (1 + N)] compile checks and saves at most [4 T] files, whatever
    the collaborators answer. *)
Theorem training_phase_budget model crd sd (st st' : State F W) r :
  run_training_phase model crd sd st = (r, st') ->
  let T := Z.to_nat (training_n (config st)) in
  let N := Z.to_nat (n_fixing_cycles (config st)) in
  exists t, trace st' = trace st ++ t /\
    count_kind KRun t = 0%nat /\
    (count_kind KGen t <= 4 * T)%nat /\
    (count_kind KFix t <= 4 * (T * N))%nat /\
    (count_kind KCompile t <= 4 * (T * (1 + N)))%nat /\
    (count_kind KSave t <= 4 * T)%nat.
Proof.
  intros E T N.
  assert (HC : sized (n_fixing_cycles (config st)) (training_n (config st)) (config st))
    by (by split).
  assert (Hb : forall k, k ∈ [KGen; KFix; KCompile; KRun; KSave; KAssemble] ->
            exists t, trace st' = trace st ++ t /\
              (count_kind k t <= 4 * (T * candidate_budget (n_fixing_cycles (config st)) true k))%nat).
  { intros k Hk. by destruct (run_training_phase_budget _ _ k model crd sd Hk _ _ _ HC E). }
  destruct (Hb KRun) as (t & Ht & Hrun); [kind_in|]. exists t. split; [exact Ht|].
  assert (Hsame : forall t', trace st' = trace st ++ t' -> t' = t).
  { intros t' Ht'. rewrite Ht in Ht'. by apply app_inv_head in Ht'. }
  destruct (Hb KGen) as (t1 & Ht1 & H1); [kind_in|].
  destruct (Hb KFix) as (t2 & Ht2 & H2); [kind_in|].
  destruct (Hb KCompile) as (t3 & Ht3 & H3); [kind_in|].
  destruct (Hb KSave) as (t4 & Ht4 & H4); [kind_in|].
  rewrite (Hsame _ Ht1) in H1. rewrite (Hsame _ Ht2) in H2.
  rewrite (Hsame _ Ht3) in H3. rewrite (Hsame _ Ht4) in H4.
  cbn [candidate_budget] in *. fold N in H2, H3. repeat split; lia.
Qed.

(** X7. A training phase asks the improver model at most three times, once
    after each of the rounds 0, 1 and 2 at most, and never when
    [improve_prompt] is off. *)
Theorem training_improvement_budget model crd sd (st st' : State F W) r :
  run_training_phase model crd sd st = (r, st') ->
  exists t, trace st' = trace st ++ t /\
    (count_kind KImprove t <= 3)%nat /\
    (improve_prompt (config st) = false -> count_kind KImprove t = 0%nat).
Proof.
  intros E.
  destruct (run_training_phase_improvements (improve_prompt (config st)) model crd sd
              _ _ _ eq_refl E) as (_ & t & Ht & Hk).
  exists t. split; [exact Ht|]. split.
  - destruct (improve_prompt (config st)); lia.
  - intros Hoff. rewrite Hoff in Hk. lia.
Qed.

End TrainingBudget.

Lemma training_budget_witness :
  exists t,
    trace (Pipeline.run_training_phase "deepseek/deepseek-chat" "/run" "/src"
             (Script.start Script.hopeless_world (Script.args_for 1 0 true)
                Script.zero_tape)).2 = [] ++ t /\
    count_kind KRun t = 0%nat /\ (count_kind KGen t <= 4)%nat /\
    (count_kind KFix t <= 8)%nat /\ (count_kind KCompile t <= 12)%nat /\
    (count_kind KSave t <= 4)%nat.
Proof.
  refine (training_phase_budget "deepseek/deepseek-chat" "/run" "/src"
            (Script.start Script.hopeless_world (Script.args_for 1 0 true) Script.zero_tape)
            _ (Pipeline.run_training_phase "deepseek/deepseek-chat" "/run" "/src"
                 (Script.start Script.hopeless_world (Script.args_for 1 0 true)
                    Script.zero_tape)).1 _).
  vm_compute. reflexivity.
Defined.

Lemma training_improvement_witness :
  exists t,
    trace (Pipeline.run_training_phase "deepseek/deepseek-chat" "/run" "/src"
             (Script.start Script.hopeless_world (Script.args_for 1 0 true)
                Script.zero_tape)).2 = [] ++ t /\
    (count_kind KImprove t <= 3)%nat /\
    (true = false -> count_kind KImprove t = 0%nat).
Proof.
  refine (training_improvement_budget "deepseek/deepseek-chat" "/run" "/src"
            (Script.start Script.hopeless_world (Script.args_for 1 0 true) Script.zero_tape)
            _ (Pipeline.run_training_phase "deepseek/deepseek-chat" "/run" "/src"
                 (Script.start Script.hopeless_world (Script.args_for 1 0 true)
                    Script.zero_tape)).1 _).
  vm_compute. reflexivity.
Defined.

Section ProductionBudget.
Context {F : Type} `{FloatOps F} {W : Type} `{!Collaborators W F}.
Import ProgramProcessor Pipeline.

Lemma collect_production_footprint logger (futures : list (result (Outcome (F:=F)))) sf sl :
  footprint [KLog] (collect_production (W:=W) logger futures sf sl).
Proof.
  revert sf sl. induction futures as [|[[[[sp s] es] wf]|[msg|code]] rest IH]; intros sf sl;
    cbn [collect_production].
  - apply footprint_ret.
  - apply IH.
  - apply footprint_bind; [apply footprint_log; kind_in | intros _; apply IH].
  - apply footprint_raise.
Qed.

(** The namespace has [N] fixing cycles and [P] programs to produce. *)
Definition production_sized (N P : Z) (c : Config F) : Prop :=
  n_fixing_cycles c = N /\ n_programs c = P.

Lemma stable_production_sized N P : stable (production_sized N P).
Proof.
  intros c c' Hcc [HN HP]. split.
  - by rewrite <- (same_args_cycles _ _ Hcc).
  - by rewrite <- (same_args_programs _ _ Hcc).
Qed.

Lemma run_production_phase_budget N P k model prompt crd logfile :
  k ∈ [KGen; KFix; KCompile; KRun; KSave; KImprove; KWrite; KRound; KAssemble] ->
  limited (production_sized N P) k (Z.to_nat P * candidate_budget N false k)
    (run_production_phase model prompt crd logfile).
Proof.
  intros Hk. set (b := candidate_budget N false k).
  assert (Hlog : k <> KLog).
  { intros ->. repeat (apply elem_of_cons in Hk as [Hk|Hk]; [discriminate|]).
    by apply elem_of_nil in Hk. }
  assert (Hpool : forall args tasks logger g f p,
            production_sized N P args -> length tasks = Z.to_nat P ->
            limited (same_args args) k (Z.to_nat P * b)
              (run_pool tasks model logger g f p false)).
  { intros args tasks logger g f p [HN HP] Hlen.
    eapply limited_weaken; [|eapply limited_mono; [|by apply (run_pool_limited N false k)]].
    - intros c Hc. cbn beta. by rewrite <- (same_args_cycles _ _ Hc).
    - rewrite Hlen. fold b. lia. }
  clearbody b. unfold run_production_phase.
  apply limited_get_config. intros args Hargs.
  repeat (apply elem_of_cons in Hk as [->|Hk]); [..|by apply elem_of_nil in Hk].
  all: do 9 lstep [KLog; KMkdir].
  all: eapply (limited_bind _ _ (Z.to_nat P * b) 0);
    [ apply stable_same_args
    | apply Hpool; [done | rewrite length_range; by destruct Hargs as [_ ->]]
    | intros futures | lia ].
  all: match goal with
       | |- limited _ _ ?n (_ ≫= _) =>
           eapply (limited_bind _ _ 0 n n);
             [ apply stable_same_args
             | apply limited_of_bounded, (bounded_footprint _ _ [KLog]);
                 [kind_notin | apply collect_production_footprint]
             | intros [successful_files stats_list] | lia ]
       end.
  all: lquiet [KLog].
Qed.

(** X8. With [n_programs = P] and [n_fixing_cycles = N] the production
    phase makes at most [P] generation requests, [P N] fixing requests,
    [P (1 + N)] compile checks and [P] execution checks and saves at most [P]
    files; it never asks the improver model and never writes a prompt. *)
Theorem production_phase_budget model prompt crd logfile (st st' : State F W) r :
  run_production_phase model prompt crd logfile st = (r, st') ->
  let P := Z.to_nat (n_programs (config st)) in
  let N := Z.to_nat (n_fixing_cycles (config st)) in
  exists t, trace st' = trace st ++ t /\
    (count_kind KGen t <= P)%nat /\
    (count_kind KFix t <= P * N)%nat /\
    (count_kind KCompile t <= P * (1 + N))%nat /\
    (count_kind KRun t <= P)%nat /\
    (count_kind KSave t <= P)%nat /\
    count_kind KImprove t = 0%nat /\ count_kind KWrite t = 0%nat.
Proof.
  intros E P N.
  assert (HC : production_sized (n_fixing_cycles (config st)) (n_programs (config st))
                 (config st)) by (by split).
  assert (Hb : forall k, k ∈ [KGen; KFix; KCompile; KRun; KSave; KImprove; KWrite; KRound; KAssemble] ->
            exists t, trace st' = trace st ++ t /\
              (count_kind k t
               <= P * candidate_budget (n_fixing_cycles (config st)) false k)%nat).
  { intros k Hk.
    by destruct (run_production_phase_budget _ _ k model prompt crd logfile Hk _ _ _ HC E). }
  destruct (Hb KGen) as (t & Ht & Hgen); [kind_in|]. exists t. split; [exact Ht|].
  assert (Hsame : forall t', trace st' = trace st ++ t' -> t' = t).
  { intros t' Ht'. rewrite Ht in Ht'. by apply app_inv_head in Ht'. }
  destruct (Hb KFix) as (t1 & Ht1 & H1); [kind_in|].
  destruct (Hb KCompile) as (t2 & Ht2 & H2); [kind_in|].
  destruct (Hb KRun) as (t3 & Ht3 & H3); [kind_in|].
  destruct (Hb KSave) as (t4 & Ht4 & H4); [kind_in|].
  destruct (Hb KImprove) as (t5 & Ht5 & H5); [kind_in|].
  destruct (Hb KWrite) as (t6 & Ht6 & H6); [kind_in|].
  rewrite (Hsame _ Ht1) in H1. rewrite (Hsame _ Ht2) in H2.
  rewrite (Hsame _ Ht3) in H3. rewrite (Hsame _ Ht4) in H4.
  rewrite (Hsame _ Ht5) in H5. rewrite (Hsame _ Ht6) in H6.
  cbn [candidate_budget] in *. fold N in H1, H2. repeat split; lia.
Qed.

End ProductionBudget.

Lemma production_budget_witness :
  exists t,
    trace (Pipeline.run_production_phase "deepseek/deepseek-chat" "generation_prompt.txt"
             "/run" "/run/execution.log" (Script.initial Script.boundary_world)).2 = [] ++ t /\
    (count_kind KGen t <= 3)%nat /\ (count_kind KFix t <= 6)%nat /\
    (count_kind KCompile t <= 9)%nat /\ (count_kind KRun t <= 3)%nat /\
    (count_kind KSave t <= 3)%nat /\
    count_kind KImprove t = 0%nat /\ count_kind KWrite t = 0%nat.
Proof.
  refine (production_phase_budget "deepseek/deepseek-chat" "generation_prompt.txt"
            "/run" "/run/execution.log" (Script.initial Script.boundary_world)
            _ (Pipeline.run_production_phase "deepseek/deepseek-chat" "generation_prompt.txt"
                 "/run" "/run/execution.log" (Script.initial Script.boundary_world)).1 _).
  vm_compute. reflexivity.
Defined.

(** ** The rounds of a training phase *)

Section TrainingRounds.
Context {F : Type} `{FloatOps F} {W : Type} `{!Collaborators W F}.
Import ProgramProcessor Pipeline.

Lemma shape_numbered n thr rounds prompt best h r :
  shape (F:=F) n thr rounds prompt best h r ->
  map (fun x => x.1.1) h `prefix_of` rounds /\ Forall (fun x => 0 <= x.2 <= n) h.
Proof.
  induction 1 as [prompt best | idx rest prompt best e | idx rest prompt best c Hc Hlt
                 | idx rest prompt best c e Hc Hge
                 | idx rest prompt best c prompt' h r Hc Hge Hs [IHp IHf]]; cbn [map].
  - split; [done | constructor].
  - split; [apply prefix_nil | constructor].
  - split; [apply prefix_cons, prefix_nil | constructor; [done | constructor]].
  - split; [apply prefix_cons, prefix_nil | constructor; [done | constructor]].
  - split; [by apply prefix_cons | by constructor].
Qed.

(** X9. A training phase runs at most four rounds, numbered 0, 1, 2, 3 in
    this order without a gap, and the count of fixed candidates of each
    round lies between 0 and [training_n]; with [training_n <= 0] it runs
    none. *)
Theorem training_rounds_are_numbered model crd sd (st st' : State F W) r :
  run_training_phase model crd sd st = (r, st') ->
  exists t, trace st' = trace st ++ t /\
    map (fun x => x.1.1) (rounds_of t) `prefix_of` [0; 1; 2; 3] /\
    Forall (fun x => 0 <= x.2 <= training_n (config st)) (rounds_of t) /\
    (training_n (config st) <= 0 -> rounds_of t = []).
Proof.
  intros E. unfold run_training_phase in E. rewrite bind_eq in E. cbn [get_config] in E.
  destruct (training_n (config st) <=? 0) eqn:Hn.
  - inversion E; subst. exists []. rewrite app_nil_r. split; [done|].
    split; [apply prefix_nil|]. split; [constructor | done].
  - apply Z.leb_gt in Hn. rewrite range_4 in E.
    apply training_rounds_run in E as (_ & t & Ht & Hs & _); [|done].
    exists t. split; [done|]. destruct (shape_numbered _ _ _ _ _ _ _ Hs) as [Hp Hf].
    split; [done|]. split; [done | lia].
Qed.

End TrainingRounds.

Lemma training_rounds_witness :
  exists t,
    trace (Pipeline.run_training_phase "deepseek/deepseek-chat" "/run" "/src"
             (Script.start Script.hopeless_world (Script.args_for 1 0 true)
                Script.zero_tape)).2 = [] ++ t /\
    map (fun x => x.1.1) (rounds_of t) `prefix_of` [0; 1; 2; 3] /\
    Forall (fun x => 0 <= x.2 <= 1) (rounds_of t) /\
    (1 <= 0 -> rounds_of t = []).
Proof.
  refine (training_rounds_are_numbered "deepseek/deepseek-chat" "/run" "/src"
            (Script.start Script.hopeless_world (Script.args_for 1 0 true) Script.zero_tape)
            _ (Pipeline.run_training_phase "deepseek/deepseek-chat" "/run" "/src"
                 (Script.start Script.hopeless_world (Script.args_for 1 0 true)
                    Script.zero_tape)).1 _).
  vm_compute. reflexivity.
Defined.

Section MissingPrompt.
Context {F : Type} `{FloatOps F} {W : Type} `{!Collaborators W F}.
Import ProgramProcessor Pipeline.

Lemma same_args_prompt_dir (c c' : Config F) : same_args c c' -> prompt_dir c = prompt_dir c'.
Proof. intros E. apply (f_equal prompt_dir) in E. exact E. Qed.

(** [st'] is reached from [st] by log lines and a change of [compile_only]
    at most. *)
Definition quietly (st st' : State F W) : Prop :=
  world st' = world st /\ same_args (config st) (config st') /\
  exists t, trace st' = trace st ++ t /\ only [KLog] t.

Lemma quietly_refl st : quietly st st.
Proof.
  split; [done|]. split; [apply same_args_refl|]. exists [].
  rewrite app_nil_r. split; [done | apply only_nil].
Qed.

Lemma quietly_trans st1 st2 st3 : quietly st1 st2 -> quietly st2 st3 -> quietly st1 st3.
Proof.
  intros (Hw1 & Hc1 & t1 & Ht1 & Ho1) (Hw2 & Hc2 & t2 & Ht2 & Ho2).
  split; [congruence|]. split; [eapply same_args_trans; eauto|].
  exists (t1 ++ t2). rewrite Ht2, Ht1, app_assoc. split; [done | by apply only_app].
Qed.

(** The outcome of a new processor whose generation gave no code. *)
Definition skipped : result (Outcome (F:=F)) := Ok (None, new_stats, [], false).

Lemma submit_without_prompt i model logger g f p co (st : State F W) :
  os_path_exists (prompt_path_of (config st) p) (world st) = false ->
  exists st', submit i model logger g f p co st = (Ok skipped, st') /\ quietly st st'.
Proof.
  intros Hmiss. unfold submit.
  set (self := {| index := i; model := model; logger := logger |}).
  set (st0 := with_errors (with_stats st new_stats) []).
  destruct (generate_without_prompt self p
              (with_config st0 (set_compile_only (config st0) co)) Hmiss)
    as (st' & Hg & Hw & Hc & _ & Hs & He & t & Ht & Ho).
  rewrite (process_no_code _ _ _ _ _ _ _ _ Hg eq_refl), Hs, He.
  exists st'. split; [reflexivity|]. split; [exact Hw|].
  split; [rewrite Hc; apply same_args_set|]. by exists t.
Qed.

Lemma run_pool_without_prompt tasks model logger g f p co (st : State F W) :
  os_path_exists (prompt_path_of (config st) p) (world st) = false ->
  exists st', run_pool tasks model logger g f p co st = (Ok (map (fun _ => skipped) tasks), st')
    /\ quietly st st'.
Proof.
  revert st. induction tasks as [|i rest IH]; intros st Hmiss; cbn [run_pool map].
  - exists st. split; [reflexivity | apply quietly_refl].
  - destruct (submit_without_prompt i model logger g f p co st Hmiss) as (st1 & E1 & Hq1).
    rewrite bind_eq, E1.
    destruct (IH st1) as (st2 & E2 & Hq2).
    { destruct Hq1 as (Hw & Hc & _). unfold prompt_path_of in *.
      by rewrite Hw, <- (same_args_prompt_dir _ _ Hc). }
    rewrite bind_eq, E2. exists st2. split; [reflexivity|]. eapply quietly_trans; eauto.
Qed.

Lemma collect_training_skipped logger (tasks : list Z) errs c (st : State F W) :
  collect_training logger (map (fun _ => skipped) tasks) errs c st = (Ok (errs, c), st).
Proof.
  induction tasks as [|i rest IH]; cbn [map collect_training skipped]; [done|].
  rewrite app_nil_r. exact IH.
Qed.

(** X10. When the generation prompt is still missing once the two
    directories of round 0 are made, a training phase that returns has
    asked no model anything and has accepted the starting prompt after
    round 0: its trace holds the two directories, log lines and the record
    of the round only, so no generation, fixing or improvement request, no
    compile or execution check and no save; every candidate of the round
    came back without code and so without a fix, the ratio of the round is
    0, and 0 is below any positive threshold. *)
Theorem training_accepts_missing_prompt model crd sd (st st' : State F W) p :
  0 < training_n (config st) ->
  fltb (truediv_int 0 (training_n (config st))) (training_threshold (config st)) = true ->
  os_path_exists (prompt_path_of (config st) generation_prompt)
    (os_makedirs (os_path_join (round_dir crd model 0) ["failed"])
       (os_makedirs (os_path_join (round_dir crd model 0) ["generated"]) (world st)).2).2
    = false ->
  run_training_phase model crd sd st = (Ok p, st') ->
  p = generation_prompt /\
  exists t, trace st' = trace st ++ t /\
    rounds_of t = [(0, generation_prompt, 0)] /\
    only [KMkdir; KLog; KRound] t /\
    count_kind KGen t = 0%nat /\ count_kind KFix t = 0%nat /\ count_kind KImprove t = 0%nat.
Proof.
  intros Hn Hthr Hmiss E. unfold run_training_phase in E. unfold round_dir in Hmiss.
  rewrite bind_eq in E. cbn [get_config] in E.
  destruct (training_n (config st) <=? 0) eqn:Hle; [apply Z.leb_le in Hle; lia|].
  rewrite range_4 in E. cbn [training_rounds] in E.
  rewrite bind_eq in E. cbn [get_config] in E.
  rewrite bind_eq in E. cbn [emit] in E.
  apply bind_ok_inv in E as ([] & s1 & E1 & E). unfold call in E1.
  cbn [world with_trace] in E1.
  destruct (os_makedirs _ (world st)) as [r1 w1] eqn:Em1. inversion E1; subst r1 s1. clear E1.
  cbn [snd] in Hmiss.
  rewrite bind_eq in E. cbn [emit] in E.
  apply bind_ok_inv in E as ([] & s2 & E2 & E). unfold call in E2.
  cbn [world with_trace with_world] in E2.
  destruct (os_makedirs _ w1) as [r2 w2] eqn:Em2. inversion E2; subst r2 s2. clear E2.
  cbn [snd] in Hmiss. rename Hmiss into Hm2.
  match type of E with (log ?l ?m ≫= _) ?s = _ =>
    destruct (logged_log l m s) as (s3 & E3 & Hl3) end.
  rewrite bind_eq, E3 in E.
  match type of E with (log ?l ?m ≫= _) ?s = _ =>
    destruct (logged_log l m s) as (s4 & E4 & Hl4) end.
  rewrite bind_eq, E4 in E.
  destruct Hl3 as (Hw3 & Hc3 & _ & _ & _ & t3 & Ht3 & Ho3).
  destruct Hl4 as (Hw4 & Hc4 & _ & _ & _ & t4 & Ht4 & Ho4).
  match type of E with (run_pool ?tasks ?m ?l ?g ?f ?q ?co ≫= _) _ = _ =>
    destruct (run_pool_without_prompt tasks m l g f q co s4) as (s5 & E5 & Hq5) end.
  { rewrite Hc4, Hc3, Hw4, Hw3. exact Hm2. }
  rewrite bind_eq, E5 in E. rewrite bind_eq, collect_training_skipped in E.
  destruct Hq5 as (Hw5 & Hc5 & t5 & Ht5 & Ho5).
  rewrite bind_eq in E. cbn [emit] in E.
  match type of E with (log ?l ?m ≫= _) ?s = _ =>
    destruct (logged_log l m s) as (s6 & E6 & Hl6) end.
  rewrite bind_eq, E6 in E.
  destruct Hl6 as (_ & _ & _ & _ & _ & t6 & Ht6 & Ho6).
  rewrite Hthr in E.
  assert (E' : exists s7 t7, st' = s7 /\ p = generation_prompt /\
                 trace s7 = trace s6 ++ t7 /\ only [KLog] t7).
  { destruct (fltb _ fone);
      match type of E with (log ?l ?m ≫= _) ?s = _ =>
        destruct (logged_log l m s) as (s7 & E7 & Hl7) end;
      rewrite bind_eq, E7 in E; inversion E; subst;
      destruct Hl7 as (_ & _ & _ & _ & _ & t7 & Ht7 & Ho7); eauto 10. }
  destruct E' as (s7 & t7 & <- & -> & Ht7 & Ho7). split; [done|].
  set (t := [EvMakedirs (os_path_join (os_path_join crd
                         ["training_phase"; replace_slash model; "round_" +:+ pretty 0])
                         ["generated"]);
           EvMakedirs (os_path_join (os_path_join crd
                         ["training_phase"; replace_slash model; "round_" +:+ pretty 0])
                         ["failed"])]
          ++ t3 ++ t4 ++ t5 ++ [EvRound (F:=F) 0 generation_prompt 0] ++ t6 ++ t7).
  assert (Ho : only [KMkdir; KLog; KRound] t).
  { assert (Hlog : forall l : list (event F), only [KLog] l -> only [KMkdir; KLog; KRound] l).
    { intros l. apply only_mono. kinds_incl. }
    unfold t. apply only_app.
    { constructor; [kind_in|]. constructor; [kind_in | constructor]. }
    apply only_app; [by apply Hlog|]. apply only_app; [by apply Hlog|].
    apply only_app; [by apply Hlog|]. apply only_app.
    { constructor; [kind_in | constructor]. }
    apply only_app; by apply Hlog. }
  exists t. split.
  { unfold t. rewrite Ht7, Ht6. cbn [trace with_trace]. rewrite Ht5, Ht4, Ht3.
    cbn [trace with_trace with_world]. by rewrite <- !app_assoc. }
  split.
  { unfold t. rewrite !rounds_of_app, (log_no_rounds _ Ho3), (log_no_rounds _ Ho4),
      (log_no_rounds _ Ho5), (log_no_rounds _ Ho6), (log_no_rounds _ Ho7). reflexivity. }
  split; [exact Ho|].
  split; [|split]; (eapply count_kind_only; [|exact Ho]); kind_notin.
Qed.

End MissingPrompt.

Lemma training_missing_prompt_witness :
  Pipeline.generation_prompt = Pipeline.generation_prompt /\
  exists t,
    trace (Pipeline.run_training_phase "deepseek/deepseek-chat" "/run" "/src"
             (Script.start promptless_world (Script.args_for 2 (1 # 2) true)
                Script.zero_tape)).2 = [] ++ t /\
    rounds_of t = [(0, Pipeline.generation_prompt, 0)] /\
    only [KMkdir; KLog; KRound] t /\
    count_kind KGen t = 0%nat /\ count_kind KFix t = 0%nat /\ count_kind KImprove t = 0%nat.
Proof.
  refine (training_accepts_missing_prompt "deepseek/deepseek-chat" "/run" "/src"
            (Script.start promptless_world (Script.args_for 2 (1 # 2) true) Script.zero_tape)
            _ Pipeline.generation_prompt _ _ _ _).
  - vm_compute. reflexivity.
  - vm_compute. reflexivity.
  - vm_compute. reflexivity.
  - vm_compute. reflexivity.
Defined.

(** ** The improvement of a prompt *)

Section ImprovedPrompt.
Context {F : Type} `{FloatOps F} {W : Type} `{!Collaborators W F}.
Import ProgramProcessor Pipeline.

(** X11. When [improve_prompt_logic] returns, it has asked the improver
    model exactly once, and either the answer was written to the output path
    and that path is returned, or the model gave nothing, no file was written
    and the path of the original prompt is returned. *)
Theorem improved_prompt_was_written im pp cd op errs lang logger effort
    (st st' : State F W) p :
  improve_prompt_logic im pp cd op errs lang logger effort st = (Ok p, st') ->
  exists t meta, trace st' = trace st ++ t /\
    ((p = op /\ exists content logs,
        truthy content = true /\ only [KLog] logs /\
        t = [EvPrint (LogRequestingImprovement im); EvImprovementRequest im meta;
             EvWriteFile op content] ++ logs ++ [EvPrint (LogImprovedSaved op)]) \/
     (p = pp /\ exists err,
        t = [EvPrint (LogRequestingImprovement im); EvImprovementRequest im meta;
             EvPrint (LogImproveFailed err)])).
Proof.
  intros E. unfold improve_prompt_logic in E.
  rewrite bind_eq in E. cbn [read] in E.
  destruct (os_path_exists pp (world st)); cbn [negb] in E.
  2:{ apply bind_ok_inv in E as (? & s1 & _ & E).
      apply bind_ok_inv in E as (? & s2 & _ & E). discriminate. }
  apply bind_ok_inv in E as (original & s1 & E1 & E).
  unfold call in E1. destruct (read_text pp (world st)) as [r1 w1]. inversion E1; subst r1 s1.
  clear E1. rewrite bind_eq in E. cbn [read] in E.
  destruct (os_path_exists _ _); cbn [negb] in E; [|discriminate].
  apply bind_ok_inv in E as (meta & s2 & E2 & E).
  unfold call in E2. destruct (get_dynamic_prompt _ _ _) as [r2 w2].
  inversion E2; subst r2 s2. clear E2.
  rewrite bind_eq in E. cbn [emit] in E. rewrite bind_eq in E. cbn [emit] in E.
  apply bind_ok_inv in E as ([[improved u] err] & s3 & E3 & E).
  unfold call in E3. cbn [world with_trace with_world] in E3.
  destruct (ask_any_model _ _ _ _) as [r3 w3]. inversion E3; subst r3 s3. clear E3.
  destruct (truthy_opt improved) eqn:Himp.
  - rewrite bind_eq in E. cbn [emit] in E.
    apply bind_ok_inv in E as ([] & s4 & E4 & E).
    unfold call in E4. cbn [world with_trace with_world] in E4.
    destruct (write_text _ _ _) as [r4 w4]. inversion E4; subst r4 s4. clear E4.
    match type of E with (log ?l ?m ≫= _) ?s = _ =>
      destruct (logged_log l m s) as (s5 & E5 & Hl5) end.
    rewrite bind_eq, E5 in E. rewrite bind_eq in E. cbn [emit] in E. inversion E; subst.
    destruct Hl5 as (_ & _ & _ & _ & _ & t5 & Ht5 & Ho5).
    eexists _, meta. split; [|left; split; [done|]; exists (the improved), t5].
    + cbn [trace with_trace with_world]. rewrite Ht5. cbn [trace with_trace with_world].
      rewrite <- !app_assoc. reflexivity.
    + split; [|split; [exact Ho5 | reflexivity]].
      destruct improved as [c|]; [exact Himp | discriminate].
  - rewrite bind_eq in E. cbn [emit] in E. inversion E; subst.
    eexists _, meta. split; [|right; split; [done|]; exists err; reflexivity].
    cbn [trace with_trace with_world]. rewrite <- !app_assoc. reflexivity.
Qed.

End ImprovedPrompt.

Lemma improved_prompt_witness :
  exists t meta,
    trace (Pipeline.improve_prompt_logic "improver" "/prompts/generation_prompt.txt"
             "/src/Common_prompt_templates" "/run/improved_prompt.txt" ["E0"; "E1"; "E0"]
             "guppy" "/run/round.log" "high"
             (Script.initial (Script.scripted [Script.code "better"] [] []))).2 = [] ++ t /\
    (("/run/improved_prompt.txt" = "/run/improved_prompt.txt" /\ exists content logs,
        truthy content = true /\ only [KLog] logs /\
        t = [EvPrint (LogRequestingImprovement "improver");
             EvImprovementRequest "improver" meta;
             EvWriteFile "/run/improved_prompt.txt" content] ++ logs
            ++ [EvPrint (LogImprovedSaved "/run/improved_prompt.txt")]) \/
     ("/run/improved_prompt.txt" = "/prompts/generation_prompt.txt" /\ exists err,
        t = [EvPrint (LogRequestingImprovement "improver");
             EvImprovementRequest "improver" meta;
             EvPrint (LogImproveFailed err)])).
Proof.
  refine (improved_prompt_was_written "improver" "/prompts/generation_prompt.txt"
            "/src/Common_prompt_templates" "/run/improved_prompt.txt" ["E0"; "E1"; "E0"]
            "guppy" "/run/round.log" "high"
            (Script.initial (Script.scripted [Script.code "better"] [] []))
            _ "/run/improved_prompt.txt" _).
  vm_compute. reflexivity.
Defined.

(** ** What a batch returns *)

Section BatchResults.
Context {F : Type} `{FloatOps F} {W : Type} `{!Collaborators W F}.
Import ProgramProcessor Pipeline.

(** The paths and the stats the production collection keeps. *)
Fixpoint saved_paths (futures : list (result (Outcome (F:=F)))) : list string :=
  match futures with
  | [] => []
  | Ok (save_path, _, _, _) :: rest =>
      (if truthy_opt save_path then [the save_path] else []) ++ saved_paths rest
  | Raised _ :: rest => saved_paths rest
  end.

Fixpoint returned_stats (futures : list (result (Outcome (F:=F)))) : list (GenerationStats F) :=
  match futures with
  | [] => []
  | Ok (_, s, _, _) :: rest => s :: returned_stats rest
  | Raised _ :: rest => returned_stats rest
  end.

(** The errors the training collection gathers. *)
Fixpoint returned_errors (futures : list (result (Outcome (F:=F)))) : list string :=
  match futures with
  | [] => []
  | Ok (_, _, errors, _) :: rest => errors ++ returned_errors rest
  | Raised _ :: rest => returned_errors rest
  end.

(** No task ended by [SystemExit]. *)
Definition no_exit (futures : list (result (Outcome (F:=F)))) : Prop :=
  Forall (fun r => forall c, r <> Raised (SystemExit c)) futures.

Lemma collect_production_result logger futures sf sl (st st' : State F W) sf' sl' :
  collect_production logger futures sf sl st = (Ok (sf', sl'), st') ->
  sf' = sf ++ saved_paths futures /\ sl' = sl ++ returned_stats futures /\ no_exit futures.
Proof.
  revert sf sl st.
  induction futures as [|[[[[sp s] es] wf]|[msg|code]] rest IH]; intros sf sl st E;
    cbn [collect_production saved_paths returned_stats] in *.
  - inversion E; subst. rewrite !app_nil_r. split; [done|]. split; [done | constructor].
  - apply IH in E as (-> & -> & Hne). split.
    + destruct (truthy_opt sp); [by rewrite <- app_assoc | done].
    + split; [by rewrite <- app_assoc | by constructor].
  - apply bind_ok_inv in E as (? & st1 & _ & E). apply IH in E as (-> & -> & Hne).
    split; [done|]. split; [done | by constructor].
  - discriminate.
Qed.

Lemma collect_production_returns logger futures sf sl (st : State F W) :
  no_exit futures ->
  exists st', collect_production logger futures sf sl st
              = (Ok (sf ++ saved_paths futures, sl ++ returned_stats futures), st').
Proof.
  intros Hne. revert sf sl st.
  induction Hne as [|[[[[sp s] es] wf]|[msg|code]] rest Hr Hne IH]; intros sf sl st;
    cbn [collect_production saved_paths returned_stats].
  - exists st. by rewrite !app_nil_r.
  - destruct (IH (if truthy_opt sp then sf ++ [the sp] else sf) (sl ++ [s]) st) as (st' & ->).
    exists st'. do 3 f_equal.
    + destruct (truthy_opt sp); [by rewrite <- app_assoc | done].
    + by rewrite <- app_assoc.
  - rewrite bind_eq. destruct (logged_log logger (LogError msg) st) as (st1 & -> & _).
    apply IH.
  - destruct (Hr code eq_refl).
Qed.

Lemma collect_training_result logger futures errs c (st st' : State F W) errs' c' :
  collect_training logger futures errs c st = (Ok (errs', c'), st') ->
  errs' = errs ++ returned_errors futures /\ c' = c + fixed_count futures /\ no_exit futures.
Proof.
  revert errs c st.
  induction futures as [|[[[[sp s] es] wf]|[msg|code]] rest IH]; intros errs c st E;
    cbn [collect_training returned_errors fixed_count] in *.
  - inversion E; subst. rewrite app_nil_r. split; [done|]. split; [lia | constructor].
  - apply IH in E as (-> & -> & Hne). split; [by rewrite <- app_assoc|].
    split; [destruct wf; lia | by constructor].
  - apply bind_ok_inv in E as (? & st1 & _ & E). apply IH in E as (-> & -> & Hne).
    split; [done|]. split; [lia | by constructor].
  - discriminate.
Qed.

Lemma collect_training_returns logger futures errs c (st : State F W) :
  no_exit futures ->
  exists st', collect_training logger futures errs c st
              = (Ok (errs ++ returned_errors futures, c + fixed_count futures), st').
Proof.
  intros Hne. revert errs c st.
  induction Hne as [|[[[[sp s] es] wf]|[msg|code]] rest Hr Hne IH]; intros errs c st;
    cbn [collect_training returned_errors fixed_count].
  - exists st. by rewrite app_nil_r, Z.add_0_r.
  - destruct (IH (errs ++ es) (if wf then c + 1 else c) st) as (st' & ->).
    exists st'. do 3 f_equal; [by rewrite <- app_assoc | destruct wf; lia].
  - rewrite bind_eq. destruct (logged_log logger (LogTrainingError msg) st) as (st1 & -> & _).
    apply IH.
  - destruct (Hr code eq_refl).
Qed.

Lemma saved_paths_perm futures futures' :
  futures ≡ₚ futures' -> saved_paths futures ≡ₚ saved_paths futures'.
Proof.
  induction 1 as [|x l l' Hp IH|x y l|l l' l'' _ IH1 _ IH2].
  - done.
  - destruct x as [[[[sp s] es] wf]|e]; cbn [saved_paths]; by rewrite IH.
  - destruct x as [[[[sp s] es] wf]|e], y as [[[[sp' s'] es'] wf']|e'];
      cbn [saved_paths]; try done.
    rewrite !app_assoc. f_equiv. apply Permutation_app_comm.
  - by etrans.
Qed.

Lemma returned_stats_perm futures futures' :
  futures ≡ₚ futures' -> returned_stats futures ≡ₚ returned_stats futures'.
Proof.
  induction 1 as [|x l l' Hp IH|x y l|l l' l'' _ IH1 _ IH2].
  - done.
  - destruct x as [[[[sp s] es] wf]|e]; cbn [returned_stats]; by rewrite IH.
  - destruct x as [[[[sp s] es] wf]|e], y as [[[[sp' s'] es'] wf']|e'];
      cbn [returned_stats]; try done. apply perm_swap.
  - by etrans.
Qed.

Lemma returned_errors_perm futures futures' :
  futures ≡ₚ futures' -> returned_errors futures ≡ₚ returned_errors futures'.
Proof.
  induction 1 as [|x l l' Hp IH|x y l|l l' l'' _ IH1 _ IH2].
  - done.
  - destruct x as [[[[sp s] es] wf]|e]; cbn [returned_errors]; by rewrite IH.
  - destruct x as [[[[sp s] es] wf]|e], y as [[[[sp' s'] es'] wf']|e'];
      cbn [returned_errors]; try done.
    rewrite !app_assoc. f_equiv. apply Permutation_app_comm.
  - by etrans.
Qed.

Lemma fixed_count_perm (futures futures' : list (result (Outcome (F:=F)))) :
  futures ≡ₚ futures' -> fixed_count futures = fixed_count futures'.
Proof.
  induction 1 as [|x l l' Hp IH|x y l|l l' l'' _ IH1 _ IH2].
  - done.
  - destruct x as [[[[sp s] es] [|]]|e]; cbn [fixed_count]; lia.
  - destruct x as [[[[sp s] es] [|]]|e], y as [[[[sp' s'] es'] [|]]|e'];
      cbn [fixed_count]; lia.
  - congruence.
Qed.

Lemma no_exit_perm (futures futures' : list (result (Outcome (F:=F)))) : futures ≡ₚ futures' -> no_exit futures -> no_exit futures'.
Proof. intros Hp Hne. unfold no_exit. by rewrite <- Hp. Qed.

Lemma zsum_perm (l l' : list Z) : l ≡ₚ l' -> zsum l = zsum l'.
Proof.
  induction 1 as [|x l l' Hp IH|x y l|l l' l'' _ IH1 _ IH2].
  - done.
  - rewrite !zsum_cons. lia.
  - rewrite !zsum_cons. lia.
  - congruence.
Qed.

(** X12. The count of fixed candidates of a training round does not depend
    on the order in which the candidates complete: collected in any other
    order, the same futures give the same count, hence the same ratio, and
    the same errors up to their order. *)
Theorem training_count_order_independent logger (futures futures' : list (result (Outcome (F:=F))))
    (st st1 st2 : State F W) errs c r :
  futures ≡ₚ futures' ->
  collect_training logger futures [] 0 st = (Ok (errs, c), st1) ->
  collect_training logger futures' [] 0 st = (r, st2) ->
  exists errs', r = Ok (errs', c) /\ errs' ≡ₚ errs.
Proof.
  intros Hp E E'. apply collect_training_result in E as (-> & -> & Hne).
  destruct (collect_training_returns logger futures' [] 0 st (no_exit_perm _ _ Hp Hne))
    as (st' & E2).
  rewrite E2 in E'. inversion E'; subst. eexists. split.
  - by rewrite (fixed_count_perm _ _ Hp).
  - cbn [app]. symmetry. by apply returned_errors_perm.
Qed.

(** X13. The files and the integer totals of the production summary do not
    depend on the order in which the candidates complete: collected in any
    other order, the same futures give the same files and stats up to
    their order, and so the same count of valid programs and the same
    totals of prompt, completion and all tokens. *)
Theorem production_totals_order_independent logger
    (futures futures' : list (result (Outcome (F:=F)))) (st st1 st2 : State F W) sf sl r
    model n total_time :
  futures ≡ₚ futures' ->
  collect_production logger futures [] [] st = (Ok (sf, sl), st1) ->
  collect_production logger futures' [] [] st = (r, st2) ->
  exists sf' sl', r = Ok (sf', sl') /\ sf' ≡ₚ sf /\ sl' ≡ₚ sl /\
    s_valid_programs (aggregate model n total_time sf' sl')
    = s_valid_programs (aggregate model n total_time sf sl) /\
    s_total_prompt_tokens (aggregate model n total_time sf' sl')
    = s_total_prompt_tokens (aggregate model n total_time sf sl) /\
    s_total_completion_tokens (aggregate model n total_time sf' sl')
    = s_total_completion_tokens (aggregate model n total_time sf sl) /\
    s_total_tokens (aggregate model n total_time sf' sl')
    = s_total_tokens (aggregate model n total_time sf sl).
Proof.
  intros Hp E E'. apply collect_production_result in E as (-> & -> & Hne).
  destruct (collect_production_returns logger futures' [] [] st (no_exit_perm _ _ Hp Hne))
    as (st' & E2).
  rewrite E2 in E'. inversion E'; subst. cbn [app].
  pose proof (saved_paths_perm _ _ Hp) as Hsf. pose proof (returned_stats_perm _ _ Hp) as Hsl.
  eexists _, _. split; [reflexivity|]. split; [by symmetry|]. split; [by symmetry|].
  unfold aggregate. cbn [s_valid_programs s_total_prompt_tokens s_total_completion_tokens
                          s_total_tokens].
  split; [unfold len; by rewrite Hsf|].
  split; [apply zsum_perm; by rewrite Hsl|].
  split; apply zsum_perm; by rewrite Hsl.
Qed.

Lemma saved_paths_length (futures : list (result (Outcome (F:=F)))) :
  (length (saved_paths futures) <= length (returned_stats futures) <= length futures)%nat.
Proof.
  induction futures as [|[[[[sp s] es] wf]|e] rest IH]; cbn [saved_paths returned_stats length].
  - lia.
  - rewrite length_app. destruct (truthy_opt sp); cbn [length]; lia.
  - lia.
Qed.

(** X14. The summary of a production phase that returns reports the model,
    the target [n_programs] and as valid programs the number of files
    returned; the files are at most as many as the candidates that came
    back, which are at most as many as the target. *)
Theorem production_summary_counts model prompt crd logfile (st st' : State F W)
    files summary metrics :
  run_production_phase model prompt crd logfile st = (Ok (files, summary, metrics), st') ->
  s_model summary = model /\
  s_total_programs summary = n_programs (config st) /\
  s_valid_programs summary = len files /\
  len files <= len metrics /\ len metrics <= Z.max 0 (n_programs (config st)).
Proof.
  intros E. unfold run_production_phase in E.
  rewrite bind_eq in E. cbn [get_config] in E.
  do 9 (apply bind_ok_inv in E as (? & ? & _ & E)).
  apply bind_ok_inv in E as (futures & s1 & Ep & E).
  apply bind_ok_inv in E as ([sf sl] & s2 & Ec & E).
  apply bind_ok_inv in E as (now & s3 & _ & E).
  apply bind_ok_inv in E as (? & s4 & _ & E).
  inversion E; subst. clear E.
  apply run_pool_length in Ep. rewrite length_range in Ep.
  apply collect_production_result in Ec as (-> & -> & _). cbn [app].
  pose proof (saved_paths_length futures) as Hl.
  unfold aggregate, len. cbn [s_model s_total_programs s_valid_programs].
  rewrite length_map. repeat split; lia.
Qed.

End BatchResults.

(** Two candidates that came back, one fixed and one saved, and a third
    that raised. *)
Definition sample_futures : list (result (ProgramProcessor.Outcome (F:=Q))) :=
  [Ok (None, Script.stat None, ["Compilation Error: E0"], true);
   Raised (Exception "boom");
   Ok (Some "/run/generated/m_output2.py", Script.stat (Some (8 # 10)), [], false)].

Lemma training_order_witness :
  exists errs',
    (Pipeline.collect_training "/run/round.log" (reverse sample_futures) [] 0
       (Script.initial Script.silent_world)).1 = Ok (errs', 1) /\
    errs' ≡ₚ ["Compilation Error: E0"].
Proof.
  refine (training_count_order_independent "/run/round.log" sample_futures
            (reverse sample_futures) (Script.initial Script.silent_world)
            (Pipeline.collect_training "/run/round.log" sample_futures [] 0
               (Script.initial Script.silent_world)).2
            (Pipeline.collect_training "/run/round.log" (reverse sample_futures) [] 0
               (Script.initial Script.silent_world)).2 _ _ _ _ _ _).
  - symmetry. apply reverse_Permutation.
  - vm_compute. reflexivity.
  - vm_compute. reflexivity.
Defined.

Lemma production_order_witness :
  exists sf' sl',
    (Pipeline.collect_production "/run/execution.log" (reverse sample_futures) [] []
       (Script.initial Script.silent_world)).1 = Ok (sf', sl') /\
    sf' ≡ₚ ["/run/generated/m_output2.py"] /\
    sl' ≡ₚ [Script.stat None; Script.stat (Some (8 # 10))] /\
    s_valid_programs (Pipeline.aggregate "m" 3 0%Q sf' sl')
    = s_valid_programs (Pipeline.aggregate "m" 3 0%Q ["/run/generated/m_output2.py"]
                          [Script.stat None; Script.stat (Some (8 # 10))]) /\
    s_total_prompt_tokens (Pipeline.aggregate "m" 3 0%Q sf' sl')
    = s_total_prompt_tokens (Pipeline.aggregate "m" 3 0%Q ["/run/generated/m_output2.py"]
                               [Script.stat None; Script.stat (Some (8 # 10))]) /\
    s_total_completion_tokens (Pipeline.aggregate "m" 3 0%Q sf' sl')
    = s_total_completion_tokens (Pipeline.aggregate "m" 3 0%Q ["/run/generated/m_output2.py"]
                                   [Script.stat None; Script.stat (Some (8 # 10))]) /\
    s_total_tokens (Pipeline.aggregate "m" 3 0%Q sf' sl')
    = s_total_tokens (Pipeline.aggregate "m" 3 0%Q ["/run/generated/m_output2.py"]
                        [Script.stat None; Script.stat (Some (8 # 10))]).
Proof.
  refine (production_totals_order_independent "/run/execution.log" sample_futures
            (reverse sample_futures) (Script.initial Script.silent_world)
            (Pipeline.collect_production "/run/execution.log" sample_futures [] []
               (Script.initial Script.silent_world)).2
            (Pipeline.collect_production "/run/execution.log" (reverse sample_futures) [] []
               (Script.initial Script.silent_world)).2 _ _ _ "m" 3 0%Q _ _ _).
  - symmetry. apply reverse_Permutation.
  - vm_compute. reflexivity.
  - vm_compute. reflexivity.
Defined.

(** A production phase of three candidates. *)
Definition production_run :=
  Pipeline.run_production_phase "deepseek/deepseek-chat" "generation_prompt.txt" "/run"
    "/run/execution.log" (Script.initial Script.boundary_world).

Definition no_production : list string * Summary Q * list (string * metrics Q * metrics Q) :=
  ([], Pipeline.aggregate "" 0 0%Q [] [], []).

Lemma production_summary_witness :
  s_model (Script.value no_production production_run.1).1.2 = "deepseek/deepseek-chat" /\
  s_total_programs (Script.value no_production production_run.1).1.2 = 3 /\
  s_valid_programs (Script.value no_production production_run.1).1.2
  = len (Script.value no_production production_run.1).1.1 /\
  len (Script.value no_production production_run.1).1.1
  <= len (Script.value no_production production_run.1).2 /\
  len (Script.value no_production production_run.1).2 <= Z.max 0 3.
Proof.
  refine (production_summary_counts "deepseek/deepseek-chat" "generation_prompt.txt" "/run"
            "/run/execution.log" (Script.initial Script.boundary_world) production_run.2
            _ _ _ _).
  vm_compute. reflexivity.
Defined.

(** ** [main] of [circuit_assembler.py] *)

Section SelectionFacts.
Context {A : Type}.

(** An ordered selection of [k] items takes [k] items at distinct positions. *)
Lemma kperms_sub k (l sel : list A) : sel ∈ kperms k l -> length sel = k /\ sel ⊆+ l.
Proof.
  revert l sel. induction k as [|k IH]; intros l sel Hin; cbn [kperms] in Hin.
  - apply list_elem_of_singleton in Hin as ->. split; [done | apply submseteq_nil_l].
  - apply list_elem_of_In, in_flat_map in Hin as (j & _ & Hin).
    destruct (l !! j) as [x|] eqn:Hx; [|destruct Hin].
    apply in_map_iff in Hin as (rest & <- & Hrest).
    apply list_elem_of_In, IH in Hrest as [Hlen Hsub].
    split; [cbn [length]; lia|].
    rewrite (delete_Permutation l j x Hx). by apply submseteq_skip.
Qed.

End SelectionFacts.

Section MainFacts.
Context {F : Type} `{FloatOps F} {W : Type} `{!Collaborators W F}.
Import CircuitAssembler.

Lemma possible_spec (files : list string) lo hi sel :
  0 <= lo -> sel ∈ possible files lo hi -> lo <= len sel <= hi /\ sel ⊆+ files.
Proof.
  intros Hlo Hin. unfold possible in Hin.
  apply list_elem_of_In, in_flat_map in Hin as (k & Hk & Hin).
  unfold range2 in Hk. apply in_map_iff in Hk as (i & <- & Hi). apply in_seq in Hi.
  apply list_elem_of_In, kperms_sub in Hin as [Hlen Hsub].
  split; [|done]. unfold len. rewrite Hlen, Z2Nat.id by lia. lia.
Qed.

(** The assemblies a trace reports as failed. *)
Definition failures (t : list (event F)) : list (list string) :=
  omap (fun e => match e with
                 | EvLog _ (LogAssembleFailed sel _) => Some sel
                 | _ => None
                 end) t.

Lemma failures_app t1 t2 : failures (t1 ++ t2) = failures t1 ++ failures t2.
Proof. apply omap_app. Qed.

Lemma body_step_failures args files eff s t1 s' :
  body_step args files eff s t1 s' ->
  failed_count s' = failed_count s + len (failures t1).
Proof. destruct 1; cbn; unfold len; cbn [length]; lia. Qed.

(** The loop counts as failed what it logs as failed. *)
Lemma sampling_loop_failures args files eff
    (bounds : 1 <= min_files args <= eff /\ eff <= len files) target limit
    fuel s (st st' : State F W) s' :
  sampling_loop fuel args files eff target limit s st = (Ok (Some s'), st') ->
  exists t, trace st' = trace st ++ t /\ failed_count s' = failed_count s + len (failures t).
Proof.
  revert s st. induction fuel as [|fuel IH]; intros s st E;
    cbn [sampling_loop] in E; destruct (loop_cond target limit s).
  - discriminate.
  - inversion E; subst. exists []. rewrite app_nil_r. split; [done | cbn; unfold len; cbn [length]; lia].
  - apply bind_ok_inv in E as (s1 & st1 & Eb & E).
    destruct (loop_body_run args files eff bounds _ _ _ _ Eb) as (t1 & Ht1 & _ & Hstep).
    destruct (IH _ _ E) as (t2 & Ht2 & Hf).
    exists (t1 ++ t2). rewrite Ht2, Ht1, app_assoc. split; [done|].
    rewrite failures_app, Hf, (body_step_failures _ _ _ _ _ _ Hstep).
    unfold len. rewrite length_app. lia.
  - inversion E; subst. exists []. rewrite app_nil_r. split; [done | cbn; unfold len; cbn [length]; lia].
Qed.

End MainFacts.

Section MainRun.
Context {F : Type} `{FloatOps F} {W : Type} `{!Collaborators W F}.
Import CircuitAssembler.

(** The exit status a trace stands for: 0 when some assembly it holds is
    not reported as failed. *)
Definition status_of (t : list (event F)) : Z :=
  if len (failures t) <? len (attempted t) then 0 else 1.

(** What a run of [main] records once the input files are listed. *)
Definition sampled (args : Args) (files : list string) (t : list (event F))
    (r : result (option Z)) : Prop :=
  NoDup (attempted t) /\
  (forall sel, sel ∈ attempted t ->
     sel ∈ possible files (min_files args) (Z.min (max_files args) (len files))) /\
  (forall status, r = Ok (Some status) -> status = status_of t).

Lemma sampled_nothing args files (t : list (event F)) r :
  attempted t = [] -> (forall status, r = Ok (Some status) -> status = 1) ->
  sampled args files t r.
Proof.
  intros Ha Hs. unfold sampled. rewrite Ha. split; [constructor|].
  split; [intros sel Hin; by apply elem_of_nil in Hin|].
  intros status Hr. rewrite (Hs _ Hr). unfold status_of. rewrite Ha.
  change (len []) with 0. destruct (len (failures t) <? 0) eqn:Hlt; [|done].
  apply Z.ltb_lt in Hlt. unfold len in Hlt. lia.
Qed.

Lemma main_with_files_run fuel args files (st st' : State F W) r :
  1 <= n_generations args -> 1 <= min_files args -> min_files args <= max_files args ->
  main_with_files fuel args files st = (r, st') ->
  exists t, trace st' = trace st ++ t /\ sampled args files t r.
Proof.
  intros Hgen Hmin Hmm E. unfold main_with_files in E.
  destruct (len files <? min_files args) eqn:Hlt.
  { rewrite bind_eq in E. unfold logging in E. cbn [emit] in E.
    rewrite bind_eq in E. cbn [emit] in E. inversion E; subst r st'.
    eexists [_; _]. cbn [trace with_trace]. rewrite <- app_assoc. split; [reflexivity|].
    apply sampled_nothing; [reflexivity|]. intros status Hs. by inversion Hs. }
  apply Z.ltb_ge in Hlt.
  set (eff := Z.min (max_files args) (len files)) in *.
  assert (bounds : 1 <= min_files args <= eff /\ eff <= len files) by (unfold eff; lia).
  set (bound := max_unique_combinations (len files) (min_files args) eff) in *.
  set (target := Z.min (n_generations args) bound) in *.
  set (limit := Z.max 1000 (target * 25)) in *.
  rewrite bind_eq in E.
  assert (Hcap : exists st1 cap,
             (if target <? n_generations args
              then logging args (LogCapping (n_generations args) bound target)
              else ret ()) st = (Ok tt, st1) /\
             trace st1 = trace st ++ cap /\ attempted cap = [] /\ failures cap = []).
  { destruct (target <? n_generations args).
    - eexists _, [_]. split; [reflexivity|]. done.
    - exists st, []. rewrite app_nil_r. done. }
  destruct Hcap as (st1 & cap & E1 & Ht1 & Hca & Hcf). rewrite E1 in E.
  rewrite bind_eq in E. unfold logging at 1 in E. cbn [emit] in E.
  rewrite bind_eq in E. cbn [emit with_trace trace] in E.
  rewrite bind_eq in E.
  match type of E with context [sampling_loop _ _ _ _ _ _ _ ?s0] =>
    destruct (sampling_loop fuel args files eff target limit initial_loop_state s0)
      as [rl st2] eqn:El end.
  assert (Hinv0 : sampler_inv args files eff initial_loop_state ([] : list (event F))).
  { repeat split; try done; try apply NoDup_nil_2.
    all: intros x Hx; by apply elem_of_nil in Hx. }
  pose proof (max_unique_nonneg (len files) (min_files args) eff) as Hb. fold bound in Hb.
  destruct (sampling_loop_run args files eff bounds target limit _ _ _ _ _ [] Hinv0
              ltac:(cbn [generated_count initial_loop_state]; unfold target; lia) El)
    as (tl & Htl & _ & Hok & _ & Hres).
  cbn [app] in Hok, Hres. cbn [trace with_trace] in Htl.
  set (pre0 := cap ++ [EvLog (logfile_path args) (LogFound (len files));
                       EvPrint (LogFound (len files))]).
  assert (Hpa : attempted pre0 = []) by (unfold pre0; by rewrite attempted_app, Hca).
  assert (Hpf : failures pre0 = []) by (unfold pre0; by rewrite failures_app, Hcf).
  assert (Hbase : trace st2 = trace st ++ pre0 ++ tl).
  { rewrite Htl, Ht1. unfold pre0. by rewrite <- !app_assoc. }
  assert (Hloop : forall r0, (forall status, r0 <> Ok (Some status)) ->
            sampled args files (pre0 ++ tl) r0).
  { intros r0 Hr0. unfold sampled. rewrite attempted_app, Hpa. cbn [app].
    split; [apply Hok|]. split; [apply Hok|]. intros status Hs. destruct (Hr0 _ Hs). }
  destruct rl as [[s|]|e].
  - destruct Hres as (Hinv & _ & _).
    destruct Hinv as (_ & _ & Hcnt & Hg0 & Hf0 & _).
    destruct (sampling_loop_failures args files eff bounds target limit _ _ _ _ _ El)
      as (tl' & Htl' & Hfail).
    cbn [trace with_trace] in Htl'. rewrite Htl in Htl'. apply app_inv_head in Htl' as <-.
    cbn [failed_count initial_loop_state] in Hfail.
    rewrite bind_eq in E.
    assert (Hearly : exists st3 early,
               (if generated_count s <? target
                then logging args (LogStoppedEarly (generated_count s))
                else ret ()) st2 = (Ok tt, st3) /\
               trace st3 = trace st2 ++ early /\ attempted early = [] /\ failures early = []).
    { destruct (generated_count s <? target).
      - eexists _, [_]. split; [reflexivity|]. done.
      - exists st2, []. rewrite app_nil_r. done. }
    destruct Hearly as (st3 & early & E3 & Ht3 & Hea & Hef). rewrite E3 in E.
    rewrite bind_eq in E. unfold logging in E. cbn [emit] in E. inversion E; subst r st'.
    cbn [trace with_trace].
    eexists (pre0 ++ tl ++ early ++ [_]).
    split; [rewrite Ht3, Hbase, <- !app_assoc; reflexivity|].
    unfold sampled, status_of.
    rewrite !attempted_app, !failures_app, Hpa, Hpf, Hea, Hef. cbn [app].
    change (attempted [EvLog (logfile_path args)
                         (LogComplete (generated_count s) (failed_count s) (n_generations args))])
      with ([] : list (list string)).
    change (failures [EvLog (logfile_path args)
                        (LogComplete (generated_count s) (failed_count s) (n_generations args))])
      with ([] : list (list string)).
    rewrite !app_nil_r.
    split; [apply Hok|]. split; [apply Hok|]. intros status Hs. inversion Hs; subst status.
    destruct (0 <? generated_count s) eqn:Hg;
      destruct (len (failures tl) <? len (attempted tl)) eqn:Hc; try done.
    + apply Z.ltb_lt in Hg. apply Z.ltb_ge in Hc. lia.
    + apply Z.ltb_ge in Hg. apply Z.ltb_lt in Hc. lia.
  - inversion E; subst r st'. exists (pre0 ++ tl). split; [done|]. by apply Hloop.
  - inversion E; subst r st'. exists (pre0 ++ tl). split; [done|]. by apply Hloop.
Qed.

(** The input files [main] lists: those found once the output directory is
    made. *)
Definition listed (args : Args) (st : State F W) : list string :=
  glob_py_sorted (input_dir args) (os_makedirs (output_dir args) (world st)).2.

Lemma main_run fuel args (st st' : State F W) r :
  main fuel args st = (r, st') ->
  exists t, trace st' = trace st ++ t /\ sampled args (listed args st) t r /\
    (attempted t <> [] -> 1 <= min_files args <= max_files args).
Proof.
  intros E. unfold main in E.
  assert (Hexit : forall msg,
            (emit (EvPrint (LogError msg));; ret (Some 1)) st = (r, st') ->
            exists t, trace st' = trace st ++ t /\ sampled args (listed args st) t r /\
              (attempted t <> [] -> 1 <= min_files args <= max_files args)).
  { intros msg E0. rewrite bind_eq in E0. cbn [emit] in E0. inversion E0; subst r st'.
    eexists [_]. split; [reflexivity|]. split; [|done].
    apply sampled_nothing; [reflexivity|]. intros status Hs. by inversion Hs. }
  destruct (n_generations args <? 1) eqn:Hgen; [by eapply Hexit|].
  destruct (min_files args <? 1) eqn:Hmin; [by eapply Hexit|].
  destruct (max_files args <? min_files args) eqn:Hmm; [by eapply Hexit|].
  apply Z.ltb_ge in Hgen, Hmin, Hmm. clear Hexit.
  rewrite bind_eq in E. cbn [emit] in E. rewrite bind_eq in E. unfold call at 1 in E.
  cbn [world with_trace] in E. unfold listed.
  destruct (os_makedirs (output_dir args) (world st)) as [[[]|e] w1].
  2:{ inversion E; subst r st'. eexists [_]. split; [reflexivity|]. split; [|done].
      apply sampled_nothing; [reflexivity | discriminate]. }
  rewrite bind_eq in E. unfold logging at 1 in E. cbn [emit] in E.
  rewrite bind_eq in E. cbn [read world with_world with_trace] in E. cbn [snd].
  destruct (bool_decide (glob_py_sorted (input_dir args) w1 <> [])); cbn [negb] in E.
  - apply main_with_files_run in E as (t & Ht & Hs); [|lia|lia|lia].
    cbn [trace with_world with_trace] in Ht. eexists ([_; _] ++ t).
    split; [rewrite Ht, <- !app_assoc; reflexivity|]. split; [|lia].
    destruct Hs as (Hnd & Hp & Hst). unfold sampled, status_of in *.
    rewrite attempted_app, failures_app. exact (conj Hnd (conj Hp Hst)).
  - rewrite bind_eq in E. unfold logging in E. cbn [emit] in E.
    rewrite bind_eq in E. cbn [emit] in E. inversion E; subst r st'.
    eexists [_; _; _; _]. cbn [trace with_world with_trace]. rewrite <- !app_assoc.
    split; [reflexivity|]. split; [|done].
    apply sampled_nothing; [reflexivity|]. intros status Hs. by inversion Hs.
Qed.

End MainRun.

Section MainTheorems.
Context {F : Type} `{FloatOps F} {W : Type} `{!Collaborators W F}.
Import CircuitAssembler.

(** X15. [main] rejects invalid arguments before it touches anything: with
    [n_generations < 1], [min_files < 1] or [max_files < min_files] it
    prints one message and returns 1; no directory is made, no log is
    written and no file is listed or assembled. *)
Theorem invalid_arguments_rejected fuel args (st : State F W) :
  n_generations args < 1 \/ min_files args < 1 \/ max_files args < min_files args ->
  exists msg,
    main fuel args st = (Ok (Some 1), with_trace st (trace st ++ [EvPrint (LogError msg)])).
Proof.
  intros Hbad. unfold main.
  destruct (n_generations args <? 1) eqn:Hgen; [eexists; reflexivity|].
  destruct (min_files args <? 1) eqn:Hmin; [eexists; reflexivity|].
  destruct (max_files args <? min_files args) eqn:Hmm; [eexists; reflexivity|].
  apply Z.ltb_ge in Hgen, Hmin, Hmm. lia.
Qed.

(** X16. Every selection [main] hands to the assembler is new and well
    formed: it holds between [min_files] and [max_files] files, at least
    one, taken at distinct positions of the list of input files, and no
    selection is handed over twice. The draws of [random.randint] and
    [random.sample] are therefore always within their ranges. *)
Theorem main_selections_well_formed fuel args (st st' : State F W) r :
  main fuel args st = (r, st') ->
  exists t, trace st' = trace st ++ t /\ NoDup (attempted t) /\
    forall sel, sel ∈ attempted t ->
      1 <= len sel /\ min_files args <= len sel <= max_files args /\
      sel ⊆+ listed args st.
Proof.
  intros E. apply main_run in E as (t & Ht & (Hnd & Hp & _) & Hargs).
  exists t. split; [done|]. split; [done|]. intros sel Hin.
  assert (Hne : attempted t <> []) by (intros Hnil; rewrite Hnil in Hin; by apply elem_of_nil in Hin).
  specialize (Hargs Hne).
  apply Hp, possible_spec in Hin as [Hlen Hsub]; [|lia]. split; [lia|]. split; [lia | done].
Qed.

(** X17. The exit status of [main] tells whether a circuit was assembled:
    it is 0 when some assembly tried was not reported as failed, and 1
    when every assembly tried failed or none was tried. *)
Theorem exit_status_reports_success fuel args (st st' : State F W) status :
  main fuel args st = (Ok (Some status), st') ->
  exists t, trace st' = trace st ++ t /\
    ((status = 0 /\ len (failures t) < len (attempted t)) \/
     (status = 1 /\ len (attempted t) <= len (failures t))).
Proof.
  intros E. apply main_run in E as (t & Ht & (_ & _ & Hs) & _).
  exists t. split; [done|]. rewrite (Hs status eq_refl). unfold status_of.
  destruct (len (failures t) <? len (attempted t)) eqn:Hc.
  - apply Z.ltb_lt in Hc. by left.
  - apply Z.ltb_ge in Hc. by right.
Qed.

(** X18. [main] terminates, whatever its arguments, the files it finds,
    the draws and the assembler: its loop makes at most
    [(n + 1) * (max(1000, 25 n) + 1)] iterations for [n = n_generations]. *)
Theorem main_terminates fuel args (st : State F W) :
  (Z.to_nat ((n_generations args + 1) * (Z.max 1000 (n_generations args * 25) + 1))
   <= fuel)%nat ->
  (main fuel args st).1 <> Ok None.
Proof.
  intros Hfuel. unfold main.
  destruct (n_generations args <? 1) eqn:Hgen; [done|].
  destruct (min_files args <? 1) eqn:Hmin; [done|].
  destruct (max_files args <? min_files args) eqn:Hmm; [done|].
  apply Z.ltb_ge in Hgen, Hmin, Hmm.
  rewrite bind_eq. cbn [emit]. rewrite bind_eq. unfold call at 1.
  destruct (os_makedirs _ _) as [[[]|e] w1]; [|done].
  rewrite bind_eq. unfold logging at 1. cbn [emit]. rewrite bind_eq. cbn [read].
  match goal with |- context [bool_decide ?P] => destruct (bool_decide P) end;
    cbn [negb]; [|done].
  match goal with |- context [main_with_files fuel args ?fs ?s] =>
    set (files := fs); set (s0 := s) end.
  destruct (len files <? min_files args) eqn:Hlen.
  { unfold main_with_files. rewrite Hlen. done. }
  apply Z.ltb_ge in Hlen.
  apply main_with_files_terminates; [lia | lia | lia | lia |].
  pose proof (max_unique_nonneg (len files) (min_files args)
                (Z.min (max_files args) (len files))) as Hb.
  etrans; [|exact Hfuel]. apply Z2Nat.inj_le; nia.
Qed.

End MainTheorems.

(** A world with three input files, and arguments that ask for nothing. *)
Definition listing_world : Script.World :=
  {| Script.answers := []; Script.compile_errors := []; Script.run_errors := [];
     Script.missing_paths := []; Script.assemble_fails := false;
     Script.py_files := Script.three_files |}.

Definition no_generations : CircuitAssembler.Args := {|
  CircuitAssembler.input_dir := "/in"; CircuitAssembler.output_dir := "/out";
  CircuitAssembler.n_generations := 0; CircuitAssembler.min_files := 1;
  CircuitAssembler.max_files := 2; CircuitAssembler.language := "guppy"
|}.

Definition one_generation : CircuitAssembler.Args := {|
  CircuitAssembler.input_dir := "/in"; CircuitAssembler.output_dir := "/out";
  CircuitAssembler.n_generations := 1; CircuitAssembler.min_files := 1;
  CircuitAssembler.max_files := 2; CircuitAssembler.language := "guppy"
|}.

(** A run of [main] on the three files. *)
Definition main_run_3 : result (option Z) * State Q Script.World :=
  CircuitAssembler.main 2000 Script.sampler_args (Script.initial listing_world).

Lemma invalid_arguments_witness :
  exists msg,
    CircuitAssembler.main 10 no_generations (Script.initial listing_world)
    = (Ok (Some 1),
       with_trace (Script.initial listing_world)
         (trace (Script.initial listing_world) ++ [EvPrint (LogError msg)])).
Proof.
  refine (invalid_arguments_rejected 10%nat no_generations (Script.initial listing_world) _).
  left. vm_compute. reflexivity.
Defined.

Lemma main_selections_witness :
  exists t, trace main_run_3.2 = [] ++ t /\ NoDup (attempted t) /\
    forall sel, sel ∈ attempted t ->
      1 <= len sel /\ 1 <= len sel <= 2 /\
      sel ⊆+ listed Script.sampler_args (Script.initial listing_world).
Proof.
  refine (main_selections_well_formed 2000%nat Script.sampler_args
            (Script.initial listing_world) main_run_3.2 main_run_3.1 _).
  vm_compute. reflexivity.
Defined.

Lemma exit_status_witness :
  exists t, trace main_run_3.2 = [] ++ t /\
    ((0 = 0 /\ len (failures t) < len (attempted t)) \/
     (0 = 1 /\ len (attempted t) <= len (failures t))).
Proof.
  refine (exit_status_reports_success 2000%nat Script.sampler_args
            (Script.initial listing_world) main_run_3.2 0 _).
  vm_compute. reflexivity.
Defined.

Lemma main_terminates_witness :
  (CircuitAssembler.main 2002 one_generation (Script.initial listing_world)).1 <> Ok None.
Proof.
  refine (main_terminates 2002%nat one_generation (Script.initial listing_world) _).
  vm_compute. lia.
Defined.

(** ** [assemble_circuits] of [gen_w_improve.py] *)

Section AssembleCircuits.
Context {F : Type} `{FloatOps F} {W : Type} `{!Collaborators W F}.
Import Pipeline.

(** The largest selection [assemble_circuits] draws. *)
Definition max_selection (cfg : Config F) (files : list string) : Z :=
  let max_k := Z.min (n_circuits_per_assembly cfg) (len files) in
  if max_k <? 1 then 1 else max_k.

Lemma max_selection_bounds cfg files :
  files <> [] -> 1 <= max_selection cfg files <= len files.
Proof.
  intros Hne. assert (1 <= len files).
  { unfold len. destruct files; [done|]. cbn [length]. lia. }
  unfold max_selection. destruct (_ <? 1) eqn:Hlt; [lia|]. apply Z.ltb_ge in Hlt. lia.
Qed.

Variable files : list string.
Variable K : Z.

(** What one iteration does to the loop variables, and the events it adds:
    a duplicate draw, or a new selection handed to the assembler. *)
Inductive assemble_step (s : AssembleState) : list (event F) -> AssembleState -> Prop :=
| astep_duplicate sel :
    sel ∈ seen s ->
    assemble_step s [] {| seen := seen s; count := count s; attempts := attempts s + 1 |}
| astep_new sel out s' :
    sel ∉ seen s -> sel ∈ possible files 1 K ->
    seen s' = {[sel]} ∪ seen s -> attempts s' = 0 ->
    count s' = count s \/ count s' = count s + 1 ->
    assemble_step s [EvAssemble sel out (count s)] s'.

(** The loop variables agree with the trace. *)
Definition assemble_inv (s : AssembleState) (t : list (event F)) : Prop :=
  NoDup (attempted t) /\
  (forall x, x ∈ attempted t -> x ∈ seen s) /\
  (forall x, x ∈ seen s -> x ∈ possible files 1 K) /\
  0 <= attempts s /\ 0 <= count s <= len (attempted t).

Lemma assemble_step_inv s t t1 s' :
  assemble_inv s t -> assemble_step s t1 s' -> assemble_inv s' (t ++ t1).
Proof.
  intros (Hnd & Hatt & Hseen & Ha & Hc) Hstep.
  destruct Hstep as [sel Hin | sel out s' Hnin Hp Hs Hat Hcnt]; unfold assemble_inv.
  - rewrite app_nil_r. cbn [seen count attempts]. repeat split; try done; lia.
  - rewrite attempted_app. change (attempted [EvAssemble sel out (count s)]) with [sel].
    rewrite Hs, Hat. split.
    { apply NoDup_app. split; [done|]. split; [|apply NoDup_singleton].
      intros x Hx Hx'. apply list_elem_of_singleton in Hx' as ->. apply Hnin. by apply Hatt. }
    split.
    { intros x Hx. apply elem_of_union.
      apply elem_of_app in Hx as [Hx|Hx]; [right; by apply Hatt|].
      apply list_elem_of_singleton in Hx. left. by apply elem_of_singleton. }
    split.
    { intros x Hx. apply elem_of_union in Hx as [Hx|Hx]; [|by apply Hseen].
      apply elem_of_singleton in Hx. by subst. }
    split; [lia|]. unfold len in *. rewrite length_app. cbn [length]. lia.
Qed.

End AssembleCircuits.

Section AssembleLoop.
Context {F : Type} `{FloatOps F} {W : Type} `{!Collaborators W F}.
Import Pipeline.

(** An iteration with files to draw from is one of the two steps; it
    raises only when the assembler raises something that is not an
    [Exception]. *)
Lemma assemble_body_run model files out s (st st' : State F W) r :
  files <> [] ->
  assemble_body model files out s st = (r, st') ->
  exists t1, trace st' = trace st ++ t1 /\ config st' = config st /\
    match r with
    | Ok (Some s') => assemble_step files (max_selection (config st) files) s t1 s'
    | Ok None => False
    | Raised e =>
        exists sel out, t1 = [EvAssemble sel out (count s)] /\ (sel ∉ seen s) /\
          (sel ∈ possible files 1 (max_selection (config st) files))
    end.
Proof.
  intros Hne E. unfold assemble_body in E. rewrite bind_eq in E. cbn [get_config] in E.
  rewrite bool_decide_eq_true_2 in E by done. cbn [negb] in E.
  fold (max_selection (config st) files) in E.
  pose proof (max_selection_bounds (config st) files Hne) as HK.
  set (K := max_selection (config st) files) in *.
  rewrite bind_eq in E.
  destruct (randint_run 1 K st) as (k & st1 & Ek & Hk & Hc1 & Ht1 & _); [lia|].
  rewrite Ek in E. rewrite bind_eq in E.
  destruct (sample_run files k st1) as (sel & st2 & Es & Hsel & Hc2 & Ht2 & _); [lia|].
  rewrite Es in E.
  assert (Hposs : sel ∈ possible files 1 K) by (eapply kperms_possible; eauto).
  destruct (bool_decide (sel ∈ seen s)) eqn:Hd.
  - apply bool_decide_eq_true in Hd. inversion E; subst. exists [].
    rewrite app_nil_r. split; [congruence|]. split; [congruence|].
    by apply astep_duplicate with (sel := sel).
  - apply bool_decide_eq_false in Hd. unfold try_except in E.
    rewrite bind_eq in E. cbn [emit] in E. rewrite bind_eq in E. unfold call in E.
    cbn [world with_trace] in E.
    destruct (assemble sel _ _ _ (world st2)) as [[[]|[msg|c]] w]; inversion E; subst;
      eexists [_]; cbn [trace config with_world with_trace];
      (split; [rewrite Ht2, Ht1; reflexivity|]); (split; [congruence|]).
    + apply astep_new; cbn [seen count attempts]; auto.
    + apply astep_new; cbn [seen count attempts]; auto.
    + eexists _, _. eauto.
Qed.

(** Without files the loop tries nothing. *)
Lemma assemble_loop_no_files fuel model out s (st : State F W) :
  exists r, assemble_loop fuel model [] out s st = (Ok r, st) /\ (r = None \/ r = Some s).
Proof.
  destruct fuel as [|fuel]; cbn [assemble_loop]; rewrite bind_eq; cbn [get_config];
    destruct (_ && _); eauto.
Qed.

(** A run of the loop keeps the invariant. *)
Lemma assemble_loop_run fuel model files out s (st st' : State F W) r t0 :
  files <> [] ->
  assemble_inv files (max_selection (config st) files) s t0 ->
  count s <= Z.max 0 (n_assemble (config st)) ->
  assemble_loop fuel model files out s st = (r, st') ->
  exists t, trace st' = trace st ++ t /\ config st' = config st /\
    NoDup (attempted (t0 ++ t)) /\
    (forall x, x ∈ attempted (t0 ++ t) ->
       x ∈ possible files 1 (max_selection (config st) files)) /\
    (forall s', r = Ok (Some s') ->
       assemble_inv files (max_selection (config st) files) s' (t0 ++ t) /\
       count s' <= Z.max 0 (n_assemble (config st))).
Proof.
  intros Hne. revert s st t0.
  assert (Hstop : forall s (st : State F W) t0,
            assemble_inv files (max_selection (config st) files) s t0 ->
            count s <= Z.max 0 (n_assemble (config st)) ->
            forall r0 : result (option AssembleState), (r0 = Ok None \/ r0 = Ok (Some s)) ->
            exists t, trace st = trace st ++ t /\ config st = config st /\
              NoDup (attempted (t0 ++ t)) /\
              (forall x, x ∈ attempted (t0 ++ t) ->
                 x ∈ possible files 1 (max_selection (config st) files)) /\
              (forall s', r0 = Ok (Some s') ->
                 assemble_inv files (max_selection (config st) files) s' (t0 ++ t) /\
                 count s' <= Z.max 0 (n_assemble (config st)))).
  { intros s st t0 Hinv Hc r0 Hr. exists []. rewrite !app_nil_r.
    split; [done|]. split; [done|]. split; [apply Hinv|].
    split; [intros x Hx; apply Hinv; by apply Hinv|].
    intros s' Hs. destruct Hr as [->| ->]; inversion Hs; subst. done. }
  induction fuel as [|fuel IH]; intros s st t0 Hinv Hc E;
    cbn [assemble_loop] in E; rewrite bind_eq in E; cbn [get_config] in E;
    destruct ((count s <? n_assemble (config st)) && (attempts s <? 1000)) eqn:Hcond.
  - inversion E; subst. apply (Hstop s); auto.
  - inversion E; subst. apply (Hstop s); auto.
  - rewrite bind_eq in E.
    destruct (assemble_body model files out s st) as [[[s1|]|e] st1] eqn:Eb;
      destruct (assemble_body_run _ _ _ _ _ _ _ Hne Eb) as (t1 & Ht1 & Hc1 & Hstep);
      [|done|].
    + pose proof (assemble_step_inv _ _ _ _ _ _ Hinv Hstep) as Hinv1.
      assert (Hcnt1 : count s1 <= Z.max 0 (n_assemble (config st))).
      { apply andb_prop in Hcond as [Hlt _]. apply Z.ltb_lt in Hlt.
        destruct Hstep as [|? ? ? _ _ _ _ [->| ->]]; cbn [count]; lia. }
      rewrite <- Hc1 in Hinv1, Hcnt1.
      destruct (IH _ _ _ Hinv1 Hcnt1 E) as (t2 & Ht2 & Hc2 & Hnd & Hp & Hres).
      rewrite Hc1 in Hp, Hres, Hc2.
      exists (t1 ++ t2). rewrite (app_assoc t0 t1 t2).
      split; [by rewrite Ht2, Ht1, app_assoc|]. split; [congruence|]. done.
    + inversion E; subst. destruct Hstep as (sel & o & -> & Hnin & Hp).
      exists [EvAssemble sel o (count s)]. split; [done|]. split; [done|].
      destruct Hinv as (Hnd & Hatt & Hseen & _).
      rewrite attempted_app. change (attempted [EvAssemble sel o (count s)]) with [sel].
      split.
      { apply NoDup_app. split; [done|]. split; [|apply NoDup_singleton].
        intros x Hx Hx'. apply list_elem_of_singleton in Hx' as ->. apply Hnin.
        by apply Hatt. }
      split; [|discriminate].
      intros x Hx. apply elem_of_app in Hx as [Hx|Hx]; [by apply Hseen, Hatt|].
      apply list_elem_of_singleton in Hx. by subst.
  - inversion E; subst. apply (Hstop s); auto.
Qed.

End AssembleLoop.

Section AssembleTermination.
Context {F : Type} `{FloatOps F} {W : Type} `{!Collaborators W F}.
Import Pipeline.

Lemma size_within (X : gset (list string)) (l : list (list string)) :
  (forall x, x ∈ X -> x ∈ l) -> (size X <= length l)%nat.
Proof.
  intros Hsub. apply submseteq_length, NoDup_submseteq; [apply NoDup_elements|].
  intros x Hx. apply Hsub. by apply elem_of_elements.
Qed.

(** The iterations the loop can still make: every new selection resets the
    counter of duplicate draws, but there are only so many selections. *)
Definition assemble_remaining (files : list string) (K : Z) (s : AssembleState) : nat :=
  ((length (possible files 1 K) - size (seen s)) * 1001 + Z.to_nat (1000 - attempts s))%nat.

Lemma assemble_step_remaining files K s (t1 : list (event F)) s' :
  (forall x, x ∈ seen s -> x ∈ possible files 1 K) -> 0 <= attempts s < 1000 ->
  assemble_step files K s t1 s' ->
  (assemble_remaining files K s' < assemble_remaining files K s)%nat /\
  (forall x, x ∈ seen s' -> x ∈ possible files 1 K) /\ 0 <= attempts s'.
Proof.
  intros Hseen Ha Hstep. unfold assemble_remaining.
  destruct Hstep as [sel Hin | sel out s' Hnin Hp Hs Hat Hcnt]; cbn [seen attempts].
  - split; [lia|]. split; [done | lia].
  - assert (Hseen' : forall x, x ∈ seen s' -> x ∈ possible files 1 K).
    { intros x Hx. rewrite Hs in Hx. apply elem_of_union in Hx as [Hx|Hx]; [|by apply Hseen].
      apply elem_of_singleton in Hx. by subst. }
    pose proof (size_within _ _ Hseen') as Hle.
    assert (Hsize : size (seen s') = S (size (seen s))).
    { rewrite Hs, size_union, size_singleton; [done|]. by apply disjoint_singleton_l. }
    rewrite Hat. split; [lia|]. split; [done | lia].
Qed.

Lemma assemble_loop_ends fuel model files out s (st : State F W) :
  files <> [] ->
  (forall x, x ∈ seen s -> x ∈ possible files 1 (max_selection (config st) files)) ->
  0 <= attempts s ->
  (assemble_remaining files (max_selection (config st) files) s <= fuel)%nat ->
  (assemble_loop fuel model files out s st).1 <> Ok None.
Proof.
  intros Hne. revert s st. induction fuel as [|fuel IH]; intros s st Hseen Ha Hfuel;
    cbn [assemble_loop]; rewrite bind_eq; cbn [get_config];
    destruct ((count s <? n_assemble (config st)) && (attempts s <? 1000)) eqn:Hcond;
    try done.
  - apply andb_prop in Hcond as [_ Hlt]. apply Z.ltb_lt in Hlt.
    unfold assemble_remaining in Hfuel. lia.
  - apply andb_prop in Hcond as [_ Hlt]. apply Z.ltb_lt in Hlt.
    rewrite bind_eq.
    destruct (assemble_body model files out s st) as [[[s1|]|e] st1] eqn:Eb;
      destruct (assemble_body_run _ _ _ _ _ _ _ Hne Eb) as (t1 & _ & Hc1 & Hstep);
      [|done|done].
    destruct (assemble_step_remaining _ _ _ _ _ Hseen ltac:(lia) Hstep) as (Hm & Hseen1 & Ha1).
    apply IH; [by rewrite Hc1 | done | rewrite Hc1; lia].
Qed.

Lemma assemble_loop_without_files fuel model out s (st : State F W) :
  (0 < fuel)%nat -> assemble_loop fuel model [] out s st = (Ok (Some s), st).
Proof.
  intros Hfuel. destruct fuel as [|fuel]; [lia|]. cbn [assemble_loop].
  rewrite bind_eq. cbn [get_config]. destruct (_ && _); [|done].
  rewrite bind_eq. unfold assemble_body. rewrite bind_eq. cbn [get_config].
  rewrite bool_decide_eq_false_2 by (intros Hn; by apply Hn). done.
Qed.

(** X19. [assemble_circuits] terminates, whatever the draws and the
    assembler, also when every assembly fails: a failure leaves the
    counter of duplicate draws at zero, but each failure uses up one of the
    [sum P(n, k)] selections of one to [max_k] of the [n] files, and 1000
    duplicate draws in a row end the loop. *)
Theorem assemble_circuits_terminates fuel model files base (st : State F W) :
  (Z.to_nat (CircuitAssembler.max_unique_combinations (len files) 1
               (max_selection (config st) files) * 1001 + 1000) <= fuel)%nat ->
  (assemble_circuits fuel model files base st).1 <> Ok None.
Proof.
  intros Hfuel. unfold assemble_circuits.
  rewrite bind_eq. cbn [emit]. rewrite bind_eq. unfold call.
  destruct (os_makedirs _ _) as [[[]|e] w1]; [|done].
  pose proof (max_unique_nonneg (len files) 1 (max_selection (config st) files)) as Hb.
  destruct (decide (files = [])) as [->|Hne].
  - rewrite assemble_loop_without_files; [done | lia].
  - apply assemble_loop_ends; [done | | done |].
    + intros x Hx. cbn [seen] in Hx. by apply elem_of_empty in Hx.
    + cbn [config with_world with_trace]. unfold assemble_remaining. cbn [seen attempts].
      rewrite size_empty.
      pose proof (possible_count files 1 (max_selection (config st) files) ltac:(lia)) as Hp.
      unfold len in Hp at 1. lia.
Qed.

(** What a run of [assemble_circuits] records. *)
Lemma assemble_circuits_run fuel model files base (st st' : State F W) r :
  assemble_circuits fuel model files base st = (r, st') ->
  exists t, trace st' = trace st ++ t /\ NoDup (attempted t) /\
    (forall sel, sel ∈ attempted t ->
       1 <= len sel <= max_selection (config st) files /\ sel ⊆+ files) /\
    (forall s, r = Ok (Some s) ->
       0 <= count s <= len (attempted t) /\ count s <= Z.max 0 (n_assemble (config st))).
Proof.
  intros E. unfold assemble_circuits in E.
  rewrite bind_eq in E. cbn [emit] in E. rewrite bind_eq in E. unfold call at 1 in E.
  cbn [world with_trace] in E.
  destruct (os_makedirs _ _) as [[[]|e] w1].
  2:{ inversion E; subst. eexists [_]. split; [reflexivity|]. split; [constructor|].
      split; [intros sel Hin; by apply elem_of_nil in Hin | discriminate]. }
  destruct (decide (files = [])) as [->|Hne].
  - destruct fuel as [|fuel]; cbn [assemble_loop] in E; rewrite bind_eq in E;
      cbn [get_config] in E; destruct (_ && _);
      try (rewrite bind_eq in E; unfold assemble_body in E; rewrite bind_eq in E;
           cbn [get_config] in E;
           rewrite bool_decide_eq_false_2 in E by (intros Hn; by apply Hn));
      inversion E; subst; eexists [_]; (split; [reflexivity|]); (split; [constructor|]);
      (split; [intros sel Hin; by apply elem_of_nil in Hin|]);
      intros s Hs; inversion Hs; subst; cbn [count]; unfold len; cbn [length]; lia.
  - match type of E with assemble_loop _ _ _ ?out ?s0 ?st0 = _ =>
      destruct (assemble_loop_run fuel model files out s0 st0 st' r [] Hne) as
        (t & Ht & _ & Hnd & Hp & Hres) end.
    { split; [constructor|]. split; [intros x Hx; by apply elem_of_nil in Hx|].
      split; [intros x Hx; by apply elem_of_empty in Hx|].
      cbn [attempts count]. unfold len. cbn [length]. lia. }
    { cbn [count]. lia. }
    { exact E. }
    cbn [app config trace with_world with_trace] in *.
    exists (EvMakedirs (os_path_join base ["assembled"]) :: t).
    split; [by rewrite Ht, <- app_assoc|].
    change (attempted (EvMakedirs (os_path_join base ["assembled"]) :: t)) with (attempted t).
    split; [done|]. split.
    + intros sel Hin. apply Hp, possible_spec in Hin; [done | lia].
    + intros s Hs. destruct (Hres s Hs) as ((_ & _ & _ & _ & Hc) & Hn). lia.
Qed.

(** X20. [assemble_circuits] never hands the same selection to the
    assembler twice, and every selection holds between one and [max_k]
    files taken at distinct positions of the list of files; the circuits
    counted are at most as many as the selections tried and, when the
    loop ends, at most [n_assemble]. *)
Theorem assemble_circuits_never_repeats fuel model files base (st st' : State F W) r :
  assemble_circuits fuel model files base st = (r, st') ->
  exists t, trace st' = trace st ++ t /\ NoDup (attempted t) /\
    (forall sel, sel ∈ attempted t ->
       1 <= len sel <= max_selection (config st) files /\ sel ⊆+ files) /\
    (forall s, r = Ok (Some s) ->
       0 <= count s <= len (attempted t) /\ count s <= Z.max 0 (n_assemble (config st))).
Proof.
  intros E. destruct (assemble_circuits_run _ _ _ _ _ _ _ E) as (t & Ht & Hnd & Hsel & Hcount).
  exists t. split; [exact Ht|]. split; [exact Hnd|]. split; [exact Hsel | exact Hcount].
Qed.

End AssembleTermination.

(** A run of [assemble_circuits] on one file with a failing assembler. *)
Definition assembling : result (option Pipeline.AssembleState) * State Q Script.World :=
  Pipeline.assemble_circuits 2001 "m" ["a.py"] "/run"
    (Script.start Script.failing_assembler Script.args Script.zero_tape).

Lemma assemble_circuits_terminates_witness : assembling.1 <> Ok None.
Proof.
  refine (assemble_circuits_terminates 2001%nat "m" ["a.py"] "/run"
            (Script.start Script.failing_assembler Script.args Script.zero_tape) _).
  vm_compute. lia.
Defined.

Lemma assemble_circuits_witness :
  exists t, trace assembling.2 = [] ++ t /\ NoDup (attempted t) /\
    (forall sel, sel ∈ attempted t -> 1 <= len sel <= 1 /\ sel ⊆+ ["a.py"]) /\
    (forall s, assembling.1 = Ok (Some s) ->
       0 <= Pipeline.count s <= len (attempted t) /\ Pipeline.count s <= Z.max 0 100).
Proof.
  refine (assemble_circuits_never_repeats 2001%nat "m" ["a.py"] "/run"
            (Script.start Script.failing_assembler Script.args Script.zero_tape)
            assembling.2 assembling.1 _).
  vm_compute. reflexivity.
Defined.

(** ** The files a production phase returns *)

Section SavedFiles.
Context {F : Type} `{FloatOps F} {W : Type} `{!Collaborators W F}.
Import ProgramProcessor Pipeline.

(** A candidate that returns a path has saved a text at that path, and the
    path is the file of the candidate in the generated directory. *)
Lemma process_saved self g f p co (st st' : State F W) path s errs wf :
  process self g f p co st = (Ok (Some path, s, errs, wf), st') ->
  path = os_path_join g [filename self] /\
  exists t text, trace st' = trace st ++ t /\ EvSaveText text path ∈ t.
Proof.
  intros E.
  destruct (process_effects _ _ _ _ _ _ _ _ E) as (_ & t & Ht & _).
  assert (Hlast : exists pre text, path = os_path_join g [filename self] /\
                    trace st' = pre ++ [EvSaveText text path] /\
                    exists t0, pre = trace st ++ t0).
  { destruct (generate self p (with_config st (set_compile_only (config st) co)))
      as [[code|ex] st1] eqn:Hg.
    2:{ unfold process in E. rewrite bind_eq in E. cbn [get_config] in E.
        rewrite bind_eq in E. cbn [put_config] in E. rewrite bind_eq, Hg in E. discriminate. }
    destruct (generate_footprint _ _ _ _ _ Hg) as (_ & tg & Htg & _).
    cbn [trace with_config] in Htg.
    destruct (truthy_opt code) eqn:Hc.
    2:{ rewrite (process_no_code _ _ _ _ _ _ _ _ Hg Hc) in E. discriminate. }
    destruct (compile_check self (the code) st1) as [[[ok err]|ex] st2] eqn:Hcc.
    2:{ unfold process in E. rewrite bind_eq in E. cbn [get_config] in E.
        rewrite bind_eq in E. cbn [put_config] in E. rewrite bind_eq, Hg, Hc in E.
        cbn [negb] in E. rewrite bind_eq, Hcc in E. discriminate. }
    destruct (compile_check_footprint _ _ _ _ _ Hcc) as (_ & tc & Htc & _).
    destruct ok.
    - rewrite (process_compiled _ _ _ _ _ _ _ _ _ _ Hg Hc Hcc) in E.
      apply bind_ok_inv in E as (? & st3 & E3 & E).
      assert (Hr : footprint [KLog; KRun]
                     (if negb co then run_check self (the code);; ret () else ret ()
                      : M F W unit)).
      { destruct (negb co); repeat first [footprint_step | apply run_check_footprint]. }
      destruct (Hr _ _ _ E3) as (_ & tr & Htr & _).
      apply save_and_return in E as (E & _ & Hs). inversion E; subst.
      eexists _, _. split; [reflexivity|]. split; [exact Hs|].
      exists (tg ++ tc ++ tr). by rewrite Htr, Htc, Htg, <- !app_assoc.
    - rewrite (process_not_compiled _ _ _ _ _ _ _ _ _ _ Hg Hc Hcc) in E.
      apply bind_ok_inv in E as (fixed & st3 & E3 & E).
      destruct (fix_loop_footprint _ _ _ _ _ _ E3) as (_ & tf & Htf & _).
      destruct (truthy_opt fixed);
        apply save_and_return in E as (E & _ & Hs); inversion E; subst.
      eexists _, _. split; [reflexivity|]. split; [exact Hs|].
      exists (tg ++ tc ++ tf). by rewrite Htf, Htc, Htg, <- !app_assoc. }
  destruct Hlast as (pre & text & Hp & Hl & t0 & ->). split; [exact Hp|].
  exists t, text. split; [exact Ht|].
  rewrite Ht, <- app_assoc in Hl. apply app_inv_head in Hl. rewrite Hl.
  apply elem_of_app. right. apply list_elem_of_here.
Qed.

(** The file of the candidate [i] of a batch for [model]. *)
Definition candidate_file (model : string) (i : Z) : string :=
  replace_slash model +:+ "output" +:+ pretty (i + 1) +:+ ".py".

Lemma run_pool_saved tasks model logger g f p co (st st' : State F W) futures :
  run_pool tasks model logger g f p co st = (Ok futures, st') ->
  exists t, trace st' = trace st ++ t /\
    forall path, path ∈ saved_paths futures ->
      (exists text, EvSaveText text path ∈ t) /\
      exists i, i ∈ tasks /\ path = os_path_join g [candidate_file model i].
Proof.
  revert st futures. induction tasks as [|i rest IH]; intros st futures E; cbn [run_pool] in E.
  - inversion E; subst. exists []. rewrite app_nil_r. split; [done|].
    intros path Hin. by apply elem_of_nil in Hin.
  - apply bind_ok_inv in E as (r & st1 & E1 & E).
    apply bind_ok_inv in E as (rs & st2 & E2 & E). inversion E; subst futures st'. clear E.
    destruct (IH _ _ E2) as (t2 & Ht2 & H2).
    destruct (submit_effects _ _ _ _ _ _ _ _ _ _ E1) as (_ & t1 & Ht1 & _).
    exists (t1 ++ t2). rewrite Ht2, Ht1, app_assoc. split; [done|].
    intros path Hin. unfold submit in E1.
    destruct (process _ _ _ _ _ _) as [r0 st0] eqn:Ep. inversion E1; subst r st0. clear E1.
    destruct r0 as [[[[sp s] es] wf]|e]; cbn [saved_paths] in Hin.
    + apply elem_of_app in Hin as [Hin|Hin].
      * destruct sp as [sp|]; [|by apply elem_of_nil in Hin].
        destruct (truthy_opt (Some sp)); [|by apply elem_of_nil in Hin].
        apply list_elem_of_singleton in Hin. cbn [the] in Hin. subst path.
        destruct (process_saved _ _ _ _ _ _ _ _ _ _ _ Ep) as (Hp & t' & text & Ht' & Hin').
        cbn [trace with_errors with_stats] in Ht'. rewrite Ht1 in Ht'.
        apply app_inv_head in Ht' as <-. split.
        -- exists text. apply elem_of_app. by left.
        -- exists i. split; [apply list_elem_of_here | exact Hp].
      * destruct (H2 _ Hin) as ((text & Ht) & j & Hj & Hp). split.
        -- exists text. apply elem_of_app. by right.
        -- exists j. split; [by apply list_elem_of_further | done].
    + destruct (H2 _ Hin) as ((text & Ht) & j & Hj & Hp). split.
      * exists text. apply elem_of_app. by right.
      * exists j. split; [by apply list_elem_of_further | done].
Qed.

Lemma elem_of_range (n i : Z) : i ∈ range n -> 0 <= i < n.
Proof.
  unfold range. intros Hin. apply list_elem_of_In, in_map_iff in Hin as (j & <- & Hj).
  apply in_seq in Hj. lia.
Qed.

End SavedFiles.

(** One more bind of a run that returns: the trace so far, from [st]. *)
Ltac trace_step E Hacc :=
  let Ek := fresh "Ek" in
  let s' := fresh "s" in
  let x := fresh "x" in
  let Hf := fresh "Hf" in
  let t' := fresh "t" in
  let Ht' := fresh "Ht" in
  apply bind_ok_inv in E as (x & s' & Ek & E);
  match type of Ek with
  | ?m _ = _ =>
      assert (Hf : footprint [KLog; KMkdir] m) by (solve [solve_footprint]);
      destruct (Hf _ _ _ Ek) as (_ & t' & Ht' & _);
      rewrite Hacc, <- app_assoc in Ht'; clear Hacc Hf Ek; rename Ht' into Hacc
  end.

Section SavedFilesTheorem.
Context {F : Type} `{FloatOps F} {W : Type} `{!Collaborators W F}.
Import ProgramProcessor Pipeline.

(** What a production phase that returns has saved. *)
Lemma run_production_phase_files model prompt crd logfile (st st' : State F W)
    files summary metrics :
  run_production_phase model prompt crd logfile st = (Ok (files, summary, metrics), st') ->
  exists t, trace st' = trace st ++ t /\
    forall path, path ∈ files ->
      (exists text, EvSaveText text path ∈ t) /\
      exists i, 0 <= i < n_programs (config st) /\
        path = os_path_join (os_path_join crd ["generated"]) [candidate_file model i].
Proof.
  intros E. unfold run_production_phase in E.
  rewrite bind_eq in E. cbn [get_config] in E.
  assert (Hacc : trace st = trace st ++ []) by (by rewrite app_nil_r).
  do 9 trace_step E Hacc.
  apply bind_ok_inv in E as (futures & sp & Ep & E).
  destruct (run_pool_saved _ _ _ _ _ _ _ _ _ _ Ep) as (tp & Htp & Hsaved).
  rewrite Hacc, <- app_assoc in Htp. clear Hacc. rename Htp into Hacc.
  apply bind_ok_inv in E as ([sf sl] & sc & Ec & E).
  destruct (collect_production_footprint _ _ _ _ _ _ _ Ec) as (_ & tc & Htc & _).
  rewrite Hacc, <- app_assoc in Htc. clear Hacc. rename Htc into Hacc.
  apply collect_production_result in Ec as (-> & _ & _). cbn [app] in E.
  do 2 trace_step E Hacc.
  inversion E; subst. clear E.
  eexists. split; [exact Hacc|]. intros path Hin.
  destruct (Hsaved _ Hin) as ((text & Htext) & i & Hi & Hp).
  split.
  - exists text. rewrite !elem_of_app. tauto.
  - exists i. split; [by apply elem_of_range | exact Hp].
Qed.

(** X21. Every file a production phase returns was saved: for each path
    in [successful_files] the trace of the phase holds the save of a text
    at that path, and the path is the file [<model>output<i+1>.py] of a
    candidate [0 <= i < n_programs] in the directory [generated] of the
    run. *)
Theorem production_files_were_saved model prompt crd logfile (st st' : State F W)
    files summary metrics :
  run_production_phase model prompt crd logfile st = (Ok (files, summary, metrics), st') ->
  exists t, trace st' = trace st ++ t /\
    forall path, path ∈ files ->
      (exists text, EvSaveText text path ∈ t) /\
      exists i, 0 <= i < n_programs (config st) /\
        path = os_path_join (os_path_join crd ["generated"]) [candidate_file model i].
Proof.
  intros E. destruct (run_production_phase_files _ _ _ _ _ _ _ _ _ E) as (t & Ht & Hfiles).
  exists t. split; [exact Ht | exact Hfiles].
Qed.

End SavedFilesTheorem.

Lemma production_files_witness :
  exists t, trace production_run.2 = [] ++ t /\
    forall path, path ∈ (Script.value no_production production_run.1).1.1 ->
      (exists text, EvSaveText text path ∈ t) /\
      exists i, 0 <= i < 3 /\
        path = os_path_join (os_path_join "/run" ["generated"])
                 [candidate_file "deepseek/deepseek-chat" i].
Proof.
  refine (production_files_were_saved "deepseek/deepseek-chat" "generation_prompt.txt" "/run"
            "/run/execution.log" (Script.initial Script.boundary_world) production_run.2
            _ (Script.value no_production production_run.1).1.2
            (Script.value no_production production_run.1).2 _).
  vm_compute. reflexivity.
Defined.

(** * [main] of [gen_w_improve.py] *)

(** What [main] does once the command line is parsed and the directory of
    the run is named: it puts the arguments right, makes the directory and
    takes the models one after the other through training, production and
    assembly. [common_run_dir] is [os.path.join(args.output_dir, run_id)];
    the two plots drawn at the end are made from the two lists returned. *)

Module Generator.
Section Generator.
Context {F : Type} `{FloatOps F} {W : Type} `{!Collaborators W F}.
Import Pipeline.

Definition set_n_circuits_per_assembly (c : Config F) (n : Z) : Config F := {|
  language := language c; prompt_dir := prompt_dir c; n_programs := n_programs c;
  n_fixing_cycles := n_fixing_cycles c; max_workers := max_workers c;
  n_assemble := n_assemble c; n_circuits_per_assembly := n;
  verbose := verbose c; training_n := training_n c;
  training_threshold := training_threshold c; improver_model := improver_model c;
  reasoning_effort := reasoning_effort c; improve_prompt := improve_prompt c;
  compile_only := compile_only c
|}.

Definition set_max_workers (c : Config F) (n : Z) : Config F := {|
  language := language c; prompt_dir := prompt_dir c; n_programs := n_programs c;
  n_fixing_cycles := n_fixing_cycles c; max_workers := n;
  n_assemble := n_assemble c; n_circuits_per_assembly := n_circuits_per_assembly c;
  verbose := verbose c; training_n := training_n c;
  training_threshold := training_threshold c; improver_model := improver_model c;
  reasoning_effort := reasoning_effort c; improve_prompt := improve_prompt c;
  compile_only := compile_only c
|}.

Definition set_n_programs (c : Config F) (n : Z) : Config F := {|
  language := language c; prompt_dir := prompt_dir c; n_programs := n;
  n_fixing_cycles := n_fixing_cycles c; max_workers := max_workers c;
  n_assemble := n_assemble c; n_circuits_per_assembly := n_circuits_per_assembly c;
  verbose := verbose c; training_n := training_n c;
  training_threshold := training_threshold c; improver_model := improver_model c;
  reasoning_effort := reasoning_effort c; improve_prompt := improve_prompt c;
  compile_only := compile_only c
|}.

Definition set_prompt_dir (c : Config F) (d : string) : Config F := {|
  language := language c; prompt_dir := d; n_programs := n_programs c;
  n_fixing_cycles := n_fixing_cycles c; max_workers := max_workers c;
  n_assemble := n_assemble c; n_circuits_per_assembly := n_circuits_per_assembly c;
  verbose := verbose c; training_n := training_n c;
  training_threshold := training_threshold c; improver_model := improver_model c;
  reasoning_effort := reasoning_effort c; improve_prompt := improve_prompt c;
  compile_only := compile_only c
|}.

(** The validation of the arguments and the default of [prompt_dir]; an
    absent [prompt_dir] is the empty string. *)
Definition validate_arguments (script_dir : string) : M F W unit :=
  args ← get_config;
  (if n_circuits_per_assembly args <? 1 then
     emit (EvPrint (LogError ("Warning: n_circuits_per_assembly ("
                              +:+ pretty (n_circuits_per_assembly args)
                              +:+ ") must be >= 1. Setting to 1.")));;
     put_config (set_n_circuits_per_assembly args 1)
   else ret tt);;
  args ← get_config;
  (if max_workers args <? 1 then
     emit (EvPrint (LogError ("Warning: max_workers (" +:+ pretty (max_workers args)
                              +:+ ") must be >= 1. Setting to 1.")));;
     put_config (set_max_workers args 1)
   else ret tt);;
  args ← get_config;
  (if n_programs args <? 0 then
     emit (EvPrint (LogError ("Warning: n_programs (" +:+ pretty (n_programs args)
                              +:+ ") cannot be negative. Setting to 0.")));;
     put_config (set_n_programs args 0)
   else ret tt);;
  args ← get_config;
  if negb (truthy (prompt_dir args)) then
    put_config (set_prompt_dir args
                  (os_path_join script_dir
                     [if String.eqb (language args) "guppy" then "Guppy_prompt_templates"
                      else "Qiskit_prompt_templates"]))
  else ret tt.

(** [all_stats] and [all_metrics]. *)
Definition Report : Type := list (Summary F) * list (string * metrics F * metrics F).

(** The loop over the models; [None] when the fuel of an assembly runs
    out. *)
Fixpoint models_loop (fuel : nat) (models : list string)
    (common_run_dir logfile_path script_dir : string)
    (all_stats : list (Summary F)) (all_metrics : list (string * metrics F * metrics F))
    : M F W (option Report) :=
  match models with
  | [] => ret (Some (all_stats, all_metrics))
  | model :: rest =>
      args ← get_config;
      best_prompt ←
        (if improve_prompt args then run_training_phase model common_run_dir script_dir
         else ret "generation_prompt.txt");
      '(files, summary, metrics) ←
        run_production_phase model best_prompt common_run_dir logfile_path;
      let all_stats := all_stats ++ [summary] in
      let all_metrics := all_metrics ++ metrics in
      if bool_decide (files <> []) then
        r ← assemble_circuits fuel model files common_run_dir;
        match r with
        | None => ret None
        | Some _ =>
            models_loop fuel rest common_run_dir logfile_path script_dir all_stats all_metrics
        end
      else models_loop fuel rest common_run_dir logfile_path script_dir all_stats all_metrics
  end.

Definition main (fuel : nat) (models : list string) (common_run_dir script_dir : string)
    : M F W (option Report) :=
  validate_arguments script_dir;;
  emit (EvMakedirs common_run_dir);;
  call (os_makedirs common_run_dir);;
  let logfile_path := os_path_join common_run_dir ["execution.log"] in
  models_loop fuel models common_run_dir logfile_path script_dir [] [].

End Generator.
End Generator.

(** ** The footprint of the second sampler *)

Section AssembleFootprint.
Context {F : Type} `{FloatOps F} {W : Type} `{!Collaborators W F}.
Import Pipeline.

Lemma footprint_randint ks a b : footprint ks (randint (F:=F) (W:=W) a b).
Proof. unfold randint. repeat footprint_step. Qed.

Lemma footprint_draw {A} ks (pool : list A) k : footprint ks (draw (F:=F) (W:=W) pool k).
Proof.
  revert pool. induction k as [|k IH]; intros pool; cbn [draw]; [apply footprint_ret|].
  apply footprint_bind; [apply footprint_randbelow | intros j].
  destruct (pool !! j); [|apply footprint_ret].
  apply footprint_bind; [apply IH | intros rest; apply footprint_ret].
Qed.

Lemma footprint_sample {A} ks (population : list A) k :
  footprint ks (sample (F:=F) (W:=W) population k).
Proof. unfold sample. destruct (_ || _); [apply footprint_raise | apply footprint_draw]. Qed.

Lemma assemble_body_footprint model files out s :
  footprint [KAssemble] (assemble_body (W:=W) (F:=F) model files out s).
Proof.
  unfold assemble_body.
  repeat first [apply footprint_randint | apply footprint_sample | footprint_step].
Qed.

Lemma assemble_loop_footprint fuel model files out s :
  footprint [KAssemble] (assemble_loop (W:=W) (F:=F) fuel model files out s).
Proof.
  revert s. induction fuel as [|fuel IH]; intros s; cbn [assemble_loop].
  - repeat footprint_step.
  - apply footprint_bind; [apply footprint_get_config | intros args].
    destruct (_ && _); [|apply footprint_ret].
    apply footprint_bind; [apply assemble_body_footprint | intros [s'|]];
      [apply IH | apply footprint_ret].
Qed.

Lemma assemble_circuits_footprint fuel model files base :
  footprint [KMkdir; KAssemble] (assemble_circuits (W:=W) (F:=F) fuel model files base).
Proof.
  unfold assemble_circuits. do 2 footprint_step; try footprint_step.
  eapply footprint_mono; [|apply assemble_loop_footprint]. kinds_incl.
Qed.

Lemma attempted_count (t : list (event F)) : length (attempted t) = count_kind KAssemble t.
Proof.
  unfold count_kind. induction t as [|e t IH]; [done|].
  cbn [attempted omap list_omap]. fold (attempted t).
  destruct e; cbn [kind_of];
    first [ rewrite filter_cons_False by discriminate; exact IH
          | rewrite filter_cons_True by done; cbn [length]; by rewrite IH ].
Qed.

End AssembleFootprint.

Section Validation.
Context {F : Type} `{FloatOps F} {W : Type} `{!Collaborators W F}.
Import Pipeline Generator.

(** The validation always returns; it prints at most, and leaves the
    arguments of the batches alone but for [n_programs], which it makes
    non-negative. *)
Lemma validate_arguments_run script_dir (st : State F W) :
  exists st1 tv, validate_arguments script_dir st = (Ok tt, st1) /\
    trace st1 = trace st ++ tv /\ only [KPrint] tv /\
    n_fixing_cycles (config st1) = n_fixing_cycles (config st) /\
    training_n (config st1) = training_n (config st) /\
    improve_prompt (config st1) = improve_prompt (config st) /\
    n_programs (config st1) = Z.max 0 (n_programs (config st)) /\
    1 <= n_circuits_per_assembly (config st1).
Proof.
  unfold validate_arguments.
  rewrite bind_eq. cbn [get_config].
  destruct (n_circuits_per_assembly (config st) <? 1) eqn:H1;
    rewrite bind_eq; try (rewrite bind_eq; cbn [emit put_config]);
    cbn [ret]; rewrite bind_eq; cbn [get_config config with_config with_trace];
    cbn [set_n_circuits_per_assembly max_workers];
    (destruct (max_workers (config st) <? 1) eqn:H2;
     rewrite bind_eq; try (rewrite bind_eq; cbn [emit put_config]);
     cbn [ret]; rewrite bind_eq; cbn [get_config config with_config with_trace];
     cbn [set_n_circuits_per_assembly set_max_workers n_programs];
     (destruct (n_programs (config st) <? 0) eqn:H3;
      rewrite bind_eq; try (rewrite bind_eq; cbn [emit put_config]);
      cbn [ret]; rewrite bind_eq; cbn [get_config config with_config with_trace];
      cbn [set_n_circuits_per_assembly set_max_workers set_n_programs prompt_dir];
      (destruct (truthy (prompt_dir (config st))); cbn [negb put_config ret];
       eexists _, _; (split; [reflexivity|]);
       cbn [trace config with_config with_trace set_n_circuits_per_assembly set_max_workers
              set_n_programs set_prompt_dir n_fixing_cycles training_n improve_prompt
              n_programs n_circuits_per_assembly]))).
  all: try apply Z.ltb_lt in H1; try apply Z.ltb_ge in H1.
  all: try apply Z.ltb_lt in H3; try apply Z.ltb_ge in H3.
  all: rewrite <- ?app_assoc.
  all: split; [first [reflexivity | symmetry; apply app_nil_r]|].
  all: split; [repeat constructor; kind_in|].
  all: repeat split; try done; lia.
Qed.

End Validation.

(** ** The budget of a whole run *)

Section RunBudget.
Context {F : Type} `{FloatOps F} {W : Type} `{!Collaborators W F}.
Import Pipeline Generator.

(** The arguments that size a run. *)
Definition run_sized (N T P : Z) (ip : bool) (c : Config F) : Prop :=
  n_fixing_cycles c = N /\ training_n c = T /\ n_programs c = P /\ improve_prompt c = ip.

Lemma stable_run_sized N T P ip : stable (run_sized N T P ip).
Proof.
  intros c c' Hcc (HN & HT & HP & Hip). repeat split.
  - by rewrite <- (same_args_cycles _ _ Hcc).
  - by rewrite <- (same_args_training_n _ _ Hcc).
  - by rewrite <- (same_args_programs _ _ Hcc).
  - by rewrite <- (same_args_improve _ _ Hcc).
Qed.

(** What one model may add to the trace, by kind: up to four training
    rounds when [improve_prompt] is on, and the production batch. *)
Definition model_budget (N T P : Z) (ip : bool) (k : kind) : nat :=
  (if ip then 4 * (Z.to_nat T * candidate_budget N true k) else 0)
  + Z.to_nat P * candidate_budget N false k.

Lemma models_loop_budget N T P ip k fuel models crd logfile sd all_stats all_metrics :
  k ∈ [KGen; KFix; KCompile; KRun; KSave] ->
  limited (run_sized N T P ip) k (length models * model_budget N T P ip k)
    (models_loop fuel models crd logfile sd all_stats all_metrics).
Proof.
  intros Hk. revert all_stats all_metrics.
  induction models as [|model rest IH]; intros all_stats all_metrics;
    cbn [models_loop length].
  { apply limited_of_bounded, (bounded_footprint _ _ []); [kind_notin | apply footprint_ret]. }
  apply limited_get_config. intros args (HN & HT & HP & Hip).
  assert (Hin : forall c, same_args args c -> run_sized N T P ip c).
  { intros c Hc. by apply (stable_run_sized N T P ip args c). }
  assert (Hrest : forall s m,
            limited (same_args args) k (length rest * model_budget N T P ip k)
              (models_loop fuel rest crd logfile sd s m)).
  { intros s m. eapply limited_weaken; [exact Hin | apply IH]. }
  assert (Htrain : limited (same_args args) k
                     (if ip then 4 * (Z.to_nat T * candidate_budget N true k) else 0)
                     (if improve_prompt args then run_training_phase model crd sd
                      else ret "generation_prompt.txt")).
  { rewrite Hip. destruct ip.
    - eapply limited_weaken; [|apply (run_training_phase_budget N T k)].
      + intros c Hc. destruct (Hin c Hc) as (? & ? & _). by split.
      + repeat (apply elem_of_cons in Hk as [->|Hk]); [kind_in..|by apply elem_of_nil in Hk].
    - apply limited_of_bounded, (bounded_footprint _ _ []); [kind_notin | apply footprint_ret]. }
  assert (Hprod : forall prompt,
            limited (same_args args) k (Z.to_nat P * candidate_budget N false k)
              (run_production_phase model prompt crd logfile)).
  { intros prompt. eapply limited_weaken; [|apply (run_production_phase_budget N P k)].
    - intros c Hc. destruct (Hin c Hc) as (? & _ & ? & _). by split.
    - repeat (apply elem_of_cons in Hk as [->|Hk]); [kind_in..|by apply elem_of_nil in Hk]. }
  assert (Hasm : forall files,
            limited (same_args args) k 0 (assemble_circuits fuel model files crd)).
  { intros files. apply limited_of_bounded, (bounded_footprint _ _ [KMkdir; KAssemble]).
    - repeat (apply elem_of_cons in Hk as [->|Hk]); [kind_notin..|by apply elem_of_nil in Hk].
    - apply assemble_circuits_footprint. }
  unfold model_budget in *.
  set (bt := if ip then (4 * (Z.to_nat T * candidate_budget N true k))%nat else 0%nat) in *.
  set (bp := (Z.to_nat P * candidate_budget N false k)%nat) in *.
  eapply (limited_bind _ _ bt (bp + length rest * (bt + bp)));
    [apply stable_same_args | exact Htrain | intros prompt | lia].
  eapply (limited_bind _ _ bp (length rest * (bt + bp)));
    [apply stable_same_args | apply Hprod | intros [[files summary] metrics] | lia].
  destruct (bool_decide (files <> [])); [|apply Hrest].
  eapply (limited_bind _ _ 0 (length rest * (bt + bp)));
    [apply stable_same_args | apply Hasm | intros [s'|] | lia]; [apply Hrest|].
  eapply limited_mono; [|apply limited_of_bounded, (bounded_footprint _ _ []);
                          [kind_notin | apply footprint_ret]]. lia.
Qed.

End RunBudget.

Section RunTraining.
Context {F : Type} `{FloatOps F} {W : Type} `{!Collaborators W F}.
Import Pipeline Generator.

(** Without [improve_prompt] the loop never enters the training phase. *)
Lemma models_loop_untrained N T P k fuel models crd logfile sd all_stats all_metrics :
  k ∈ [KImprove; KRound; KWrite] ->
  limited (run_sized N T P false) k 0
    (models_loop fuel models crd logfile sd all_stats all_metrics).
Proof.
  intros Hk. revert all_stats all_metrics.
  induction models as [|model rest IH]; intros all_stats all_metrics; cbn [models_loop].
  { apply limited_of_bounded, (bounded_footprint _ _ []); [kind_notin | apply footprint_ret]. }
  apply limited_get_config. intros args (HN & HT & HP & Hip).
  assert (Hin : forall c, same_args args c -> run_sized N T P false c).
  { intros c Hc. by apply (stable_run_sized N T P false args c). }
  assert (Hrest : forall s m,
            limited (same_args args) k 0 (models_loop fuel rest crd logfile sd s m)).
  { intros s m. eapply limited_weaken; [exact Hin | apply IH]. }
  rewrite Hip.
  eapply (limited_bind _ _ 0 0); [apply stable_same_args | | intros prompt | lia].
  { apply limited_of_bounded, (bounded_footprint _ _ []); [kind_notin | apply footprint_ret]. }
  eapply (limited_bind _ _ 0 0);
    [apply stable_same_args | | intros [[files summary] metrics] | lia].
  { eapply limited_weaken;
      [|eapply limited_mono; [|apply (run_production_phase_budget N P k)]].
    - intros c Hc. destruct (Hin c Hc) as (? & _ & ? & _). by split.
    - repeat (apply elem_of_cons in Hk as [->|Hk]); [cbn; lia..|by apply elem_of_nil in Hk].
    - repeat (apply elem_of_cons in Hk as [->|Hk]); [kind_in..|by apply elem_of_nil in Hk]. }
  destruct (bool_decide (files <> [])); [|apply Hrest].
  eapply (limited_bind _ _ 0 0); [apply stable_same_args | | intros [s'|] | lia];
    [|apply Hrest|].
  - apply limited_of_bounded, (bounded_footprint _ _ [KMkdir; KAssemble]).
    + repeat (apply elem_of_cons in Hk as [->|Hk]); [kind_notin..|by apply elem_of_nil in Hk].
    + apply assemble_circuits_footprint.
  - apply limited_of_bounded, (bounded_footprint _ _ []); [kind_notin | apply footprint_ret].
Qed.

(** With [improve_prompt] each model costs three improvement requests at most. *)
Lemma models_loop_improvements N T P ip fuel models crd logfile sd all_stats all_metrics :
  limited (run_sized N T P ip) KImprove (length models * 3)
    (models_loop fuel models crd logfile sd all_stats all_metrics).
Proof.
  revert all_stats all_metrics.
  induction models as [|model rest IH]; intros all_stats all_metrics;
    cbn [models_loop length].
  { apply limited_of_bounded, (bounded_footprint _ _ []); [kind_notin | apply footprint_ret]. }
  apply limited_get_config. intros args (HN & HT & HP & Hip).
  assert (Hin : forall c, same_args args c -> run_sized N T P ip c).
  { intros c Hc. by apply (stable_run_sized N T P ip args c). }
  assert (Hrest : forall s m,
            limited (same_args args) KImprove (length rest * 3)
              (models_loop fuel rest crd logfile sd s m)).
  { intros s m. eapply limited_weaken; [exact Hin | apply IH]. }
  eapply (limited_bind _ _ 3 (length rest * 3)); [apply stable_same_args | | intros prompt | lia].
  { destruct (improve_prompt args) eqn:Hi.
    - eapply limited_weaken;
        [|eapply limited_mono; [|apply (run_training_phase_improvements true)]]; [|lia].
      intros c Hc. cbn beta. by rewrite <- (same_args_improve _ _ Hc).
    - eapply limited_mono; [|apply limited_of_bounded, (bounded_footprint _ _ []);
                              [kind_notin | apply footprint_ret]]. lia. }
  eapply (limited_bind _ _ 0 (length rest * 3));
    [apply stable_same_args | | intros [[files summary] metrics] | lia].
  { eapply limited_weaken;
      [|eapply limited_mono; [|apply (run_production_phase_budget N P KImprove); kind_in]].
    - intros c Hc. destruct (Hin c Hc) as (? & _ & ? & _). by split.
    - cbn. lia. }
  destruct (bool_decide (files <> [])); [|apply Hrest].
  eapply (limited_bind _ _ 0 (length rest * 3));
    [apply stable_same_args | | intros [s'|] | lia]; [|apply Hrest|].
  - apply limited_of_bounded, (bounded_footprint _ _ [KMkdir; KAssemble]);
      [kind_notin | apply assemble_circuits_footprint].
  - eapply limited_mono; [|apply limited_of_bounded, (bounded_footprint _ _ []);
                            [kind_notin | apply footprint_ret]]. lia.
Qed.

(** From the loop to [main]: the validation only prints, and the making of
    the directory of the run is one event. *)
Lemma main_count k n fuel models crd sd (st st' : State F W) r :
  k <> KPrint -> k <> KMkdir ->
  (forall s m,
     limited (run_sized (n_fixing_cycles (config st)) (training_n (config st))
                (Z.max 0 (n_programs (config st))) (improve_prompt (config st))) k n
       (models_loop fuel models crd (os_path_join crd ["execution.log"]) sd s m)) ->
  main fuel models crd sd st = (r, st') ->
  exists t, trace st' = trace st ++ t /\ (count_kind k t <= n)%nat.
Proof.
  intros Hp Hm Hloop E. unfold main in E.
  destruct (validate_arguments_run sd st)
    as (st1 & tv & Ev & Htv & Hov & HN & HT & Hip & HP & _).
  rewrite bind_eq, Ev in E. rewrite bind_eq in E. cbn [emit] in E.
  rewrite bind_eq in E. unfold call at 1 in E. cbn [world with_trace] in E.
  assert (Hv : count_kind k tv = 0%nat).
  { apply (count_kind_only k [KPrint]); [|done]. intros Hin.
    apply list_elem_of_singleton in Hin. done. }
  assert (Hmk : count_kind k [EvMakedirs crd : event F] = 0%nat).
  { unfold count_kind. rewrite filter_cons_False; [done|]. cbn [kind_of]. congruence. }
  destruct (os_makedirs crd (world st1)) as [[[]|e] w1].
  - match type of E with models_loop _ _ _ _ _ _ _ ?s0 = _ =>
      destruct (Hloop [] [] s0 r st') as (_ & t & Ht & Hc) end.
    { cbn [config with_world with_trace]. repeat split; done. }
    { exact E. }
    cbn [trace with_world with_trace] in Ht.
    exists (tv ++ [EvMakedirs crd] ++ t). split.
    + rewrite Ht, Htv, <- !app_assoc. done.
    + rewrite !count_kind_app, Hv, Hmk. lia.
  - inversion E; subst. exists (tv ++ [EvMakedirs crd]). cbn [trace with_world with_trace].
    split; [by rewrite Htv, <- app_assoc|]. rewrite count_kind_app, Hv, Hmk. lia.
Qed.

End RunTraining.

Section RunTheorems.
Context {F : Type} `{FloatOps F} {W : Type} `{!Collaborators W F}.
Import Pipeline Generator.

(** X22. The budget of a whole run: with [M] models, [P] programs, [N]
    fixing cycles, and [T] training candidates when [improve_prompt] is on
    and 0 otherwise, [main] makes at most [M (4 T + P)] generation
    requests, [M (4 T + P) N] fixing requests, [M (4 T + P) (1 + N)]
    compile checks, [M P] execution checks and [3 M] improvement requests,
    and saves at most [M (4 T + P)] candidates. *)
Theorem run_budget fuel models crd sd (st st' : State F W) r :
  main fuel models crd sd st = (r, st') ->
  let M := length models in
  let N := Z.to_nat (n_fixing_cycles (config st)) in
  let T := if improve_prompt (config st) then Z.to_nat (training_n (config st)) else 0%nat in
  let P := Z.to_nat (n_programs (config st)) in
  exists t, trace st' = trace st ++ t /\
    (count_kind KGen t <= M * (4 * T + P))%nat /\
    (count_kind KFix t <= M * ((4 * T + P) * N))%nat /\
    (count_kind KCompile t <= M * ((4 * T + P) * (1 + N)))%nat /\
    (count_kind KRun t <= M * P)%nat /\
    (count_kind KSave t <= M * (4 * T + P))%nat /\
    (count_kind KImprove t <= M * 3)%nat.
Proof.
  intros E M N T P.
  assert (Hb : forall k, k ∈ [KGen; KFix; KCompile; KRun; KSave] ->
            exists t, trace st' = trace st ++ t /\
              (count_kind k t
               <= M * model_budget (n_fixing_cycles (config st)) (training_n (config st))
                        (Z.max 0 (n_programs (config st))) (improve_prompt (config st)) k)%nat).
  { intros k Hk. eapply main_count; [| | |exact E].
    - intros ->. repeat (apply elem_of_cons in Hk as [Hk|Hk]; [discriminate|]).
      by apply elem_of_nil in Hk.
    - intros ->. repeat (apply elem_of_cons in Hk as [Hk|Hk]; [discriminate|]).
      by apply elem_of_nil in Hk.
    - intros s m. by apply models_loop_budget. }
  assert (Hi : exists t, trace st' = trace st ++ t /\ (count_kind KImprove t <= M * 3)%nat).
  { eapply main_count; [done | done | | exact E]. intros s m. apply models_loop_improvements. }
  destruct Hi as (t & Ht & Himp). exists t. split; [exact Ht|].
  assert (Hsame : forall t', trace st' = trace st ++ t' -> t' = t).
  { intros t' Ht'. rewrite Ht in Ht'. by apply app_inv_head in Ht'. }
  destruct (Hb KGen) as (t1 & Ht1 & H1); [kind_in|].
  destruct (Hb KFix) as (t2 & Ht2 & H2); [kind_in|].
  destruct (Hb KCompile) as (t3 & Ht3 & H3); [kind_in|].
  destruct (Hb KRun) as (t4 & Ht4 & H4); [kind_in|].
  destruct (Hb KSave) as (t5 & Ht5 & H5); [kind_in|].
  rewrite (Hsame _ Ht1) in H1. rewrite (Hsame _ Ht2) in H2. rewrite (Hsame _ Ht3) in H3.
  rewrite (Hsame _ Ht4) in H4. rewrite (Hsame _ Ht5) in H5.
  unfold model_budget in *. cbn [candidate_budget] in *.
  replace (Z.to_nat (Z.max 0 (n_programs (config st)))) with P in * by (unfold P; lia).
  fold N in H2, H3. unfold T.
  destruct (improve_prompt (config st)); repeat split; nia.
Qed.

(** X23. Without [improve_prompt], [main] skips the training phase
    altogether, whatever [training_n] and [training_threshold]: no training
    round is run, the improver model is never asked and no prompt is
    written. *)
Theorem run_without_improvement_skips_training fuel models crd sd (st st' : State F W) r :
  improve_prompt (config st) = false ->
  main fuel models crd sd st = (r, st') ->
  exists t, trace st' = trace st ++ t /\
    count_kind KRound t = 0%nat /\ count_kind KImprove t = 0%nat /\
    count_kind KWrite t = 0%nat.
Proof.
  intros Hoff E.
  assert (Hb : forall k, k ∈ [KImprove; KRound; KWrite] ->
            exists t, trace st' = trace st ++ t /\ (count_kind k t <= 0)%nat).
  { intros k Hk. eapply main_count; [| | |exact E].
    - intros ->. repeat (apply elem_of_cons in Hk as [Hk|Hk]; [discriminate|]).
      by apply elem_of_nil in Hk.
    - intros ->. repeat (apply elem_of_cons in Hk as [Hk|Hk]; [discriminate|]).
      by apply elem_of_nil in Hk.
    - intros s m. rewrite Hoff. by apply models_loop_untrained. }
  destruct (Hb KRound) as (t & Ht & Hr); [kind_in|]. exists t. split; [exact Ht|].
  assert (Hsame : forall t', trace st' = trace st ++ t' -> t' = t).
  { intros t' Ht'. rewrite Ht in Ht'. by apply app_inv_head in Ht'. }
  destruct (Hb KImprove) as (t1 & Ht1 & H1); [kind_in|].
  destruct (Hb KWrite) as (t2 & Ht2 & H2); [kind_in|].
  rewrite (Hsame _ Ht1) in H1. rewrite (Hsame _ Ht2) in H2. lia.
Qed.

End RunTheorems.

Section AssembledFromSaved.
Context {F : Type} `{FloatOps F} {W : Type} `{!Collaborators W F}.
Import Pipeline Generator.

(** Every file handed to the assembler was saved before: in the events
    [pre] that came first, or in [t] ahead of the assembly. *)
Definition fed_from_saved (pre t : list (event F)) : Prop :=
  forall t1 sel out i t2, t = t1 ++ EvAssemble sel out i :: t2 ->
  forall p, p ∈ sel -> exists text, EvSaveText text p ∈ pre ++ t1.

Lemma attempted_split (t t1 t2 : list (event F)) sel out i :
  t = t1 ++ EvAssemble sel out i :: t2 -> sel ∈ attempted t.
Proof.
  intros ->. rewrite attempted_app. apply elem_of_app. right. cbn. apply elem_of_cons. by left.
Qed.

Lemma fed_nothing pre (t : list (event F)) : attempted t = [] -> fed_from_saved pre t.
Proof.
  intros Ha t1 sel out i t2 Ht. apply attempted_split in Ht. rewrite Ha in Ht.
  by apply elem_of_nil in Ht.
Qed.

(** Files all saved in what came first. *)
Lemma fed_saved pre (t : list (event F)) :
  (forall sel, sel ∈ attempted t -> forall p, p ∈ sel -> exists text, EvSaveText text p ∈ pre) ->
  fed_from_saved pre t.
Proof.
  intros Hs t1 sel out i t2 Ht p Hp. apply attempted_split in Ht.
  destruct (Hs _ Ht _ Hp) as (text & Hin). exists text. apply elem_of_app. by left.
Qed.

Lemma fed_weaken pre0 pre (t : list (event F)) :
  fed_from_saved pre t -> fed_from_saved (pre0 ++ pre) t.
Proof.
  intros Hf t1 sel out i t2 Ht p Hp. destruct (Hf _ _ _ _ _ Ht _ Hp) as (text & Hin).
  exists text. rewrite <- app_assoc. apply elem_of_app. by right.
Qed.

Lemma fed_app pre (t1 t2 : list (event F)) :
  fed_from_saved pre t1 -> fed_from_saved (pre ++ t1) t2 -> fed_from_saved pre (t1 ++ t2).
Proof.
  intros H1 H2 l1 sel out i l2 Ht p Hp.
  apply app_eq_app in Ht as [l [[-> Hl]|[-> Hl]]].
  - destruct l as [|e l].
    + cbn [app] in Hl.
      destruct (H2 [] sel out i l2 (eq_sym Hl) _ Hp) as (text & Hin).
      exists text. by rewrite !app_nil_r in Hin.
    + cbn [app] in Hl. inversion Hl; subst e l2.
      destruct (H1 l1 sel out i l eq_refl _ Hp) as (text & Hin). by exists text.
  - destruct (H2 l sel out i l2 Hl _ Hp) as (text & Hin). exists text.
    by rewrite <- app_assoc in Hin.
Qed.

(** A computation that assembles nothing. *)
Lemma limited_attempts_nothing {A} C (m : M F W A) (st st' : State F W) r :
  limited C KAssemble 0 m -> C (config st) -> m st = (r, st') ->
  exists t, trace st' = trace st ++ t /\ attempted t = [].
Proof.
  intros Hm HC E. destruct (Hm _ _ _ HC E) as (_ & t & Ht & Hc).
  exists t. split; [done|]. apply nil_length_inv. rewrite attempted_count. lia.
Qed.

Lemma training_attempts_nothing model crd sd (st st' : State F W) r :
  run_training_phase model crd sd st = (r, st') ->
  exists t, trace st' = trace st ++ t /\ attempted t = [].
Proof.
  intros E.
  eapply (limited_attempts_nothing
            (sized (n_fixing_cycles (config st)) (training_n (config st)))); [| |exact E].
  - eapply limited_mono; [|apply run_training_phase_budget; kind_in]. cbn. lia.
  - by split.
Qed.

Lemma production_attempts_nothing model prompt crd logfile (st st' : State F W) r :
  run_production_phase model prompt crd logfile st = (r, st') ->
  exists t, trace st' = trace st ++ t /\ attempted t = [].
Proof.
  intros E.
  eapply (limited_attempts_nothing
            (production_sized (n_fixing_cycles (config st)) (n_programs (config st))));
    [| |exact E].
  - eapply limited_mono; [|apply run_production_phase_budget; kind_in]. cbn. lia.
  - by split.
Qed.

Lemma models_loop_fed fuel models crd logfile sd all_stats all_metrics (st st' : State F W) r :
  models_loop fuel models crd logfile sd all_stats all_metrics st = (r, st') ->
  exists t, trace st' = trace st ++ t /\ fed_from_saved [] t.
Proof.
  revert all_stats all_metrics st.
  induction models as [|model rest IH]; intros all_stats all_metrics st E;
    cbn [models_loop] in E.
  { inversion E; subst. exists []. rewrite app_nil_r. split; [done | by apply fed_nothing]. }
  rewrite bind_eq in E. cbn [get_config] in E.
  assert (Htrain : forall r1 s1,
            (if improve_prompt (config st) then run_training_phase model crd sd
             else ret "generation_prompt.txt") st = (r1, s1) ->
            exists t, trace s1 = trace st ++ t /\ attempted t = []).
  { intros r1 s1 E1. destruct (improve_prompt (config st)).
    - by eapply training_attempts_nothing.
    - inversion E1; subst. exists []. by rewrite app_nil_r. }
  apply bind_cases in E as [(prompt & s1 & E1 & E) | (e & E1 & ->)].
  2:{ destruct (Htrain _ _ E1) as (t1 & Ht1 & Ha1). exists t1. split; [done|].
      by apply fed_nothing. }
  destruct (Htrain _ _ E1) as (t1 & Ht1 & Ha1).
  apply bind_cases in E as [([[files summary] metrics] & s2 & E2 & E) | (e & E2 & ->)].
  2:{ destruct (production_attempts_nothing _ _ _ _ _ _ _ E2) as (t2 & Ht2 & Ha2).
      exists (t1 ++ t2). rewrite Ht2, Ht1, app_assoc. split; [done|].
      apply fed_nothing. by rewrite attempted_app, Ha1, Ha2. }
  destruct (production_attempts_nothing _ _ _ _ _ _ _ E2) as (t2 & Ht2 & Ha2).
  destruct (run_production_phase_files _ _ _ _ _ _ _ _ _ E2) as (t2' & Ht2' & Hsaved).
  rewrite Ht2 in Ht2'. apply app_inv_head in Ht2' as <-.
  (* the assemblies of this model come after its production phase *)
  assert (Hfed : forall t3, (forall sel, sel ∈ attempted t3 -> sel ⊆+ files) ->
            fed_from_saved [] (t1 ++ t2 ++ t3)).
  { intros t3 Hsub. rewrite app_assoc. apply fed_app.
    - apply fed_nothing. by rewrite attempted_app, Ha1, Ha2.
    - apply fed_saved. intros sel Hin p Hp.
      destruct (Hsaved p) as ((text & Ht) & _).
      { eapply elem_of_submseteq; [exact Hp | by apply Hsub]. }
      exists text. cbn [app]. apply elem_of_app. by right. }
  assert (Hrest : forall s3 t3,
            trace s3 = trace s2 ++ t3 ->
            (forall sel, sel ∈ attempted t3 -> sel ⊆+ files) ->
            models_loop fuel rest crd logfile sd (all_stats ++ [summary])
              (all_metrics ++ metrics) s3 = (r, st') ->
            exists t, trace st' = trace st ++ t /\ fed_from_saved [] t).
  { intros s3 t3 Ht3 Hsub E4. destruct (IH _ _ _ E4) as (t4 & Ht4 & Hf4).
    exists ((t1 ++ t2 ++ t3) ++ t4). split; [by rewrite Ht4, Ht3, Ht2, Ht1, <- !app_assoc|].
    apply fed_app; [by apply Hfed|].
    apply (fed_weaken ([] ++ t1 ++ t2 ++ t3) [] t4) in Hf4. by rewrite app_nil_r in Hf4. }
  destruct (bool_decide (files <> [])).
  - apply bind_cases in E as [(r3 & s3 & E3 & E) | (e & E3 & ->)].
    + destruct (assemble_circuits_run _ _ _ _ _ _ _ E3) as (t3 & Ht3 & _ & Hsel & _).
      assert (Hsub : forall sel, sel ∈ attempted t3 -> sel ⊆+ files)
        by (intros sel Hin; by apply Hsel).
      destruct r3 as [s'|]; [by eapply Hrest|].
      inversion E; subst. exists (t1 ++ t2 ++ t3).
      split; [by rewrite Ht3, Ht2, Ht1, <- !app_assoc|]. by apply Hfed.
    + destruct (assemble_circuits_run _ _ _ _ _ _ _ E3) as (t3 & Ht3 & _ & Hsel & _).
      exists (t1 ++ t2 ++ t3). split; [by rewrite Ht3, Ht2, Ht1, <- !app_assoc|].
      apply Hfed. intros sel Hin. by apply Hsel.
  - eapply (Hrest s2 []); [by rewrite app_nil_r | | exact E].
    intros sel Hin. by apply elem_of_nil in Hin.
Qed.

(** X24. [main] assembles only what its production phases saved: wherever
    the trace of the run holds an assembly, every file of the selection
    handed to the assembler is a path at which a candidate was saved
    earlier in that trace, ahead of the assembly. *)
Theorem run_assembles_saved_files fuel models crd sd (st st' : State F W) r :
  main fuel models crd sd st = (r, st') ->
  exists t, trace st' = trace st ++ t /\
    forall t1 sel out i t2, t = t1 ++ EvAssemble sel out i :: t2 ->
    forall p, p ∈ sel -> exists text, EvSaveText text p ∈ t1.
Proof.
  intros E. unfold main in E.
  destruct (validate_arguments_run sd st) as (st1 & tv & Ev & Htv & Hov & _).
  rewrite bind_eq, Ev in E. rewrite bind_eq in E. cbn [emit] in E.
  rewrite bind_eq in E. unfold call at 1 in E. cbn [world with_trace] in E.
  assert (Hv : attempted tv = []).
  { apply nil_length_inv. rewrite attempted_count.
    apply (count_kind_only KAssemble [KPrint]); [|done]. intros Hin.
    apply list_elem_of_singleton in Hin. done. }
  assert (Hhead : fed_from_saved [] (tv ++ [EvMakedirs (F:=F) crd])).
  { apply fed_nothing. by rewrite attempted_app, Hv. }
  destruct (os_makedirs crd (world st1)) as [[[]|e] w1].
  - apply models_loop_fed in E as (t & Ht & Hfed).
    cbn [trace with_world with_trace] in Ht.
    exists ((tv ++ [EvMakedirs crd]) ++ t). split; [by rewrite Ht, Htv, <- !app_assoc|].
    assert (Hall : fed_from_saved [] ((tv ++ [EvMakedirs crd]) ++ t)).
    { apply fed_app; [done|].
      apply (fed_weaken ([] ++ tv ++ [EvMakedirs crd]) [] t) in Hfed.
      by rewrite app_nil_r in Hfed. }
    intros t1 sel out i t2 Hsplit p Hp. exact (Hall _ _ _ _ _ Hsplit _ Hp).
  - inversion E; subst. exists (tv ++ [EvMakedirs crd]). cbn [trace with_world with_trace].
    split; [by rewrite Htv, <- app_assoc|].
    intros t1 sel out i t2 Hsplit p Hp. exact (Hhead _ _ _ _ _ Hsplit _ Hp).
Qed.

End AssembledFromSaved.

(** A run on one model with training, and a run without. *)
Definition trained_run : result (option (Generator.Report (F:=Q))) * State Q Script.World :=
  Generator.main 2000 ["deepseek/deepseek-chat"] "/run" "/src"
    (Script.start Script.hopeless_world (Script.args_for 1 0 true) Script.zero_tape).

Definition plain_run : result (option (Generator.Report (F:=Q))) * State Q Script.World :=
  Generator.main 2000 ["deepseek/deepseek-chat"] "/run" "/src"
    (Script.initial Script.easy_world).

Lemma run_budget_witness :
  exists t, trace trained_run.2 = [] ++ t /\
    (count_kind KGen t <= 7)%nat /\ (count_kind KFix t <= 14)%nat /\
    (count_kind KCompile t <= 21)%nat /\ (count_kind KRun t <= 3)%nat /\
    (count_kind KSave t <= 7)%nat /\ (count_kind KImprove t <= 3)%nat.
Proof.
  refine (run_budget 2000%nat ["deepseek/deepseek-chat"] "/run" "/src"
            (Script.start Script.hopeless_world (Script.args_for 1 0 true) Script.zero_tape)
            trained_run.2 trained_run.1 _).
  vm_compute. reflexivity.
Defined.

Lemma run_without_improvement_witness :
  exists t, trace plain_run.2 = [] ++ t /\
    count_kind KRound t = 0%nat /\ count_kind KImprove t = 0%nat /\
    count_kind KWrite t = 0%nat.
Proof.
  refine (run_without_improvement_skips_training 2000%nat ["deepseek/deepseek-chat"] "/run"
            "/src" (Script.initial Script.easy_world) plain_run.2 plain_run.1 _ _).
  - vm_compute. reflexivity.
  - vm_compute. reflexivity.
Defined.

Lemma run_assembles_saved_witness :
  attempted (trace plain_run.2) = [["/run/generated/deepseek_deepseek-chatoutput1.py"]] /\
  exists t, trace plain_run.2 = [] ++ t /\
    forall t1 sel out i t2, t = t1 ++ EvAssemble sel out i :: t2 ->
    forall p, p ∈ sel -> exists text, EvSaveText text p ∈ t1.
Proof.
  split; [vm_compute; reflexivity|].
  refine (run_assembles_saved_files 2000%nat ["deepseek/deepseek-chat"] "/run" "/src"
            (Script.initial Script.easy_world) plain_run.2 plain_run.1 _).
  vm_compute. reflexivity.
Defined.

(** ** The files of a batch are distinct *)

Section CandidateFiles.

Lemma string_app_length (s1 s2 : string) :
  String.length (s1 +:+ s2) = (String.length s1 + String.length s2)%nat.
Proof. induction s1 as [|c s1 IH]; simpl; [done | f_equal; exact IH]. Qed.

Lemma string_app_inv_tail (s1 s2 t : string) : s1 +:+ t = s2 +:+ t -> s1 = s2.
Proof.
  revert s2. induction s1 as [|c s1 IH]; intros [|c' s2] E.
  - done.
  - apply (f_equal String.length) in E.
    change (("" +:+ t)%string) with t in E.
    rewrite string_app_length in E. simpl in E. lia.
  - apply (f_equal String.length) in E.
    change (("" +:+ t)%string) with t in E.
    rewrite string_app_length in E. simpl in E. lia.
  - simpl in E. inversion E; subst. f_equal. by apply IH.
Qed.

Lemma replace_slash_no_sep (s t : string) : t <> "" -> starts_with_sep t = false ->
  starts_with_sep (replace_slash s +:+ t) = false.
Proof.
  intros Hne Ht. destruct s as [|c s]; cbn; [exact Ht|].
  destruct (Ascii.eqb c "/") eqn:Hc; [done|].
  destruct c as [[] [] [] [] [] [] [] []]; try done.
Qed.

Lemma candidate_file_relative model i : starts_with_sep (candidate_file model i) = false.
Proof. unfold candidate_file. by apply replace_slash_no_sep. Qed.

Lemma candidate_file_inj model : Inj (=) (=) (candidate_file model).
Proof.
  intros i j E. unfold candidate_file in E.
  apply String.app_inj, String.app_inj, string_app_inv_tail in E.
  apply (inj pretty) in E. lia.
Qed.

Lemma join2_relative_inj g x y :
  starts_with_sep x = false -> starts_with_sep y = false -> join2 g x = join2 g y -> x = y.
Proof.
  intros Hx Hy. unfold join2. rewrite Hx, Hy.
  destruct (negb (truthy g) || ends_with_sep g); intros E.
  - by apply String.app_inj in E.
  - by apply String.app_inj, String.app_inj in E.
Qed.

Lemma candidate_path_inj g model i j :
  os_path_join g [candidate_file model i] = os_path_join g [candidate_file model j] -> i = j.
Proof.
  cbn [os_path_join fold_left]. intros E.
  apply join2_relative_inj in E; [|apply candidate_file_relative..].
  by apply candidate_file_inj in E.
Qed.

Lemma NoDup_range n : NoDup (range n).
Proof.
  unfold range. apply NoDup_fmap_2; [intros i j; lia | apply NoDup_seq].
Qed.

End CandidateFiles.

Section DistinctFiles.
Context {F : Type} `{FloatOps F} {W : Type} `{!Collaborators W F}.
Import ProgramProcessor Pipeline.

(** The paths a pool returns are files of its candidates, in the order of
    the tasks and one a task at most. *)
Lemma run_pool_paths tasks model logger g f p co (st st' : State F W) futures :
  run_pool tasks model logger g f p co st = (Ok futures, st') ->
  saved_paths futures `sublist_of` map (fun i => os_path_join g [candidate_file model i]) tasks.
Proof.
  revert st futures. induction tasks as [|i rest IH]; intros st futures E; cbn [run_pool] in E.
  - inversion E; subst. constructor.
  - apply bind_ok_inv in E as (r & st1 & E1 & E).
    apply bind_ok_inv in E as (rs & st2 & E2 & E). inversion E; subst futures st'. clear E.
    specialize (IH _ _ E2). cbn [map]. unfold submit in E1.
    destruct (process _ _ _ _ _ _) as [r0 st0] eqn:Ep. inversion E1; subst r st0. clear E1.
    destruct r0 as [[[[[path|] s] es] wf]|e]; cbn [saved_paths].
    + destruct (process_saved _ _ _ _ _ _ _ _ _ _ _ Ep) as (-> & _).
      destruct (truthy_opt _); cbn [app the].
      * by apply sublist_skip.
      * by apply sublist_cons.
    + cbn [truthy_opt app]. by apply sublist_cons.
    + by apply sublist_cons.
Qed.

(** X25. The files a production phase returns are pairwise distinct: each
    candidate saves under its own name, [<model>output<i+1>.py], so no
    candidate of the batch overwrites the file of another, and a selection
    of files at distinct positions never holds a file twice. *)
Theorem production_files_distinct model prompt crd logfile (st st' : State F W)
    files summary metrics :
  run_production_phase model prompt crd logfile st = (Ok (files, summary, metrics), st') ->
  NoDup files /\ forall sel, sel ⊆+ files -> NoDup sel.
Proof.
  intros E. unfold run_production_phase in E.
  rewrite bind_eq in E. cbn [get_config] in E.
  do 9 (apply bind_ok_inv in E as (? & ? & _ & E)).
  apply bind_ok_inv in E as (futures & s1 & Ep & E).
  apply bind_ok_inv in E as ([sf sl] & s2 & Ec & E).
  apply bind_ok_inv in E as (now & s3 & _ & E).
  apply bind_ok_inv in E as (? & s4 & _ & E).
  inversion E; subst. clear E.
  apply collect_production_result in Ec as (-> & _ & _). cbn [app].
  apply run_pool_paths in Ep.
  assert (Hnd : NoDup (saved_paths futures)).
  { eapply sublist_NoDup; [|exact Ep].
    apply NoDup_fmap_2; [|apply NoDup_range].
    intros i j Hij. by apply candidate_path_inj in Hij. }
  split; [exact Hnd|]. intros sel Hsub.
  apply submseteq_Permutation in Hsub as (k & Hk). rewrite Hk in Hnd.
  by apply NoDup_app in Hnd as (Hsel & _).
Qed.

End DistinctFiles.

(** A production phase whose three candidates all compile and run at once. *)
Definition fruitful_world : Script.World :=
  Script.scripted [Script.code "c0"; Script.code "c1"; Script.code "c2"]
    [None; None; None] [""; ""; ""].

Definition fruitful_run :=
  Pipeline.run_production_phase "deepseek/deepseek-chat" "generation_prompt.txt" "/run"
    "/run/execution.log" (Script.initial fruitful_world).

Lemma production_files_distinct_witness :
  (Script.value no_production fruitful_run.1).1.1
  = ["/run/generated/deepseek_deepseek-chatoutput1.py";
     "/run/generated/deepseek_deepseek-chatoutput2.py";
     "/run/generated/deepseek_deepseek-chatoutput3.py"] /\
  NoDup (Script.value no_production fruitful_run.1).1.1 /\
  forall sel, sel ⊆+ (Script.value no_production fruitful_run.1).1.1 -> NoDup sel.
Proof.
  split; [vm_compute; reflexivity|].
  refine (production_files_distinct "deepseek/deepseek-chat" "generation_prompt.txt" "/run"
            "/run/execution.log" (Script.initial fruitful_world) fruitful_run.2
            _ (Script.value no_production fruitful_run.1).1.2
            (Script.value no_production fruitful_run.1).2 _).
  vm_compute. reflexivity.
Defined.
